(** * Ranch bot (index.js): extraction, ledger, leaderboard and weekly cycle

    A shallow embedding of [src/index.js].  Texts are sequences of code
    units in the range U+0000..U+00FF ([ascii]); a number read from a run of
    digits is the double [Number] yields, given by its value ([Z], rounded
    to 53 significant bits); prices are exact decimals ([Q], reduced).  The
    SQLite store is a record of tables; its prepared statements are functions
    over that record. *)

From Stdlib Require Import ZArith QArith Lia Bool List Ascii String.
From stdpp Require Import base option list strings pretty.

Local Open Scope Z_scope.

(** ** Characters and JavaScript string helpers *)

Module Js.

Definition chars := list ascii.

Definition code (c : ascii) : N := N_of_ascii c.

Definition in_range (lo hi : N) (c : ascii) : bool :=
  (lo <=? code c)%N && (code c <=? hi)%N.

(** [\d] *)
Definition is_digit (c : ascii) : bool := in_range 48 57 c.

Definition is_upper (c : ascii) : bool := in_range 65 90 c.
Definition is_lower (c : ascii) : bool := in_range 97 122 c.

(** [[A-Za-z]] *)
Definition is_alpha (c : ascii) : bool := is_upper c || is_lower c.

(** [\w], which decides [\b] *)
Definition is_word (c : ascii) : bool :=
  is_alpha c || is_digit c || (code c =? 95)%N.

(** [\s] and the characters removed by [trim], below U+0100:
    TAB, LF, VT, FF, CR, SPACE and NBSP. *)
Definition is_space (c : ascii) : bool :=
  in_range 9 13 c || (code c =? 32)%N || (code c =? 160)%N.

Definition lower (c : ascii) : ascii :=
  if is_upper c then ascii_of_N (code c + 32) else c.

Definition toLowerCase (s : chars) : chars := map lower s.

Fixpoint drop_while (p : ascii -> bool) (s : chars) : chars :=
  match s with
  | c :: tl => if p c then drop_while p tl else s
  | [] => []
  end.

Definition trim (s : chars) : chars :=
  rev (drop_while is_space (rev (drop_while is_space s))).

Definition eqc (a b : ascii) : bool := (code a =? code b)%N.

Fixpoint eqs (a b : chars) : bool :=
  match a, b with
  | [], [] => true
  | x :: a', y :: b' => eqc x y && eqs a' b'
  | _, _ => false
  end.

(** Value of a run of decimal digits, most significant first. *)
Definition digit_val (c : ascii) : Z := Z.of_N (code c) - 48.

Definition digits_val (s : chars) : Z :=
  fold_left (fun acc c => 10 * acc + digit_val c) s 0.

(** *** Numbers

    [Number] on a run of digits, and the products and differences the
    bot forms from such numbers, are IEEE 754 doubles whose value is an
    integer or an infinity.  Such a double is modelled by its value, with
    [INFINITY], a power of two that exceeds every finite double, standing for
    Infinity and its opposite for -Infinity.  [round53] rounds an integer to
    53 significant bits, ties to even; [to_double] is the double nearest to
    an integer, the string-to-number conversion of the engine. *)
Definition round53 (z : Z) : Z :=
  let a := Z.abs z in
  let k := Z.log2 a - 52 in
  if k <=? 0 then z
  else
    let q := a / 2 ^ k in
    let r := a mod 2 ^ k in
    let half := 2 ^ (k - 1) in
    let q' := if r <? half then q
              else if half <? r then q + 1
              else if Z.even q then q else q + 1 in
    Z.sgn z * (q' * 2 ^ k).

Definition INFINITY : Z := 2 ^ 1024.

Definition to_double (z : Z) : Z :=
  let r := round53 z in
  if INFINITY <=? r then INFINITY
  else if r <=? - INFINITY then - INFINITY
  else r.

(** [Number(s)] for a run of digits [s]. *)
Definition Number_int (s : chars) : Z := to_double (digits_val s).

(** [a * b] for a finite [b] above 0, and [a - b] for a finite [a]. *)
Definition double_mul (a b : Z) : Z := to_double (a * b).
Definition double_sub (a b : Z) : Z := to_double (a - b).

End Js.

(** ** Regular expressions

    The patterns of index.js use literals, classes, greedy quantifiers,
    alternation, capture groups, [^], [$] and [\b].  [exec] is the
    backtracking matcher of the language definition in continuation
    style: the first alternative and the longest repetition are tried
    first, and a repetition whose body consumed nothing is abandoned. *)

Module Regex.
Import Js.

Inductive re : Type :=
| Eps
| Cls (p : ascii -> bool)
| Cat (r1 r2 : re)
| Alt (r1 r2 : re)
| Star (r : re)
| Grp (i : nat) (r : re)
| Bol
| Eol
| WordB.

Record mstate := MState {
  before : chars;               (* consumed input, latest first *)
  after : chars;                (* remaining input *)
  groups : list (nat * chars)   (* captures, latest first *)
}.

Definition captured (s s' : mstate) : chars :=
  take (length (after s) - length (after s')) (after s).

Definition set_group (i : nat) (w : chars) (s : mstate) : mstate :=
  MState (before s) (after s) ((i, w) :: groups s).

Definition at_word_boundary (s : mstate) : bool :=
  xorb (match before s with c :: _ => is_word c | [] => false end)
       (match after s with c :: _ => is_word c | [] => false end).

Fixpoint exec (r : re) (k : mstate -> option mstate) (s : mstate)
  : option mstate :=
  match r with
  | Eps => k s
  | Cls p =>
      match after s with
      | c :: tl => if p c then k (MState (c :: before s) tl (groups s)) else None
      | [] => None
      end
  | Cat r1 r2 => exec r1 (exec r2 k) s
  | Alt r1 r2 =>
      match exec r1 k s with
      | Some x => Some x
      | None => exec r2 k s
      end
  | Star r1 =>
      (fix loop (fuel : nat) (s : mstate) : option mstate :=
         match fuel with
         | O => k s
         | S fuel' =>
             match exec r1 (fun s' =>
                             if (length (after s') <? length (after s))%nat
                             then loop fuel' s' else None) s with
             | Some x => Some x
             | None => k s
             end
         end) (S (length (after s))) s
  | Grp i r1 => exec r1 (fun s' => k (set_group i (captured s s') s')) s
  | Bol => match before s with [] => k s | _ => None end
  | Eol => match after s with [] => k s | _ => None end
  | WordB => if at_word_boundary s then k s else None
  end.

(** What [exec] computes, as a relation: [matches r s s'] when [r] can
    take the matcher from [s] to [s'].  It forgets priority. *)
Inductive matches : re -> mstate -> mstate -> Prop :=
| M_Eps s : matches Eps s s
| M_Cls p c tl b g :
    p c = true -> matches (Cls p) (MState b (c :: tl) g) (MState (c :: b) tl g)
| M_Cat r1 r2 s s1 s2 :
    matches r1 s s1 -> matches r2 s1 s2 -> matches (Cat r1 r2) s s2
| M_AltL r1 r2 s s1 : matches r1 s s1 -> matches (Alt r1 r2) s s1
| M_AltR r1 r2 s s1 : matches r2 s s1 -> matches (Alt r1 r2) s s1
| M_Star0 r s : matches (Star r) s s
| M_StarS r s s1 s2 :
    matches r s s1 -> matches (Star r) s1 s2 -> matches (Star r) s s2
| M_Grp i r s s1 :
    matches r s s1 -> matches (Grp i r) s (set_group i (captured s s1) s1)
| M_Bol s : before s = [] -> matches Bol s s
| M_Eol s : after s = [] -> matches Eol s s
| M_WordB s : at_word_boundary s = true -> matches WordB s s.

(** The matcher reads the word [w] of characters of class [p] between
    [s] and [s'] and records no capture. *)
Definition reads (p : ascii -> bool) (s : mstate) (w : chars) (s' : mstate) : Prop :=
  forallb p w = true /\ after s = w ++ after s'
  /\ before s' = rev w ++ before s /\ groups s' = groups s.

(** Pattern builders. *)
Definition Opt (r : re) : re := Alt r Eps.
Definition Plus (r : re) : re := Cat r (Star r).

Fixpoint Exactly (n : nat) (r : re) : re :=
  match n with O => Eps | S n' => Cat r (Exactly n' r) end.

Fixpoint UpTo (n : nat) (r : re) : re :=
  match n with O => Eps | S n' => Opt (Cat r (UpTo n' r)) end.

(** [r{lo,hi}] *)
Definition Rep (lo hi : nat) (r : re) : re :=
  Cat (Exactly lo r) (UpTo (hi - lo) r).

Definition Chr (c : ascii) : re := Cls (eqc c).

(** A letter under the [i] flag: either case. *)
Definition ChrI (c : ascii) : re := Cls (fun x => eqc (lower x) (lower c)).

Fixpoint Lit (s : chars) : re :=
  match s with [] => Eps | c :: tl => Cat (Chr c) (Lit tl) end.

Fixpoint LitI (s : chars) : re :=
  match s with [] => Eps | c :: tl => Cat (ChrI c) (LitI tl) end.

Definition digit : re := Cls is_digit.
Definition space : re := Cls is_space.

(** A match: the text before it, the matched text and the captures. *)
Record rmatch := RMatch {
  m_pre : chars;
  m_whole : chars;
  m_groups : list (nat * chars);
  m_post : chars
}.

Definition group (i : nat) (m : rmatch) : option chars :=
  snd <$> find (fun g => Nat.eqb (fst g) i) (m_groups m).

Definition match_here (r : re) (pre_rev rest : chars) : option rmatch :=
  match exec r Some (MState pre_rev rest []) with
  | Some s' =>
      Some (RMatch (rev pre_rev)
                   (take (length rest - length (after s')) rest)
                   (groups s')
                   (after s'))
  | None => None
  end.

(** Leftmost match, as [String.prototype.match] without [g] and
    [RegExp.prototype.test]. *)
Fixpoint search_from (r : re) (pre_rev rest : chars) : option rmatch :=
  match match_here r pre_rev rest with
  | Some m => Some m
  | None =>
      match rest with
      | c :: tl => search_from r (c :: pre_rev) tl
      | [] => None
      end
  end.

Definition search (r : re) (s : chars) : option rmatch := search_from r [] s.

Definition test (r : re) (s : chars) : bool :=
  match search r s with Some _ => true | None => false end.

(** All matches from left to right, as [match] with the [g] flag: after a
    match the scan resumes at its end (one further for an empty match). *)
Fixpoint scan (fuel : nat) (r : re) (pre_rev rest : chars) : list rmatch :=
  match fuel with
  | O => []
  | S fuel' =>
      match search_from r pre_rev rest with
      | None => []
      | Some m =>
          let pre' := rev (m_whole m) ++ rev (m_pre m) in
          match m_whole m, m_post m with
          | [], [] => [m]
          | [], c :: tl => m :: scan fuel' r (c :: pre') tl
          | _, post => m :: scan fuel' r pre' post
          end
      end
  end.

Definition match_all (r : re) (s : chars) : list chars :=
  map m_whole (scan (S (length s)) r [] s).

(** [s.replace(r, by)] with the [g] flag, for a pattern that never
    matches the empty string. *)
Fixpoint replace_scan (fuel : nat) (r : re) (by_ : chars) (pre_rev rest : chars)
  : chars :=
  match fuel with
  | O => rest
  | S fuel' =>
      match search_from r pre_rev rest with
      | None => rest
      | Some m =>
          let skipped := drop (length pre_rev) (m_pre m) in
          skipped ++ by_ ++
          replace_scan fuel' r by_ (rev (m_whole m) ++ rev (m_pre m)) (m_post m)
      end
  end.

Definition replace_all (r : re) (by_ : chars) (s : chars) : chars :=
  replace_scan (S (length s)) r by_ [] s.

End Regex.

(** ** Parsing helpers *)

Module Parse.
Import Js Regex.

Definition cs (s : string) : chars := list_ascii_of_string s.
Definition str (s : chars) : string := string_of_list_ascii s.

Inductive item_type := eggs | milk | herd_buy | herd_sell.

Definition item_type_eqb (a b : item_type) : bool :=
  match a, b with
  | eggs, eggs | milk, milk | herd_buy, herd_buy | herd_sell, herd_sell => true
  | _, _ => false
  end.

(** A JavaScript number read from a price text: the exact decimal the
    text denotes (the rounding of [Number] to a double is not modelled),
    or NaN. *)
Inductive jsnum := NaN | Num (q : Q).

Fixpoint take_while (p : ascii -> bool) (s : chars) : chars :=
  match s with
  | c :: tl => if p c then c :: take_while p tl else []
  | [] => []
  end.

(** [Number(s)] for a text of digits and dots: the empty text is 0,
    [D+], [D+.D*] and [.D+] are decimals, anything else is NaN. *)
Definition Number_decimal (s : chars) : jsnum :=
  let ip := take_while is_digit s in
  match drop (length ip) s with
  | [] => Num (inject_Z (digits_val ip))
  | c :: fp =>
      if eqc c "."%char && forallb is_digit fp
         && negb (Nat.eqb (length ip) 0 && Nat.eqb (length fp) 0)
      then Num (Qred (Qmake (digits_val (ip ++ fp))
                            (Z.to_pos (10 ^ Z.of_nat (length fp)))))
      else NaN
  end.

(** [x || 0] on a number. *)
Definition or_zero (x : jsnum) : Q :=
  match x with NaN => 0%Q | Num q => q end.

(** *** The patterns *)

(** [/<@!?(\d{17,20})>/] *)
Definition re_mention : re :=
  Cat (Lit (cs "<@")) (Cat (Opt (Chr "!")) (Cat (Grp 1 (Rep 17 20 digit)) (Chr ">"))).

Definition not_rbracket (c : ascii) : bool := negb (eqc c "]").
Definition not_pipe_nl (c : ascii) : bool :=
  negb (eqc c "|") && negb (code c =? 10)%N.

(** [/\[([^\]]{1,64})\]/] and the same anchored with [^] *)
Definition re_bracket : re :=
  Cat (Chr "[") (Cat (Grp 1 (Rep 1 64 (Cls not_rbracket))) (Chr "]")).
Definition re_bracket_start : re := Cat Bol re_bracket.

(** [/^([^|\n]{1,64})\s*\|/] *)
Definition re_pipe : re :=
  Cat Bol (Cat (Grp 1 (Rep 1 64 (Cls not_pipe_nl))) (Cat (Star space) (Chr "|"))).

Definition colon_or_hash (c : ascii) : bool := eqc c ":" || eqc c "#".

(** [/ranch\s*id\s*[:#]?\s*(\d+)/i] *)
Definition re_ranch_id : re :=
  Cat (LitI (cs "ranch")) (Cat (Star space) (Cat (LitI (cs "id"))
    (Cat (Star space) (Cat (Opt (Cls colon_or_hash))
      (Cat (Star space) (Grp 1 (Plus digit))))))).

(** [/\branch\s*(\d+)/i] *)
Definition re_ranch : re :=
  Cat WordB (Cat (LitI (cs "ranch")) (Cat (Star space) (Grp 1 (Plus digit)))).

(** [/\s+/g] *)
Definition re_spaces : re := Plus space.

(** [/(\d+)\s*(eggs?|milk)\b/i] *)
Definition re_near : re :=
  Cat (Grp 1 (Plus digit)) (Cat (Star space)
    (Cat (Grp 2 (Alt (Cat (LitI (cs "egg")) (Opt (ChrI "s"))) (LitI (cs "milk"))))
         WordB)).

Definition price_char (c : ascii) : bool := is_digit c || eqc c "," || eqc c ".".

(** [/\b(bought|sold)\b\s+(\d+)\s+([A-Za-z]+)\s+for\s+\$?([\d,\.]+)\$?/i] *)
Definition re_herd : re :=
  Cat WordB (Cat (Grp 1 (Alt (LitI (cs "bought")) (LitI (cs "sold"))))
    (Cat WordB (Cat (Plus space) (Cat (Grp 2 (Plus digit))
      (Cat (Plus space) (Cat (Grp 3 (Plus (Cls is_alpha)))
        (Cat (Plus space) (Cat (LitI (cs "for")) (Cat (Plus space)
          (Cat (Opt (Chr "$")) (Cat (Grp 4 (Plus (Cls price_char)))
            (Opt (Chr "$"))))))))))))).

(** [/\beggs?\b/i] and [/\bmilk\b/i] *)
Definition re_has_eggs : re :=
  Cat WordB (Cat (LitI (cs "egg")) (Cat (Opt (ChrI "s")) WordB)).
Definition re_has_milk : re := Cat WordB (Cat (LitI (cs "milk")) WordB).

(** [/\d+/g] *)
Definition re_int : re := Plus digit.

(** [/^unknown$/i] *)
Definition re_unknown : re := Cat Bol (Cat (LitI (cs "unknown")) Eol).

(** [/^(\d+)\s*(h|d)$/i] *)
Definition re_since : re :=
  Cat Bol (Cat (Grp 1 (Plus digit)) (Cat (Star space)
    (Cat (Grp 2 (Alt (ChrI "h") (ChrI "d"))) Eol))).

(** The text [t] holds a mention token around [id]: [<@id>] or [<@!id>]
    with [id] of 17 to 20 digits. *)
Definition mentions (t id : chars) : Prop :=
  exists pre bang post,
    t = pre ++ cs "<@" ++ bang ++ id ++ cs ">" ++ post
    /\ (bang = [] \/ bang = cs "!")
    /\ (17 <= length id <= 20)%nat
    /\ forallb is_digit id = true.

(** *** The extractors *)

Definition is_empty (s : string) : bool :=
  match s with EmptyString => true | _ => false end.

Definition extractDiscordId (text : string) : option string :=
  if is_empty text then None
  else match search re_mention (cs text) with
       | Some m => str <$> group 1 m
       | None => None
       end.

Definition extractActorName (text : string) : option string :=
  if is_empty text then None
  else
    let br := match search re_bracket_start (cs text) with
              | Some m => Some m
              | None => search re_bracket (cs text)
              end in
    match br with
    | Some m => (fun g => str (trim g)) <$> group 1 m
    | None =>
        match search re_pipe (cs text) with
        | Some m => (fun g => str (trim g)) <$> group 1 m
        | None => None
        end
    end.

Definition extractRanchId_chars (t : chars) : option Z :=
  let m := match search re_ranch_id t with
           | Some m => Some m
           | None => search re_ranch t
           end in
  match m with
  | Some m => Number_int <$> group 1 m
  | None => None
  end.

Definition extractRanchId (text : string) : option Z :=
  if is_empty text then None else extractRanchId_chars (cs text).

Record Item := mkItem {
  i_item_type : item_type;
  i_amount : Z;
  i_value : jsnum;
  i_subtype : option string
}.

(** [text.replace(/\s+/g, " ").trim()] *)
Definition normalize (text : string) : chars :=
  trim (replace_all re_spaces (cs " ") (cs text)).

Definition near_item (m : rmatch) : option Item :=
  match group 1 m, group 2 m with
  | Some g1, Some g2 =>
      let itemRaw := toLowerCase g2 in
      let ty := if eqs (take 4 itemRaw) (cs "milk") then milk else eggs in
      Some (mkItem ty (Number_int g1) (Num 0) None)
  | _, _ => None
  end.

Definition remove_commas (s : chars) : chars :=
  filter (fun c => negb (eqc c ",")) s.

Definition herd_item (m : rmatch) : option Item :=
  match group 1 m, group 2 m, group 3 m, group 4 m with
  | Some g1, Some g2, Some g3, Some g4 =>
      let action := toLowerCase g1 in
      let cnt := Number_int g2 in
      let animal := toLowerCase g3 in
      let price := Number_decimal (remove_commas g4) in
      if eqs action (cs "bought")
      then Some (mkItem herd_buy cnt price (Some (str animal)))
      else Some (mkItem herd_sell cnt price (Some (str animal)))
  | _, _, _, _ => None
  end.

(** The fallback of [extractItemAndAmount], on the normalized text. *)
Definition fallback_item (t : chars) : option Item :=
  let hasEggs := test re_has_eggs t in
  let hasMilk := test re_has_milk t in
  if negb hasEggs && negb hasMilk then None
  else
    let ranchId := extractRanchId (str t) in
    let nums := map Number_int (match_all re_int t) in
    let candidates :=
      match ranchId with
      | Some r => if r =? 0 then nums else filter (fun n => negb (n =? r)) nums
      | None => nums
      end in
    match last candidates with
    | None => None
    | Some amount => Some (mkItem (if hasMilk then milk else eggs) amount (Num 0) None)
    end.

Definition extractItemAndAmount (text : string) : option Item :=
  if is_empty text then None
  else
    let t := normalize text in
    match search re_near t with
    | Some near => near_item near
    | None =>
        match search re_herd t with
        | Some herd => herd_item herd
        | None => fallback_item t
        end
    end.

Record Parsed := mkParsed {
  p_discord_id : option string;
  p_actor : option string;
  p_ranch_id : option Z;
  p_item_type : item_type;
  p_amount : Z;
  p_value : Q;
  p_subtype : option string
}.

Definition parseGather (text : string) : option Parsed :=
  if is_empty text then None
  else
    let discord_id := extractDiscordId text in
    let actor := extractActorName text in
    let ranch_id := extractRanchId text in
    match extractItemAndAmount text with
    | None => None
    | Some item =>
        if (i_amount item =? 0) || (i_amount item <=? 0) then None
        else if 100000 <? i_amount item then None
        else Some (mkParsed discord_id actor ranch_id
                     (i_item_type item) (i_amount item)
                     (or_zero (i_value item))
                     (match i_subtype item with
                      | Some s => if is_empty s then None else Some s
                      | None => None
                      end))
    end.

End Parse.

(** ** The store: tables and prepared statements *)

Module Store.
Import Js Parse.

(** A row of [gathers]. *)
Record Gather := mkGather {
  g_id : Z;
  g_ts : Z;
  g_channel_id : string;
  g_message_id : string;
  g_discord_id : option string;
  g_ranch_id : option Z;
  g_item_type : item_type;
  g_amount : Z;
  g_value : Q;
  g_subtype : option string
}.

Record Schedule := mkSchedule { weekday : Z; hour : Z; minute : Z }.

(** The database.  [meta] holds two keys, each written by one setter:
    "report_schedule" (the JSON text of a schedule, kept as the triple it
    encodes; [None] when the row is absent) and "last_report_date" ([None]
    when the row is absent, [Some None] when its value is NULL). *)
Record Db := mkDb {
  gathers : list Gather;
  seq : Z;
  report_subscribers : list string;
  meta_report_schedule : option Schedule;
  meta_last_report_date : option (option string)
}.

Definition with_gathers (l : list Gather) (seq' : Z) (d : Db) : Db :=
  mkDb l seq' (report_subscribers d) (meta_report_schedule d)
       (meta_last_report_date d).

Definition opt_string_eqb (a b : option string) : bool :=
  match a, b with
  | Some x, Some y => String.eqb x y
  | _, _ => false
  end.

(** [@p IS NULL OR col = @p] *)
Definition null_or_eq_Z (p col : option Z) : bool :=
  match p with
  | None => true
  | Some x => match col with Some y => x =? y | None => false end
  end.

Definition null_or_eq_string (p col : option string) : bool :=
  match p with
  | None => true
  | Some x => match col with Some y => String.eqb x y | None => false end
  end.

(** [@since_ts IS NULL OR ts >= @since_ts] *)
Definition null_or_since (since_ts : option Z) (ts : Z) : bool :=
  match since_ts with None => true | Some s => s <=? ts end.

Definition is_some {A} (o : option A) : bool :=
  match o with Some _ => true | None => false end.

(** [insertGather]: [message_id] is UNIQUE; [None] is the constraint
    failure. *)
Definition insertGather (ts : Z) (channel_id message_id : string)
    (discord_id : option string) (ranch_id : option Z) (ty : item_type)
    (amount : Z) (value : Q) (subtype : option string) (d : Db) : option Db :=
  if existsb (fun g => String.eqb (g_message_id g) message_id) (gathers d)
  then None
  else Some (with_gathers
               (gathers d ++ [mkGather (seq d + 1) ts channel_id message_id
                                discord_id ranch_id ty amount value subtype])
               (seq d + 1) d).

Definition is_recent_duplicate (channel_id : string) (ty : item_type)
    (amount : Z) (discord_id : option string) (since_ts : Z) (g : Gather) : bool :=
  String.eqb (g_channel_id g) channel_id
  && item_type_eqb (g_item_type g) ty
  && (g_amount g =? amount)
  && ((negb (is_some discord_id) && negb (is_some (g_discord_id g)))
      || opt_string_eqb (g_discord_id g) discord_id)
  && (since_ts <=? g_ts g).

(** [countRecentDuplicate]: the [cnt] column. *)
Definition countRecentDuplicate (channel_id : string) (ty : item_type)
    (amount : Z) (discord_id : option string) (since_ts : Z) (d : Db) : Z :=
  Z.of_nat (length (filter (fun g => is_recent_duplicate channel_id ty amount
                                       discord_id since_ts g) (gathers d))).

(** [COALESCE(SUM(CASE WHEN item_type = ty THEN amount END), 0)] *)
Definition sum_amount (ty : item_type) (rows : list Gather) : Z :=
  fold_right (fun g acc => if item_type_eqb (g_item_type g) ty
                           then g_amount g + acc else acc) 0 rows.

(** [COALESCE(SUM(CASE WHEN item_type = ty THEN value END), 0)] *)
Definition sum_value (ty : item_type) (rows : list Gather) : Q :=
  Qred (fold_right (fun g acc => if item_type_eqb (g_item_type g) ty
                                 then Qplus (g_value g) acc else acc) 0%Q rows).

Record Totals := mkTotals { t_eggs : Z; t_milk : Z }.

Definition sumTotals (ranch_id : option Z) (since_ts : option Z) (d : Db) : Totals :=
  let rows := filter (fun g => null_or_eq_Z ranch_id (g_ranch_id g)
                               && null_or_since since_ts (g_ts g)) (gathers d) in
  mkTotals (sum_amount eggs rows) (sum_amount milk rows).

Definition sumTotalsSince (since_ts : Z) (ranch_id : option Z)
    (discord_id : option string) (d : Db) : Totals :=
  let rows := filter (fun g => (since_ts <=? g_ts g)
                               && null_or_eq_Z ranch_id (g_ranch_id g)
                               && null_or_eq_string discord_id (g_discord_id g))
                     (gathers d) in
  mkTotals (sum_amount eggs rows) (sum_amount milk rows).

(** A row of [topUsers] and [weeklyPerUser]. *)
Record UserRow := mkUserRow {
  u_discord_id : option string;
  u_eggs : Z;
  u_milk : Z;
  u_herd_bought : Z;
  u_herd_sold : Z;
  u_herd_buy_cost : Q;
  u_herd_sell_revenue : Q
}.

Definition u_total (r : UserRow) : Z := u_eggs r + u_milk r.

(** The keys of [GROUP BY discord_id], in order of first appearance. *)
Fixpoint group_keys (seen : list (option string)) (rows : list Gather)
  : list (option string) :=
  match rows with
  | [] => []
  | g :: tl =>
      if existsb (fun k => if decide (k = g_discord_id g) then true else false) seen
      then group_keys seen tl
      else g_discord_id g :: group_keys (g_discord_id g :: seen) tl
  end.

Definition same_key (k : option string) (g : Gather) : bool :=
  if decide (g_discord_id g = k) then true else false.

Definition aggregate (k : option string) (rows : list Gather) : UserRow :=
  let mine := filter (fun g => same_key k g) rows in
  mkUserRow k (sum_amount eggs mine) (sum_amount milk mine)
            (sum_amount herd_buy mine) (sum_amount herd_sell mine)
            (sum_value herd_buy mine) (sum_value herd_sell mine).

Definition group_by_user (rows : list Gather) : list UserRow :=
  map (fun k => aggregate k rows) (group_keys [] rows).

(** [ORDER BY (eggs + milk) DESC] names no second key: the statement
    leaves the order of rows with equal totals to the database engine.
    An engine is any function that orders a list of grouped rows; it
    conforms when its answer is a rearrangement of the rows in
    descending order of [eggs + milk]. *)
Record Engine := mkEngine { order_by_total_desc : list UserRow -> list UserRow }.

Fixpoint descending (l : list UserRow) : bool :=
  match l with
  | a :: ((b :: _) as tl) => (u_total b <=? u_total a) && descending tl
  | _ => true
  end.

Definition conforms (e : Engine) : Prop :=
  forall l, Permutation l (order_by_total_desc e l)
            /\ descending (order_by_total_desc e l) = true.

(** Two conforming engines: insertion sorts that put a new row after,
    respectively before, the rows of the same total. *)
Fixpoint insert_after (r : UserRow) (l : list UserRow) : list UserRow :=
  match l with
  | [] => [r]
  | a :: tl => if u_total r <=? u_total a then a :: insert_after r tl
               else r :: a :: tl
  end.

Fixpoint insert_before (r : UserRow) (l : list UserRow) : list UserRow :=
  match l with
  | [] => [r]
  | a :: tl => if u_total r <? u_total a then a :: insert_before r tl
               else r :: a :: tl
  end.

Definition engine_a : Engine :=
  mkEngine (fun l => fold_left (fun acc r => insert_after r acc) l []).
Definition engine_b : Engine :=
  mkEngine (fun l => fold_left (fun acc r => insert_before r acc) l []).

(** The grouped rows of [topUsers] before ORDER BY and LIMIT. *)
Definition top_candidates (since_ts : option Z) (ranch_id : option Z) (d : Db)
  : list UserRow :=
  group_by_user
    (filter (fun g => null_or_since since_ts (g_ts g)
                      && null_or_eq_Z ranch_id (g_ranch_id g)
                      && is_some (g_discord_id g)) (gathers d)).

Definition topUsers (e : Engine) (since_ts : option Z) (ranch_id : option Z)
    (limit : Z) (d : Db) : list UserRow :=
  let ordered := order_by_total_desc e (top_candidates since_ts ranch_id d) in
  (* a negative LIMIT means no limit *)
  if limit <? 0 then ordered else take (Z.to_nat limit) ordered.

Definition weeklyPerUser (e : Engine) (since_ts : Z) (d : Db) : list UserRow :=
  let rows := filter (fun g => (since_ts <=? g_ts g)
                               && is_some (g_discord_id g)) (gathers d) in
  order_by_total_desc e (group_by_user rows).

(** [SELECT COALESCE(SUM(value),0) ... WHERE ts >= @since_ts AND item_type = ty] *)
Definition herdTotal (ty : item_type) (since_ts : Z) (d : Db) : Q :=
  sum_value ty (filter (fun g => since_ts <=? g_ts g) (gathers d)).

Definition delete_matches (since_ts : Z) (ranch_id : option Z) (g : Gather) : bool :=
  (since_ts <=? g_ts g) && null_or_eq_Z ranch_id (g_ranch_id g).

(** [deleteSince]: the new database and [info.changes]. *)
Definition deleteSince (since_ts : Z) (ranch_id : option Z) (d : Db) : Db * Z :=
  let kept := filter (fun g => negb (delete_matches since_ts ranch_id g)) (gathers d) in
  (with_gathers kept (seq d) d,
   Z.of_nat (length (gathers d)) - Z.of_nat (length kept)).

(** [INSERT OR REPLACE INTO report_subscribers] *)
Definition addSubscriber (discord_id : string) (d : Db) : Db :=
  mkDb (gathers d) (seq d)
       (filter (fun x => negb (String.eqb x discord_id)) (report_subscribers d)
        ++ [discord_id])
       (meta_report_schedule d) (meta_last_report_date d).

Definition removeSubscriber (discord_id : string) (d : Db) : Db :=
  mkDb (gathers d) (seq d)
       (filter (fun x => negb (String.eqb x discord_id)) (report_subscribers d))
       (meta_report_schedule d) (meta_last_report_date d).

Definition listSubscribers (d : Db) : list string := report_subscribers d.

End Store.

(** ** The bot: message listener, weekly cycle, scheduler, commands *)

Module Bot.
Import Js Regex Parse Store.

(** *** Settings *)

Definition DUPLICATE_WINDOW_MS : Z := 10 * 1000.
Definition PRICE_PER_ITEM : Q := 5 # 4.
Definition DEFAULT_WEEKDAY : Z := 1.
Definition DEFAULT_HOUR : Z := 9.
Definition DEFAULT_MINUTE : Z := 0.

(** The process environment variables. *)
Record Config := mkConfig {
  listenChannelId : string;
  REPORT_WEBHOOK_URL : option string;
  GUILD_ID : option string
}.

(** [x || null] on a string that may be missing: the empty string is
    falsy. *)
Definition or_null (v : option string) : option string :=
  match v with
  | Some u => if is_empty u then None else Some u
  | None => None
  end.

Definition reportWebhookUrl (cfg : Config) : option string :=
  or_null (REPORT_WEBHOOK_URL cfg).
Definition guildIdEnv (cfg : Config) : option string := or_null (GUILD_ID cfg).

(** *** Timezone helpers *)

Definition parseSinceToTs (now : Z) (since : option string) : option Z :=
  match since with
  | None => None
  | Some s =>
      if is_empty s then None
      else match search re_since (trim (cs s)) with
           | None => None
           | Some m =>
               match group 1 m, group 2 m with
               | Some g1, Some g2 =>
                   let n := Number_int g1 in
                   let unit := toLowerCase g2 in
                   let ms :=
                     if eqs unit (cs "h")
                     then double_mul (double_mul (double_mul n 60) 60) 1000
                     else double_mul
                            (double_mul (double_mul (double_mul n 24) 60) 60)
                            1000 in
                   Some (double_sub now ms)
               | _, _ => None
               end
           end
  end.

Definition sevenDaysAgoTs (now : Z) : Z := now - 7 * 24 * 60 * 60 * 1000.

(** The result of [getTorontoDateParts]. *)
Record DateParts := mkDateParts {
  dp_year : Z; dp_month : Z; dp_day : Z;
  dp_hour : Z; dp_minute : Z; dp_weekday : Z
}.

Definition isReportTime (nowParts : DateParts)
    (scheduledWeekday scheduledHour scheduledMinute : Z) : bool :=
  (dp_weekday nowParts =? scheduledWeekday)
  && (dp_hour nowParts =? scheduledHour)
  && (dp_minute nowParts =? scheduledMinute).

Definition getScheduleMeta (d : Db) : Schedule :=
  match meta_report_schedule d with
  | None => mkSchedule DEFAULT_WEEKDAY DEFAULT_HOUR DEFAULT_MINUTE
  | Some o => mkSchedule (weekday o) (hour o) (minute o)
  end.

Definition setScheduleMeta (weekday hour minute : Z) (d : Db) : Db :=
  mkDb (gathers d) (seq d) (report_subscribers d)
       (Some (mkSchedule weekday hour minute)) (meta_last_report_date d).

(** *** Message listener *)

Record EmbedIn := mkEmbedIn {
  e_title : string;
  e_description : string;
  e_fields : list (string * string)
}.

Record Message := mkMessage {
  channelId : string;
  id : string;
  content : string;
  embeds : list EmbedIn
}.

(** The text the listener parses: the content, or, when that is blank,
    the title, description and fields of the first embed. *)
Definition text_used (message : Message) : string :=
  let text := content message in
  match embeds message with
  | e :: _ =>
      if is_empty text || is_empty (str (trim (cs text))) then
        let fields := fold_left
                        (fun acc f => acc ++ " " ++ fst f ++ " " ++ snd f)%string
                        (e_fields e) ""%string in
        str (trim (cs (e_title e ++ " " ++ e_description e ++ " " ++ fields)%string))
      else text
  | [] => text
  end.

Inductive Outcome :=
| OtherChannel
| ParseFail
| SkipUnknownActor
| SkipNoMention
| DuplicateSkipped
| UniqueConstraintFailed
| Logged.

(** The [messageCreate] listener.  [now1] and [now2] are the two readings
    of [Date.now()], for the duplicate window and for the stored row. *)
Definition onMessageCreate (cfg : Config) (now1 now2 : Z) (message : Message)
    (d : Db) : Outcome * Db :=
  if negb (String.eqb (channelId message) (listenChannelId cfg)) then (OtherChannel, d)
  else
    let text := text_used message in
    match parseGather text with
    | None => (ParseFail, d)
    | Some parsed =>
        match or_null (p_discord_id parsed) with
        | None =>
            match or_null (p_actor parsed) with
            | Some actor =>
                if test re_unknown (trim (cs actor))
                then (SkipUnknownActor, d)
                else (SkipNoMention, d)
            | None => (SkipNoMention, d)
            end
        | Some discord_id =>
            let sinceTs := now1 - DUPLICATE_WINDOW_MS in
            let cnt := countRecentDuplicate (channelId message)
                         (p_item_type parsed) (p_amount parsed)
                         (Some discord_id) sinceTs d in
            if 0 <? cnt then (DuplicateSkipped, d)
            else
              match insertGather now2 (channelId message) (id message)
                      (Some discord_id) (p_ranch_id parsed)
                      (p_item_type parsed) (p_amount parsed)
                      (p_value parsed) (p_subtype parsed) d with
              | Some d' => (Logged, d')
              | None => (UniqueConstraintFailed, d)
              end
        end
    end.

(** *** Weekly report and reset *)

(** What the world outside answers: who can be named, who can be reached,
    and which statement of the weekly cycle raises. *)
Inductive CycleStep :=
| StTotals | StPerUser | StHerdBuy | StHerdSell | StListSubscribers | StPrune.

Record Env := mkEnv {
  display_name : string -> option string;   (* nickname or user tag *)
  can_fetch_user : string -> bool;          (* client.users.fetch succeeds *)
  raises : CycleStep -> bool
}.

Record PersonBlock := mkPersonBlock {
  pb_rank : nat;
  pb_display : string;
  pb_eggs : Z;
  pb_milk : Z;
  pb_items : Z;
  pb_herd_bought : Z;
  pb_herd_sold : Z;
  pb_herd_net : Q;
  pb_total_revenue : Q
}.

Record SummaryBlock := mkSummaryBlock {
  sb_eggs : Z;
  sb_milk : Z;
  sb_items : Z;
  sb_items_revenue : Q;
  sb_herd_net : Q;
  sb_total_revenue : Q
}.

Inductive Embed := SummaryEmbed (s : SummaryBlock) | PersonEmbed (p : PersonBlock).

(** What leaves the process: a webhook POST of one batch of embeds, or a
    direct message with the summary and the per-person lines. *)
Inductive Delivery :=
| WebhookPost (url : string) (batch : list Embed)
| DirectMessage (sid : string) (summary : SummaryBlock) (lines : list PersonBlock).

Record World := mkWorld { db : Db; outbox : list Delivery }.

Definition getDisplayNameForGuild (env : Env) (uid : option string) : string :=
  match uid with
  | None => "Unknown"
  | Some u =>
      if is_empty u then "Unknown"
      else match display_name env u with
           | Some n => if is_empty n then u else n
           | None => u
           end
  end.

Definition items_revenue (items : Z) : Q := Qred (inject_Z items * PRICE_PER_ITEM).

Definition person_block (env : Env) (rank : nat) (r : UserRow) : PersonBlock :=
  let herdNet := Qred (u_herd_sell_revenue r - u_herd_buy_cost r) in
  let totalItems := u_eggs r + u_milk r in
  mkPersonBlock rank (getDisplayNameForGuild env (u_discord_id r))
    (u_eggs r) (u_milk r) totalItems (u_herd_bought r) (u_herd_sold r)
    herdNet (Qred (items_revenue totalItems + herdNet)).

Fixpoint person_blocks (env : Env) (rank : nat) (rows : list UserRow)
  : list PersonBlock :=
  match rows with
  | [] => []
  | r :: tl => person_block env rank r :: person_blocks env (S rank) tl
  end.

Definition summary_block (eggs milk : Z) (buyCost sellRevenue : Q) : SummaryBlock :=
  let overallItems := eggs + milk in
  let overallHerdNet := Qred (sellRevenue - buyCost) in
  mkSummaryBlock eggs milk overallItems (items_revenue overallItems)
    overallHerdNet (Qred (items_revenue overallItems + overallHerdNet)).

(** [embeds.slice(i, i + 10)] for i = 0, 10, 20, ... *)
Fixpoint batches (fuel : nat) (l : list Embed) : list (list Embed) :=
  match fuel, l with
  | _, [] => []
  | O, _ => []
  | S fuel', _ => take 10 l :: batches fuel' (drop 10 l)
  end.

(** State and exceptions of the cycle body. *)
Inductive Result (A : Type) := Ok (a : A) (w : World) | Throw (w : World).
Arguments Ok {A} a w.
Arguments Throw {A} w.

Definition M (A : Type) := World -> Result A.

Definition ret {A} (a : A) : M A := fun w => Ok a w.
Definition bind {A B} (m : M A) (f : A -> M B) : M B :=
  fun w => match m w with Ok a w' => f a w' | Throw w' => Throw w' end.

Notation "x <- m ;; f" := (bind m (fun x => f))
  (at level 100, m at next level, right associativity).

(** A statement of the cycle that reads the database. *)
Definition query {A} (env : Env) (st : CycleStep) (f : Db -> A) : M A :=
  fun w => if raises env st then Throw w else Ok (f (db w)) w.

Definition send (x : Delivery) : M unit :=
  fun w => Ok tt (mkWorld (db w) (outbox w ++ [x])).

Fixpoint for_each {A} (l : list A) (f : A -> M unit) : M unit :=
  match l with
  | [] => ret tt
  | a :: tl => _ <- f a ;; for_each tl f
  end.

Definition prune (env : Env) (since_ts : Z) : M Z :=
  fun w => if raises env StPrune then Throw w
           else let '(d', changes) := deleteSince since_ts None (db w) in
                Ok changes (mkWorld d' (outbox w)).

(** The body of the [try] block of [performWeeklyReportAndReset]. *)
Definition cycle_body (cfg : Config) (env : Env) (e : Engine) (now : Z) : M unit :=
  let since_ts := sevenDaysAgoTs now in
  totals <- query env StTotals (sumTotalsSince since_ts None None) ;;
  rows <- query env StPerUser (weeklyPerUser e since_ts) ;;
  let userRows := person_blocks env 1 rows in
  buyCost <- query env StHerdBuy (herdTotal herd_buy since_ts) ;;
  sellRevenue <- query env StHerdSell (herdTotal herd_sell since_ts) ;;
  let summary := summary_block (t_eggs totals) (t_milk totals) buyCost sellRevenue in
  let embeds := SummaryEmbed summary :: map PersonEmbed userRows in
  match reportWebhookUrl cfg with
  | Some url =>
      _ <- for_each (batches (length embeds) embeds)
             (fun batch => send (WebhookPost url batch)) ;;
      _ <- prune env since_ts ;;
      ret tt
  | None =>
      subs <- query env StListSubscribers listSubscribers ;;
      match subs with
      | [] => ret tt     (* "Skipping reset." *)
      | _ =>
          _ <- for_each subs (fun sid =>
                 if can_fetch_user env sid
                 then send (DirectMessage sid summary userRows) else ret tt) ;;
          _ <- prune env since_ts ;;
          ret tt
      end
  end.

(** [performWeeklyReportAndReset]: the body, with its [catch], which
    logs the error and returns. *)
Definition world_of {A} (r : Result A) : World :=
  match r with Ok _ w' => w' | Throw w' => w' end.

Definition performWeeklyReportAndReset (cfg : Config) (env : Env) (e : Engine)
    (now : Z) (w : World) : World :=
  world_of (cycle_body cfg env e now w).

(** Two worlds with the same [meta] and [report_subscribers] tables. *)
Definition same_meta (w w' : World) : Prop :=
  meta_report_schedule (db w') = meta_report_schedule (db w)
  /\ meta_last_report_date (db w') = meta_last_report_date (db w)
  /\ report_subscribers (db w') = report_subscribers (db w).

(** *** Scheduler *)

Definition getLastReportDate (d : Db) : option string :=
  match meta_last_report_date d with
  | Some (Some v) => if is_empty v then None else Some v
  | _ => None
  end.

Definition setLastReportDate (val : option string) (d : Db) : Db :=
  mkDb (gathers d) (seq d) (report_subscribers d) (meta_report_schedule d)
       (Some val).

(** [String(n).padStart(2, "0")] *)
Definition pad2 (n : Z) : string :=
  let s := pretty n in
  if (String.length s <? 2)%nat then ("0" ++ s)%string else s.

Definition date_str (nowParts : DateParts) : string :=
  (pretty (dp_year nowParts) ++ "-" ++ pad2 (dp_month nowParts) ++ "-"
   ++ pad2 (dp_day nowParts))%string.

(** One reading of the clock: [Date.now()] and the Toronto date parts. *)
Record Clock := mkClock { now_ms : Z; nowParts : DateParts }.

(** Two readings on the same calendar date. *)
Definition same_date (p q : DateParts) : Prop :=
  dp_year p = dp_year q /\ dp_month p = dp_month q /\ dp_day p = dp_day q.

(** One run of the interval callback of [startScheduler]; the boolean
    tells whether the weekly cycle was triggered. *)
Definition tick (cfg : Config) (env : Env) (e : Engine) (clk : Clock)
    (w : World) : bool * World :=
  let scheduleNow := getScheduleMeta (db w) in
  if isReportTime (nowParts clk) (weekday scheduleNow) (hour scheduleNow)
       (minute scheduleNow)
  then
    let dateStr := date_str (nowParts clk) in
    let last := getLastReportDate (db w) in
    if opt_string_eqb last (Some dateStr) then (false, w)
    else
      let w' := performWeeklyReportAndReset cfg env e (now_ms clk) w in
      (true, mkWorld (setLastReportDate (Some dateStr) (db w')) (outbox w'))
  else (false, w).

(** The tick is at the configured slot. *)
Definition at_slot (clk : Clock) (w : World) : Prop :=
  isReportTime (nowParts clk) (weekday (getScheduleMeta (db w)))
    (hour (getScheduleMeta (db w))) (minute (getScheduleMeta (db w))) = true.

(** Ticks in sequence, with the number of cycles triggered. *)
Fixpoint run_ticks (cfg : Config) (env : Env) (e : Engine) (clks : list Clock)
    (w : World) : nat * World :=
  match clks with
  | [] => (O, w)
  | clk :: tl =>
      let '(fired, w1) := tick cfg env e clk w in
      let '(n, w2) := run_ticks cfg env e tl w1 in
      ((if fired then S n else n), w2)
  end.

(** *** Slash commands *)

Record Interaction := mkInteraction {
  commandName : string;
  opt_since : option string;          (* getString("since") *)
  opt_limit : option Z;               (* getInteger("limit") *)
  opt_weekday : option Z;
  opt_hour : option Z;
  opt_minute : option Z;
  user_id : string;
  has_manage_guild : bool             (* memberPermissions.has(ManageGuild) *)
}.

(** The replies, each standing for the message text of the handler. *)
Inductive Reply :=
| ReplyTotals (range : string) (eggs milk : Z)
    (* "**Totals (All ranches . <range>)** Eggs: .. Milk: .." *)
| ReplyNoData                         (* "No data yet." *)
| ReplyLeaderboard (since_label : string) (blocks : list PersonBlock)
| ReplyPermissionDenied
    (* "You need the **Manage Server** permission to run this command." *)
| ReplyInvalidArguments
    (* "Invalid arguments. Provide weekday, hour, and minute." *)
| ReplyInvalidRange
    (* "Invalid range. weekday 0-6, hour 0-23, minute 0-59." *)
| ReplyScheduleUpdated (weekday hour minute : Z)
| ReplyCurrentSchedule (weekday hour minute : Z)
| ReplyResetDone (deleted : Z)
| ReplySubscribed
| ReplyUnsubscribed
| ReplyReportCompleted
| NoReply.

(** [Math.max(1, Math.min(200, getInteger("limit") || 50))] *)
Definition effective_limit (limit : option Z) : Z :=
  let l := match limit with
           | Some n => if n =? 0 then 50 else n
           | None => 50
           end in
  Z.max 1 (Z.min 200 l).

Definition since_or (since : option string) (dflt : string) : string :=
  match since with
  | Some s => if is_empty s then dflt else s
  | None => dflt
  end.

Definition onTotals (now : Z) (i : Interaction) (d : Db) : Reply :=
  let since := opt_since i in
  let sinceTs := parseSinceToTs now since in
  let totals := sumTotals None sinceTs d in
  let range := match sinceTs with
               | Some ts => if ts =? 0 then "all-time"%string
                            else ("last " ++ since_or since "null")%string
               | None => "all-time"%string
               end in
  ReplyTotals range (t_eggs totals) (t_milk totals).

Definition onLeaderboard (env : Env) (e : Engine) (now : Z) (i : Interaction)
    (d : Db) : Reply :=
  let since := opt_since i in
  let limit := effective_limit (opt_limit i) in
  let sinceTs := parseSinceToTs now since in
  let rows := topUsers e sinceTs None limit d in
  match rows with
  | [] => ReplyNoData
  | _ => ReplyLeaderboard (since_or since "all-time") (person_blocks env 1 rows)
  end.

Definition onSetReportSchedule (i : Interaction) (d : Db) : Reply * Db :=
  if negb (has_manage_guild i) then (ReplyPermissionDenied, d)
  else
    match opt_weekday i, opt_hour i, opt_minute i with
    | Some weekday, Some hour, Some minute =>
        if (weekday <? 0) || (6 <? weekday) || (hour <? 0) || (23 <? hour)
           || (minute <? 0) || (59 <? minute)
        then (ReplyInvalidRange, d)
        else (ReplyScheduleUpdated weekday hour minute,
              setLastReportDate None (setScheduleMeta weekday hour minute d))
    | _, _, _ => (ReplyInvalidArguments, d)
    end.

Definition onResetWeek (now : Z) (i : Interaction) (d : Db) : Reply * Db :=
  if negb (has_manage_guild i) then (ReplyPermissionDenied, d)
  else let '(d', deleted) := deleteSince (sevenDaysAgoTs now) None d in
       (ReplyResetDone deleted, d').

Definition onRunWeeklyReportNow (cfg : Config) (env : Env) (e : Engine) (now : Z)
    (i : Interaction) (w : World) : Reply * World :=
  if negb (has_manage_guild i) then (ReplyPermissionDenied, w)
  else (ReplyReportCompleted, performWeeklyReportAndReset cfg env e now w).

(** The [interactionCreate] listener for the commands above. *)
Definition onInteractionCreate (cfg : Config) (env : Env) (e : Engine) (now : Z)
    (i : Interaction) (w : World) : Reply * World :=
  let name := commandName i in
  if String.eqb name "totals" then (onTotals now i (db w), w)
  else if String.eqb name "leaderboard" then (onLeaderboard env e now i (db w), w)
  else if String.eqb name "reset_week" then
    let '(r, d') := onResetWeek now i (db w) in (r, mkWorld d' (outbox w))
  else if String.eqb name "subscribe_reports" then
    (ReplySubscribed, mkWorld (addSubscriber (user_id i) (db w)) (outbox w))
  else if String.eqb name "unsubscribe_reports" then
    (ReplyUnsubscribed, mkWorld (removeSubscriber (user_id i) (db w)) (outbox w))
  else if String.eqb name "set_report_schedule" then
    let '(r, d') := onSetReportSchedule i (db w) in (r, mkWorld d' (outbox w))
  else if String.eqb name "get_report_schedule" then
    let s := getScheduleMeta (db w) in
    (ReplyCurrentSchedule (weekday s) (hour s) (minute s), w)
  else if String.eqb name "run_weekly_report_now" then
    onRunWeeklyReportNow cfg env e now i w
  else (NoReply, w).

End Bot.

(** ** The fallback rule as the specification words it *)

Module Spec.
Import Js Regex Parse.

(** "discard one equal to an already-extracted ranch id if present" *)
Fixpoint discard_one (r : Z) (nums : list Z) : list Z :=
  match nums with
  | [] => []
  | n :: tl => if n =? r then tl else n :: discard_one r tl
  end.

(** "collect all integers in the text, discard one equal to an
    already-extracted ranch id if present, take the last remaining integer
    as amount; item_type = milk if milk appears, else eggs" *)
Definition spec_fallback (t : chars) : option Item :=
  let nums := map digits_val (match_all re_int t) in
  let remaining := match extractRanchId (str t) with
                   | Some r => discard_one r nums
                   | None => nums
                   end in
  match last remaining with
  | Some amount =>
      Some (mkItem (if test re_has_milk t then milk else eggs) amount (Num 0) None)
  | None => None
  end.

(** What the code does with a ranch id: every integer equal to it goes. *)
Definition discard_all (ranch : option Z) (nums : list Z) : list Z :=
  match ranch with
  | Some r => filter (fun n => negb (n =? r)) nums
  | None => nums
  end.

(** The maximal runs of digits of a text, from left to right; [acc] is
    the run being read, latest digit first. *)
Fixpoint digit_runs_from (acc : chars) (t : chars) : list chars :=
  match t with
  | [] => match acc with [] => [] | _ => [rev acc] end
  | c :: tl =>
      if is_digit c then digit_runs_from (c :: acc) tl
      else match acc with
           | [] => digit_runs_from [] tl
           | _ => rev acc :: digit_runs_from [] tl
           end
  end.

Definition digit_runs (t : chars) : list chars := digit_runs_from [] t.

End Spec.

(** ** Sample inputs *)

Module Examples.
Import Parse Store Bot.

Definition ex_collect : string := "<@12345678901234567> collected 5 eggs".
Definition ex_bought : string := "[PlayerX] bought 5 Bison for $300".
Definition ex_sold : string := "sold 4 Bison for 960.0$".
Definition ex_sold_commas : string := "sold 4 Bison for $1,960.50".
Definition ex_bought_and_eggs : string :=
  "<@12345678901234567> bought 5 Bison for $300 and 3 eggs".
Definition ex_100000 : string := "<@12345678901234567> collected 100000 eggs".
Definition ex_100001 : string := "<@12345678901234567> collected 100001 eggs".
Definition ex_amount_is_ranch : string := "milk: 5 at ranch 5".
Definition ex_ranch_zero : string := "milk: 7 ranch 0".
Definition ex_fallback : string := "eggs delivered at ranch 12: 30".
Definition ex_rounded_ranch : string :=
  "milk: 50 ref 9007199254740993 ranch 9007199254740992".
Definition ex_unknown : string := "[Unknown] collected 5 eggs".
Definition ex_unattributed : string := "[PlayerX] collected 5 eggs".

Definition row_eggs (n ts : Z) (who : string) (amount : Z) : Gather :=
  mkGather n ts "C" ("m" ++ who) (Some who) None eggs amount 0%Q None.

(** B collected 5 eggs first, then A collected 5 eggs. *)
Definition db_tie : Db :=
  mkDb [row_eggs 1 1000 "B" 5; row_eggs 2 2000 "A" 5] 2 [] None None.

(** Monday 2024-03-04 in Toronto, at 09:00, 09:00 again and 09:01. *)
Definition monday_0900 : Clock := mkClock 1709560800000 (mkDateParts 2024 3 4 9 0 1).
Definition monday_0900_again : Clock :=
  mkClock 1709560830000 (mkDateParts 2024 3 4 9 0 1).
Definition monday_0901 : Clock := mkClock 1709560860000 (mkDateParts 2024 3 4 9 1 1).
Definition monday_1530 : Clock := mkClock 1709584200000 (mkDateParts 2024 3 4 15 30 1).

Definition env_ok : Env := mkEnv (fun _ => None) (fun _ => true) (fun _ => false).

(** The prune statement raises. *)
Definition env_prune_raises : Env :=
  mkEnv (fun _ => None) (fun _ => true)
        (fun st => match st with StPrune => true | _ => false end).

Definition cfg_webhook : Config := mkConfig "C" (Some "https://hook"%string) None.

(** One event of the last week, no subscriber, no marker. *)
Definition db_week : Db :=
  mkDb [mkGather 1 1709500000000 "C" "m1" (Some "12345678901234567"%string)
          None eggs 5 0%Q None] 1 [] None None.

Definition set_schedule_1530 : Interaction :=
  mkInteraction "set_report_schedule" None None (Some 1) (Some 15) (Some 30) "U" true.

Definition cfg0 : Config := mkConfig "C" None None.
Definition empty_db : Db := mkDb [] 0 [] None None.
Definition msg (mid text : string) : Message := mkMessage "C" mid text [].

(** The row stored for [ex_collect] read at time [T]. *)
Definition row_collect (n T : Z) (mid : string) : Gather :=
  mkGather n T "C" mid (Some "12345678901234567"%string) None eggs 5 0%Q None.

End Examples.

(** ** Commands that post embeds, and the command table *)

Module Commands.
Import Js Regex Parse Store Bot.

(** *** Utility: send embeds in batches *)

(** What [sendEmbedsInBatches] looks at in its target: whether it has
    [reply] and [followUp], whether it has [send], and the [replied] and
    [deferred] flags of an interaction. *)
Record Target := mkTarget {
  hasReply : bool;
  hasSend : bool;
  replied : bool;
  deferred : bool
}.

Inductive Call :=
| CallReply (batch : list Embed)
| CallFollowUp (batch : list Embed)
| CallSend (batch : list Embed).

Definition call_batch (c : Call) : list Embed :=
  match c with CallReply b | CallFollowUp b | CallSend b => b end.

(** The library sets [replied] once a reply went through. *)
Definition after_reply (succeeded : bool) (t : Target) : Target :=
  if succeeded then mkTarget (hasReply t) (hasSend t) true (deferred t) else t.

(** The loop of [sendEmbedsInBatches] over the batches; [ok n] tells
    whether the [n]-th call goes through (a call that throws is caught and
    logged).  The result lists the calls made. *)
Fixpoint send_batches (ok : nat -> bool) (n : nat) (t : Target)
    (bs : list (list Embed)) : list Call * Target :=
  match bs with
  | [] => ([], t)
  | batch :: tl =>
      if hasReply t then
        if negb (replied t) && negb (deferred t) then
          let '(calls, t') := send_batches ok (S n) (after_reply (ok n) t) tl in
          (CallReply batch :: calls, t')
        else
          let '(calls, t') := send_batches ok (S n) t tl in
          (CallFollowUp batch :: calls, t')
      else if hasSend t then
        let '(calls, t') := send_batches ok (S n) t tl in
        (CallSend batch :: calls, t')
      else send_batches ok (S n) t tl   (* "no valid send target" *)
  end.

Definition sendEmbedsInBatches (ok : nat -> bool) (target : Target)
    (embeds : list Embed) : list Call * Target :=
  send_batches ok 0 target (batches (length embeds) embeds).

(** *** weekly_totals *)

Inductive WeeklyReply :=
| WeeklyNoData                 (* "No data in the last 7 days." *)
| WeeklyPosted (calls : list Call) (per_person : Z).
    (* the batches, then "Posted <per_person> per-person embeds (plus 1
       summary) in this channel." *)

(** The interaction after [deferReply]. *)
Definition deferred_interaction : Target := mkTarget true false false true.

Definition weekly_embeds (env : Env) (e : Engine) (since_ts : Z) (d : Db)
  : list Embed :=
  let rows := weeklyPerUser e since_ts d in
  let overallTotals := sumTotalsSince since_ts None None d in
  let overallHerdBuyCost := herdTotal herd_buy since_ts d in
  let overallHerdSellRevenue := herdTotal herd_sell since_ts d in
  SummaryEmbed (summary_block (t_eggs overallTotals) (t_milk overallTotals)
                  overallHerdBuyCost overallHerdSellRevenue)
  :: map PersonEmbed (person_blocks env 1 rows).

Definition onWeeklyTotals (ok : nat -> bool) (env : Env) (e : Engine) (now : Z)
    (d : Db) : WeeklyReply :=
  let since_ts := sevenDaysAgoTs now in
  match weeklyPerUser e since_ts d with
  | [] => WeeklyNoData
  | _ =>
      let embeds := weekly_embeds env e since_ts d in
      WeeklyPosted (fst (sendEmbedsInBatches ok deferred_interaction embeds))
                   (Z.of_nat (length embeds) - 1)
  end.

(** *** The listener for all commands *)

Inductive Response :=
| Ignored                       (* not a chat input command, or no branch *)
| Replied (r : Reply)
| RepliedWeekly (r : WeeklyReply).

Definition interactionCreate (ok : nat -> bool) (cfg : Config) (env : Env)
    (e : Engine) (now : Z) (isChatInput : bool) (i : Interaction) (w : World)
  : Response * World :=
  if negb isChatInput then (Ignored, w)
  else if String.eqb (commandName i) "weekly_totals"
  then (RepliedWeekly (onWeeklyTotals ok env e now (db w)), w)
  else match onInteractionCreate cfg env e now i w with
       | (NoReply, w') => (Ignored, w')
       | (r, w') => (Replied r, w')
       end.

(** *** deploy-commands.js: the commands registered with the platform *)

Inductive OptionType := StringOption | IntegerOption.

Record CommandOption := mkOption {
  o_name : string;
  o_type : OptionType;
  o_required : bool
}.

Record Command := mkCommand { c_name : string; c_options : list CommandOption }.

Definition commands : list Command :=
  [ mkCommand "totals" [mkOption "since" StringOption false];
    mkCommand "leaderboard" [mkOption "since" StringOption false;
                             mkOption "limit" IntegerOption false];
    mkCommand "weekly_totals" [];
    mkCommand "reset_week" [];
    mkCommand "subscribe_reports" [];
    mkCommand "unsubscribe_reports" [];
    mkCommand "set_report_schedule" [mkOption "weekday" IntegerOption true;
                                     mkOption "hour" IntegerOption true;
                                     mkOption "minute" IntegerOption true];
    mkCommand "get_report_schedule" [];
    mkCommand "run_weekly_report_now" [] ].

End Commands.

(** ** Reference functions and predicates for the properties below *)

Module Reference.
Import Js Regex Parse Store Bot.

(** Every capture group numbered [i] in the pattern [r] has the body
    [body]. *)
Fixpoint groups_are (i : nat) (body : re) (r : re) : Prop :=
  match r with
  | Grp j r' => (j = i -> r' = body) /\ groups_are i body r'
  | Cat a b | Alt a b => groups_are i body a /\ groups_are i body b
  | Star a => groups_are i body a
  | _ => True
  end.

(** A non-empty word of characters of the class [p]. *)
Definition word_of (p : ascii -> bool) (w : chars) : Prop :=
  w <> [] /\ forallb p w = true.

(** The accepted shape of a since filter: digits, optional white space
    and the letter h or d in either case; [n] is the number and [unit_ms] the
    length of the unit in milliseconds. *)
Definition since_format (t : chars) (n unit_ms : Z) : Prop :=
  exists ds sp u,
    t = ds ++ sp ++ [u]
    /\ word_of is_digit ds
    /\ forallb is_space sp = true
    /\ n = digits_val ds
    /\ ((lower u = "h"%char /\ unit_ms = 3600000)
        \/ (lower u = "d"%char /\ unit_ms = 86400000)).

(** The rows a reset keeps: those older than [since_ts]. *)
Definition older_than (since_ts : Z) (rows : list Gather) : list Gather :=
  filter (fun g => g_ts g <? since_ts) rows.

(** The world a tick leaves when it triggers the weekly cycle: the cycle
    has run at the time of the tick, and the marker is the date of the
    tick. *)
Definition cycle_and_mark (cfg : Config) (env : Env) (e : Engine) (clk : Clock)
    (w : World) : World :=
  let w' := performWeeklyReportAndReset cfg env e (now_ms clk) w in
  mkWorld (setLastReportDate (Some (date_str (nowParts clk))) (db w')) (outbox w').

(** A date of the calendar, as [getTorontoDateParts] yields them. *)
Definition calendar_date (p : DateParts) : Prop :=
  0 <= dp_year p /\ 1 <= dp_month p <= 12 /\ 1 <= dp_day p <= 31.

(** What the data model asks of a stored event. *)
Definition well_formed (cfg : Config) (g : Gather) : Prop :=
  g_channel_id g = listenChannelId cfg
  /\ 1 <= g_amount g <= 100000
  /\ is_some (g_discord_id g) = true
  /\ (0 <= g_value g)%Q
  /\ match g_ranch_id g with Some r => 0 <= r | None => True end
  /\ match g_item_type g with
     | eggs | milk => g_value g = 0%Q /\ g_subtype g = None
     | herd_buy | herd_sell =>
         exists animal, g_subtype g = Some (str animal)
                        /\ animal <> []
                        /\ forallb is_lower animal = true
     end.

(** A schedule within the ranges set_report_schedule accepts. *)
Definition valid_slot (s : Schedule) : Prop :=
  0 <= weekday s <= 6 /\ 0 <= hour s <= 23 /\ 0 <= minute s <= 59.

(** The integer column of a report row that sums the amounts of an item
    type. *)
Definition column (ty : item_type) (r : UserRow) : Z :=
  match ty with
  | eggs => u_eggs r
  | milk => u_milk r
  | herd_buy => u_herd_bought r
  | herd_sell => u_herd_sold r
  end.

(** The sum of a column over the rows of a report. *)
Definition total_of (f : UserRow -> Z) (rows : list UserRow) : Z :=
  fold_right (fun r acc => f r + acc) 0 rows.

Import Commands.

(** [interaction.options.get(name)] is present. *)
Definition option_present (i : Interaction) (name : string) : bool :=
  if String.eqb name "since" then is_some (opt_since i)
  else if String.eqb name "limit" then is_some (opt_limit i)
  else if String.eqb name "weekday" then is_some (opt_weekday i)
  else if String.eqb name "hour" then is_some (opt_hour i)
  else if String.eqb name "minute" then is_some (opt_minute i)
  else false.

(** An interaction as the platform delivers it: for a command of the
    registered table, with every option the table marks as required. *)
Definition registered (i : Interaction) : Prop :=
  exists c, In c commands
            /\ c_name c = commandName i
            /\ forall o, In o (c_options c) -> o_required o = true ->
                         option_present i (o_name o) = true.

End Reference.

(** * Facts about the matcher *)

(** Inversion of a match of a sequence, an alternative and a group. *)
Ltac inv_cat H s1 M1 M2 :=
  inversion H as [| |? ? ? s1 ? M1 M2| | | | | | | |]; subst; clear H.
Ltac inv_alt H M :=
  inversion H as [| | |? ? ? ? M|? ? ? ? M| | | | | |]; subst; clear H.
Ltac inv_grp H s1 M :=
  inversion H as [| | | | | | |? ? ? s1 M| | |]; subst; clear H.

Section RegexFacts.
Import Js Regex.

Lemma exec_sound r : forall k s x,
  exec r k s = Some x -> exists s', matches r s s' /\ k s' = Some x.
Proof.
  induction r as [|p|r1 IH1 r2 IH2|r1 IH1 r2 IH2|r IH|i r IH| | |]; intros k s x H;
    cbn [exec] in H.
  - exists s. split; [constructor | exact H].
  - destruct s as [b a g]. simpl in H. destruct a as [|c tl]; [discriminate|].
    destruct (p c) eqn:Hp; [|discriminate].
    eexists. split; [apply M_Cls; exact Hp | exact H].
  - apply IH1 in H as (s1 & M1 & H). apply IH2 in H as (s2 & M2 & H).
    exists s2. split; [econstructor; eassumption | exact H].
  - destruct (exec r1 k s) eqn:E1.
    + inversion H; subst. apply IH1 in E1 as (s1 & M1 & E1).
      exists s1. split; [apply M_AltL; exact M1 | exact E1].
    + apply IH2 in H as (s1 & M1 & E2).
      exists s1. split; [apply M_AltR; exact M1 | exact E2].
  - set (loop := fix loop (fuel : nat) (s : mstate) {struct fuel} : option mstate :=
           match fuel with
           | O => k s
           | S fuel' =>
               match exec r (fun s' =>
                               if (length (after s') <? length (after s))%nat
                               then loop fuel' s' else None) s with
               | Some x => Some x
               | None => k s
               end
           end) in H.
    assert (Hloop : forall fuel s0, loop fuel s0 = Some x ->
                    exists s', matches (Star r) s0 s' /\ k s' = Some x).
    { induction fuel as [|fuel IHf]; intros s0 H0.
      - exists s0. split; [constructor | exact H0].
      - cbn [loop] in H0. fold loop in H0.
        match type of H0 with
        | match ?e with _ => _ end = _ => destruct e eqn:E
        end.
        + inversion H0; subst. apply IH in E as (s1 & M1 & E).
          destruct (length (after s1) <? length (after s0))%nat; [|discriminate].
          apply IHf in E as (s2 & M2 & E).
          exists s2. split; [eapply M_StarS; eassumption | exact E].
        + exists s0. split; [constructor | exact H0]. }
    exact (Hloop (S (length (after s))) s H).
  - apply IH in H as (s1 & M1 & H). eexists. split; [apply M_Grp; exact M1 | exact H].
  - destruct (before s) eqn:E; [|discriminate].
    exists s. split; [apply M_Bol; exact E | exact H].
  - destruct (after s) eqn:E; [|discriminate].
    exists s. split; [apply M_Eol; exact E | exact H].
  - destruct (at_word_boundary s) eqn:E; [|discriminate].
    exists s. split; [apply M_WordB; exact E | exact H].
Qed.

(** A match consumes a prefix of the remaining input. *)
Lemma matches_consumes r s s' :
  matches r s s' ->
  exists w, after s = w ++ after s' /\ before s' = rev w ++ before s.
Proof.
  induction 1 as [s|p c tl b g Hp|r1 r2 s s1 s2 _ IH1 _ IH2|r1 r2 s s1 _ IH
                 |r1 r2 s s1 _ IH|r s|r s s1 s2 _ IH1 _ IH2|i r s s1 _ IH
                 |s _|s _|s _];
    try (exists []; split; reflexivity).
  - exists [c]. split; reflexivity.
  - destruct IH1 as (w1 & A1 & B1), IH2 as (w2 & A2 & B2).
    exists (w1 ++ w2). rewrite A1, A2, B2, B1, rev_app_distr, <- !app_assoc.
    split; reflexivity.
  - exact IH.
  - exact IH.
  - destruct IH1 as (w1 & A1 & B1), IH2 as (w2 & A2 & B2).
    exists (w1 ++ w2). rewrite A1, A2, B2, B1, rev_app_distr, <- !app_assoc.
    split; reflexivity.
  - exact IH.
Qed.

Lemma search_from_sound r : forall rest pre_rev m,
  search_from r pre_rev rest = Some m ->
  exists pre' rest',
    rev pre_rev ++ rest = rev pre' ++ rest' /\ match_here r pre' rest' = Some m.
Proof.
  induction rest as [|c tl IH]; intros pre_rev m H; simpl in H.
  - destruct (match_here r pre_rev []) eqn:E; [|discriminate].
    inversion H; subst. exists pre_rev, []. split; [reflexivity | exact E].
  - destruct (match_here r pre_rev (c :: tl)) eqn:E.
    + inversion H; subst. exists pre_rev, (c :: tl). split; [reflexivity | exact E].
    + apply IH in H as (pre' & rest' & Heq & Hm).
      exists pre', rest'. split; [|exact Hm].
      rewrite <- Heq. simpl. rewrite <- app_assoc. reflexivity.
Qed.

Lemma eqc_eq a b : eqc a b = true -> a = b.
Proof.
  unfold eqc, code. intros H. apply N.eqb_eq in H.
  rewrite <- (ascii_N_embedding a), <- (ascii_N_embedding b), H. reflexivity.
Qed.

Lemma eqc_refl a : eqc a a = true.
Proof. unfold eqc. apply N.eqb_refl. Qed.

Lemma matches_Cls_inv p s s' :
  matches (Cls p) s s' -> exists c, reads p s [c] s'.
Proof.
  inversion 1; subst. exists c. unfold reads. simpl. rewrite H1.
  repeat split; reflexivity.
Qed.

Lemma reads_nil p s : reads p s [] s.
Proof. repeat split; reflexivity. Qed.

Lemma reads_app p s w1 s1 w2 s2 :
  reads p s w1 s1 -> reads p s1 w2 s2 -> reads p s (w1 ++ w2) s2.
Proof.
  intros (F1 & A1 & B1 & G1) (F2 & A2 & B2 & G2). unfold reads.
  rewrite forallb_app, F1, F2, A1, A2, B2, B1, G2, G1, rev_app_distr, <- !app_assoc.
  repeat split; reflexivity.
Qed.

Lemma matches_Exactly_inv p n : forall s s',
  matches (Exactly n (Cls p)) s s' ->
  exists w, length w = n /\ reads p s w s'.
Proof.
  induction n as [|n IH]; intros s s' H; simpl in H.
  - inversion H; subst. exists []. split; [reflexivity | apply reads_nil].
  - inversion H as [| |r1 r2 s0 s1 s2 H1 H2| | | | | | | |]; subst.
    apply matches_Cls_inv in H1 as (c & Hc).
    apply IH in H2 as (w & Hl & Hw).
    exists ([c] ++ w). split; [simpl; rewrite Hl; reflexivity |].
    eapply reads_app; eassumption.
Qed.

Lemma matches_UpTo_inv p n : forall s s',
  matches (UpTo n (Cls p)) s s' ->
  exists w, (length w <= n)%nat /\ reads p s w s'.
Proof.
  induction n as [|n IH]; intros s s' H; simpl in H.
  - inversion H; subst. exists []. split; [simpl; lia | apply reads_nil].
  - unfold Opt in H.
    inversion H as [| | |r1 r2 s0 s1 H1|r1 r2 s0 s1 H1| | | | | |]; subst.
    + inversion H1 as [| |r1 r2 s0 s1 s2 H2 H3| | | | | | | |]; subst.
      apply matches_Cls_inv in H2 as (c & Hc).
      apply IH in H3 as (w & Hl & Hw).
      exists ([c] ++ w). split; [simpl; lia |].
      eapply reads_app; eassumption.
    + inversion H1; subst. exists []. split; [simpl; lia | apply reads_nil].
Qed.

Lemma matches_Rep_inv p lo hi s s' :
  matches (Rep lo hi (Cls p)) s s' ->
  exists w, (lo <= length w <= lo + (hi - lo))%nat /\ reads p s w s'.
Proof.
  unfold Rep. intros H.
  inversion H as [| |r1 r2 s0 s1 s2 H1 H2| | | | | | | |]; subst.
  apply matches_Exactly_inv in H1 as (w1 & L1 & R1).
  apply matches_UpTo_inv in H2 as (w2 & L2 & R2).
  exists (w1 ++ w2). split; [rewrite length_app; lia |].
  eapply reads_app; eassumption.
Qed.

Lemma matches_Star_Cls_inv p s s' :
  matches (Star (Cls p)) s s' -> exists w, reads p s w s'.
Proof.
  intros H. remember (Star (Cls p)) as r eqn:Hr.
  induction H as [| | | | |r s|r s s1 s2 H1 _ H2 IH2| | | |]; try discriminate.
  - exists []. apply reads_nil.
  - inversion Hr; subst. apply matches_Cls_inv in H1 as (c & Hc).
    destruct (IH2 eq_refl) as (w & Hw).
    exists ([c] ++ w). eapply reads_app; eassumption.
Qed.

Lemma matches_Plus_Cls_inv p s s' :
  matches (Plus (Cls p)) s s' ->
  exists w, (1 <= length w)%nat /\ reads p s w s'.
Proof.
  unfold Plus. intros H.
  inversion H as [| |r1 r2 s0 s1 s2 H1 H2| | | | | | | |]; subst.
  apply matches_Cls_inv in H1 as (c & Hc).
  apply matches_Star_Cls_inv in H2 as (w & Hw).
  exists ([c] ++ w). split; [simpl; lia |].
  eapply reads_app; eassumption.
Qed.

Lemma forallb_eqc_singleton c x : forallb (eqc c) [x] = true -> x = c.
Proof.
  simpl. rewrite andb_true_r. intros H. symmetry. apply eqc_eq. exact H.
Qed.

Lemma matches_Chr_inv c s s' :
  matches (Chr c) s s' ->
  after s = c :: after s' /\ before s' = c :: before s /\ groups s' = groups s.
Proof.
  intros H. apply matches_Cls_inv in H as (x & F & A & B & G).
  apply forallb_eqc_singleton in F. subst x. auto.
Qed.

Lemma matches_Lit_inv w : forall s s',
  matches (Lit w) s s' ->
  after s = w ++ after s' /\ before s' = rev w ++ before s /\ groups s' = groups s.
Proof.
  induction w as [|c w IH]; intros s s' H; simpl in H.
  - inversion H; subst. auto.
  - inversion H as [| |r1 r2 s0 s1 s2 H1 H2| | | | | | | |]; subst.
    apply matches_Chr_inv in H1 as (A1 & B1 & G1).
    apply IH in H2 as (A2 & B2 & G2).
    rewrite A1, A2, B2, B1, G2, G1. simpl. rewrite <- app_assoc.
    repeat split; reflexivity.
Qed.

Lemma captured_reads p s w s' : reads p s w s' -> captured s s' = w.
Proof.
  intros (_ & A & _ & _). unfold captured. rewrite A, length_app.
  replace (length w + length (after s') - length (after s'))%nat
    with (length w) by lia.
  apply take_app_length.
Qed.

End RegexFacts.

(** * Facts about the extractors *)

Section ParseFacts.
Import Js Regex Parse.

Lemma cs_str w : cs (str w) = w.
Proof. apply list_ascii_of_string_of_list_ascii. Qed.

Lemma str_cs s : str (cs s) = s.
Proof. apply string_of_list_ascii_of_string. Qed.

Lemma match_here_sound r pre_rev rest m :
  match_here r pre_rev rest = Some m ->
  exists s', matches r (MState pre_rev rest []) s'
             /\ m_groups m = groups s' /\ m_post m = after s'
             /\ m_pre m = rev pre_rev.
Proof.
  unfold match_here. intros H.
  destruct (exec r Some (MState pre_rev rest [])) as [s1|] eqn:E; [|discriminate].
  inversion H; subst; clear H. simpl.
  apply exec_sound in E as (s' & M & E). inversion E; subst.
  exists s1. auto.
Qed.

Lemma search_sound r t m :
  search r t = Some m ->
  exists pre_rev rest s',
    t = rev pre_rev ++ rest
    /\ matches r (MState pre_rev rest []) s'
    /\ m_groups m = groups s' /\ m_post m = after s'.
Proof.
  unfold search. intros H.
  apply search_from_sound in H as (pre' & rest' & Heq & Hm). simpl in Heq.
  apply match_here_sound in Hm as (s' & M & G & P & _).
  exists pre', rest', s'. auto.
Qed.

(** A mention id comes from a mention token in the text. *)
Lemma extractDiscordId_mentions text id :
  extractDiscordId text = Some id -> mentions (cs text) (cs id).
Proof.
  unfold extractDiscordId. destruct (is_empty text); [discriminate|].
  destruct (search re_mention (cs text)) as [m|] eqn:E; [|discriminate].
  intros Hg. apply search_sound in E as (pre_rev & rest & s' & Ht & M & G & _).
  unfold re_mention in M.
  inv_cat M s1 M1 M2. apply (matches_Lit_inv (cs "<@")) in M1 as (A1 & _ & G1).
  inv_cat M2 s2 M3 M4. inv_cat M4 s4 M5 M6. inv_grp M5 s6 M7.
  apply matches_Rep_inv in M7 as (w & Hlen & Hw).
  apply matches_Chr_inv in M6 as (A6 & _ & G6).
  unfold group in Hg. rewrite G, G6 in Hg. simpl in Hg.
  rewrite (captured_reads _ _ _ _ Hw) in Hg. inversion Hg; subst id; clear Hg.
  rewrite cs_str. destruct Hw as (F & A & _ & _). simpl in A6, A1.
  assert (Hbang : exists bang, after s1 = bang ++ after s2
                               /\ (bang = [] \/ bang = cs "!")).
  { unfold Opt in M3. inv_alt M3 M8.
    - apply matches_Chr_inv in M8 as (A8 & _). exists (cs "!"). auto.
    - inversion M8; subst. exists []. auto. }
  destruct Hbang as (bang & Ab & Hb).
  exists (rev pre_rev), bang, (after s'). repeat split.
  - rewrite Ht. f_equal. rewrite A1, Ab, A, A6. reflexivity.
  - exact Hb.
  - lia.
  - lia.
  - exact F.
Qed.

Lemma extractDiscordId_nonempty text id :
  extractDiscordId text = Some id -> is_empty id = false.
Proof.
  intros H. apply extractDiscordId_mentions in H as (_ & _ & _ & _ & _ & [L _] & _).
  destruct id; [simpl in L; lia | reflexivity].
Qed.

End ParseFacts.

(** * The message listener *)

Section ListenerFacts.
Import Js Regex Parse Store Bot.

Lemma parseGather_inv text parsed :
  parseGather text = Some parsed ->
  exists item,
    extractItemAndAmount text = Some item
    /\ 0 < i_amount item <= 100000
    /\ p_discord_id parsed = extractDiscordId text
    /\ p_item_type parsed = i_item_type item
    /\ p_amount parsed = i_amount item.
Proof.
  unfold parseGather. destruct (is_empty text); [discriminate|].
  destruct (extractItemAndAmount text) as [item|]; [|discriminate].
  destruct ((i_amount item =? 0) || (i_amount item <=? 0)) eqn:E1; [discriminate|].
  destruct (100000 <? i_amount item) eqn:E2; [discriminate|].
  intros H. inversion H; subst; clear H. simpl.
  apply orb_false_iff in E1 as [_ E1].
  exists item. repeat split; lia.
Qed.

Lemma or_null_Some v s : or_null v = Some s -> v = Some s /\ is_empty s = false.
Proof.
  unfold or_null. destruct v as [u|]; [|discriminate].
  destruct (is_empty u) eqn:E; [discriminate|].
  intros H. inversion H; subst. auto.
Qed.

Lemma or_null_None_Some s : or_null (Some s) = None -> is_empty s = true.
Proof. unfold or_null. destruct (is_empty s); [reflexivity | discriminate]. Qed.

Lemma insertGather_Some ts ch mid did rid ty amt val sub d d' :
  insertGather ts ch mid did rid ty amt val sub d = Some d' ->
  gathers d' = gathers d
               ++ [mkGather (seq d + 1) ts ch mid did rid ty amt val sub].
Proof.
  unfold insertGather. destruct (existsb _ _); [discriminate|].
  intros H. inversion H; subst. reflexivity.
Qed.

(** The outcomes of the listener, by the stage that decides them. *)
Lemma onMessageCreate_cases cfg now1 now2 message d :
  let r := onMessageCreate cfg now1 now2 message d in
  (fst r <> Logged /\ snd r = d)
  \/ (exists parsed discord_id,
        fst r = Logged
        /\ parseGather (text_used message) = Some parsed
        /\ p_discord_id parsed = Some discord_id
        /\ insertGather now2 (channelId message) (id message) (Some discord_id)
             (p_ranch_id parsed) (p_item_type parsed) (p_amount parsed)
             (p_value parsed) (p_subtype parsed) d = Some (snd r)).
Proof.
  unfold onMessageCreate.
  destruct (negb (channelId message =? listenChannelId cfg)%string);
    [left; split; [discriminate | reflexivity]|].
  destruct (parseGather (text_used message)) as [parsed|] eqn:EP;
    [|left; split; [discriminate | reflexivity]].
  destruct (or_null (p_discord_id parsed)) as [discord_id|] eqn:ED.
  - apply or_null_Some in ED as [ED _].
    destruct (0 <? countRecentDuplicate _ _ _ _ _ _);
      [left; split; [discriminate | reflexivity]|].
    destruct (insertGather _ _ _ _ _ _ _ _ _ _) as [d'|] eqn:EI;
      [|left; split; [discriminate | reflexivity]].
    right. exists parsed, discord_id. simpl. auto.
  - destruct (or_null (p_actor parsed)) as [actor|];
      [destruct (test re_unknown (trim (cs actor)))|];
      left; split; simpl; try discriminate; reflexivity.
Qed.

Lemma is_recent_duplicate_spec ch ty amt did since g :
  is_recent_duplicate ch ty amt did since g = true <->
  g_channel_id g = ch /\ g_item_type g = ty /\ g_amount g = amt
  /\ g_discord_id g = did /\ since <= g_ts g.
Proof.
  unfold is_recent_duplicate. rewrite !andb_true_iff, orb_true_iff, andb_true_iff.
  rewrite String.eqb_eq, Z.eqb_eq, Z.leb_le.
  assert (Hty : item_type_eqb (g_item_type g) ty = true <-> g_item_type g = ty).
  { destruct (g_item_type g), ty; simpl; split; intros; congruence. }
  assert (Hid : (negb (is_some did) = true /\ negb (is_some (g_discord_id g)) = true
                 \/ opt_string_eqb (g_discord_id g) did = true)
                <-> g_discord_id g = did).
  { destruct (g_discord_id g) as [a|], did as [b|]; simpl.
    - rewrite String.eqb_eq. split.
      + intros [[? _]|?]; [discriminate | congruence].
      + intros H. right. congruence.
    - split; [intros [[_ ?]|?]; discriminate | discriminate].
    - split; [intros [[? _]|?]; discriminate | discriminate].
    - split; [reflexivity | auto]. }
  rewrite Hty, Hid. tauto.
Qed.

Lemma countRecentDuplicate_pos ch ty amt did since d :
  0 < countRecentDuplicate ch ty amt did since d <->
  exists g, In g (gathers d)
            /\ g_channel_id g = ch /\ g_item_type g = ty /\ g_amount g = amt
            /\ g_discord_id g = did /\ since <= g_ts g.
Proof.
  unfold countRecentDuplicate. split.
  - intros H.
    destruct (filter _ (gathers d)) as [|g tl] eqn:E; [simpl in H; lia|].
    assert (Hin : g ∈ filter (fun g => is_recent_duplicate ch ty amt did since g)
                         (gathers d)) by (rewrite E; left).
    apply list_elem_of_filter in Hin as [Hp Hin].
    exists g. split; [apply list_elem_of_In; exact Hin |].
    apply is_recent_duplicate_spec. apply Is_true_true. exact Hp.
  - intros (g & Hin & Hg).
    assert (Hf : g ∈ filter (fun g => is_recent_duplicate ch ty amt did since g)
                        (gathers d)).
    { apply list_elem_of_filter. split; [|apply list_elem_of_In; exact Hin].
      apply is_recent_duplicate_spec in Hg. apply Is_true_true. exact Hg. }
    destruct (filter _ (gathers d)); [inversion Hf | simpl; lia].
Qed.

End ListenerFacts.

(** * Claims about the message listener *)

Section ListenerClaims.
Import Js Regex Parse Store Bot Examples.

Lemma parse_ex_collect :
  parseGather ex_collect
  = Some (mkParsed (Some "12345678901234567"%string) None None eggs 5 0%Q None).
Proof. vm_compute. reflexivity. Qed.

Lemma duplicate_decision cfg now1 now2 message d parsed :
  channelId message = listenChannelId cfg ->
  parseGather (text_used message) = Some parsed ->
  is_some (p_discord_id parsed) = true ->
  fst (onMessageCreate cfg now1 now2 message d) = DuplicateSkipped <->
  exists g, In g (gathers d)
            /\ g_channel_id g = channelId message
            /\ g_item_type g = p_item_type parsed
            /\ g_amount g = p_amount parsed
            /\ g_discord_id g = p_discord_id parsed
            /\ now1 - 10000 <= g_ts g.
Proof.
  intros Hch Hp Hid. unfold onMessageCreate.
  rewrite Hch, String.eqb_refl, Hp. simpl negb. cbv iota.
  destruct (p_discord_id parsed) as [did|] eqn:Ed; [|discriminate].
  destruct (parseGather_inv _ _ Hp) as (item & _ & _ & Hd & _).
  rewrite Ed in Hd. symmetry in Hd. apply extractDiscordId_nonempty in Hd.
  unfold or_null. rewrite Hd.
  change (now1 - DUPLICATE_WINDOW_MS) with (now1 - 10000).
  rewrite <- countRecentDuplicate_pos.
  destruct (0 <? countRecentDuplicate _ _ _ _ _ _) eqn:Ec.
  - apply Z.ltb_lt in Ec. simpl. tauto.
  - apply Z.ltb_ge in Ec. split.
    + destruct (insertGather _ _ _ _ _ _ _ _ _ _); simpl; discriminate.
    + intros. lia.
Qed.

Lemma count_single since T :
  countRecentDuplicate "C" eggs 5 (Some "12345678901234567"%string) since
    (mkDb [row_collect 1 T "m1"] 1 [] None None)
  = if since <=? T then 1 else 0.
Proof.
  unfold countRecentDuplicate, is_recent_duplicate. cbn [gathers].
  rewrite filter_cons, filter_nil. cbn -[Z.leb].
  destruct (since <=? T); reflexivity.
Qed.

Lemma duplicate_example (T : Z) :
  let m1 := msg "m1" ex_collect in
  let m2 := msg "m2" ex_collect in
  let d1 := mkDb [row_collect 1 T "m1"] 1 [] None None in
  onMessageCreate cfg0 T T m1 empty_db = (Logged, d1)
  /\ onMessageCreate cfg0 (T + 5000) (T + 5000) m2 d1 = (DuplicateSkipped, d1)
  /\ onMessageCreate cfg0 (T + 11000) (T + 11000) m2 d1
     = (Logged, mkDb [row_collect 1 T "m1"; row_collect 2 (T + 11000) "m2"]
                     2 [] None None).
Proof.
  assert (Htext : forall mid, text_used (msg mid ex_collect) = ex_collect)
    by reflexivity.
  cbv zeta. unfold onMessageCreate. rewrite !Htext, parse_ex_collect.
  change DUPLICATE_WINDOW_MS with 10000.
  cbn [channelId msg cfg0 listenChannelId String.eqb Ascii.eqb Bool.eqb negb
       p_discord_id p_item_type p_amount or_null is_empty].
  rewrite !count_single.
  replace (T + 5000 - 10000 <=? T) with true by (symmetry; apply Z.leb_le; lia).
  replace (T + 11000 - 10000 <=? T) with false by (symmetry; apply Z.leb_gt; lia).
  repeat split.
Qed.

(** C3: an event that reached the duplicate filter is suppressed exactly
    when the ledger holds an event of the same channel, item type, amount
    and actor (both null, or equal) with a timestamp of at least now minus
    10 seconds; a repeat after 5 seconds is suppressed, a repeat after 11
    seconds is appended. *)
Theorem duplicate_suppression :
  (forall ch ty amt did since d,
     0 < countRecentDuplicate ch ty amt did since d <->
     exists g, In g (gathers d)
               /\ g_channel_id g = ch /\ g_item_type g = ty /\ g_amount g = amt
               /\ g_discord_id g = did /\ since <= g_ts g)
  /\ (forall cfg now1 now2 message d parsed,
        channelId message = listenChannelId cfg ->
        parseGather (text_used message) = Some parsed ->
        is_some (p_discord_id parsed) = true ->
        (fst (onMessageCreate cfg now1 now2 message d) = DuplicateSkipped <->
         exists g, In g (gathers d)
                   /\ g_channel_id g = channelId message
                   /\ g_item_type g = p_item_type parsed
                   /\ g_amount g = p_amount parsed
                   /\ g_discord_id g = p_discord_id parsed
                   /\ now1 - 10000 <= g_ts g))
  /\ (forall cfg now1 now2 message d,
        fst (onMessageCreate cfg now1 now2 message d) = DuplicateSkipped ->
        snd (onMessageCreate cfg now1 now2 message d) = d)
  /\ (forall T,
        let m1 := msg "m1" ex_collect in
        let m2 := msg "m2" ex_collect in
        let d1 := mkDb [row_collect 1 T "m1"] 1 [] None None in
        onMessageCreate cfg0 T T m1 empty_db = (Logged, d1)
        /\ onMessageCreate cfg0 (T + 5000) (T + 5000) m2 d1 = (DuplicateSkipped, d1)
        /\ onMessageCreate cfg0 (T + 11000) (T + 11000) m2 d1
           = (Logged, mkDb [row_collect 1 T "m1"; row_collect 2 (T + 11000) "m2"]
                           2 [] None None)).
Proof.
  split; [exact countRecentDuplicate_pos|].
  split; [exact duplicate_decision|].
  split; [|exact duplicate_example].
  intros cfg now1 now2 message d H.
  destruct (onMessageCreate_cases cfg now1 now2 message d)
    as [[_ Hd]|(parsed & did & Hl & _)]; [exact Hd | congruence].
Qed.

Lemma duplicate_suppression_witness :
  fst (onMessageCreate cfg0 5000 5000 (msg "m2" ex_collect)
         (mkDb [row_collect 1 0 "m1"] 1 [] None None)) = DuplicateSkipped <->
  exists g, In g [row_collect 1 0 "m1"]
            /\ g_channel_id g = "C"%string
            /\ g_item_type g = eggs
            /\ g_amount g = 5
            /\ g_discord_id g = Some "12345678901234567"%string
            /\ 5000 - 10000 <= g_ts g.
Proof.
  apply (proj1 (proj2 duplicate_suppression) cfg0 5000 5000 (msg "m2" ex_collect)
           (mkDb [row_collect 1 0 "m1"] 1 [] None None)
           (mkParsed (Some "12345678901234567"%string) None None eggs 5 0%Q None)).
  - reflexivity.
  - vm_compute. reflexivity.
  - reflexivity.
Defined.

Lemma appended_is_mentioned cfg now1 now2 message d :
  gathers (snd (onMessageCreate cfg now1 now2 message d)) <> gathers d ->
  exists id g,
    mentions (cs (text_used message)) (cs id)
    /\ gathers (snd (onMessageCreate cfg now1 now2 message d)) = gathers d ++ [g]
    /\ g_discord_id g = Some id.
Proof.
  intros Hne.
  destruct (onMessageCreate_cases cfg now1 now2 message d)
    as [[_ Hd]|(parsed & did & _ & Hp & Hid & Hins)].
  - rewrite Hd in Hne. contradiction.
  - apply insertGather_Some in Hins.
    destruct (parseGather_inv _ _ Hp) as (_ & _ & _ & He & _).
    rewrite Hid in He. symmetry in He. apply extractDiscordId_mentions in He.
    eexists did, _. split; [exact He|]. split; [exact Hins | reflexivity].
Qed.

Lemma unmentioned_is_dropped cfg now1 now2 message d :
  extractDiscordId (text_used message) = None ->
  snd (onMessageCreate cfg now1 now2 message d) = d.
Proof.
  intros Hn.
  destruct (onMessageCreate_cases cfg now1 now2 message d)
    as [[_ Hd]|(parsed & did & _ & Hp & Hid & _)]; [exact Hd|].
  destruct (parseGather_inv _ _ Hp) as (_ & _ & _ & He & _). congruence.
Qed.

Lemma tokenless_is_dropped cfg now1 now2 message d :
  (forall id, ~ mentions (cs (text_used message)) id) ->
  snd (onMessageCreate cfg now1 now2 message d) = d.
Proof.
  intros Hno. apply unmentioned_is_dropped.
  destruct (extractDiscordId (text_used message)) as [id|] eqn:E; [|reflexivity].
  apply extractDiscordId_mentions in E. destruct (Hno _ E).
Qed.

Lemma attributed_preserved cfg now1 now2 message d :
  Forall (fun g => is_some (g_discord_id g) = true) (gathers d) ->
  Forall (fun g => is_some (g_discord_id g) = true)
         (gathers (snd (onMessageCreate cfg now1 now2 message d))).
Proof.
  intros Hall.
  destruct (onMessageCreate_cases cfg now1 now2 message d)
    as [[_ Hd]|(parsed & did & _ & _ & _ & Hins)].
  - rewrite Hd. exact Hall.
  - apply insertGather_Some in Hins. rewrite Hins.
    apply Forall_app. split; [exact Hall|]. constructor; [reflexivity | constructor].
Qed.

(** C4: the listener appends an event only for a text that holds a
    mention token around a 17 to 20 digit id, which becomes the actor of the
    stored row; a text without a mention id is dropped, also when its name
    prefix reads "unknown"; so a ledger of attributed events stays one. *)
Theorem stored_events_are_attributed :
  (forall cfg now1 now2 message d,
     gathers (snd (onMessageCreate cfg now1 now2 message d)) <> gathers d ->
     exists id g,
       mentions (cs (text_used message)) (cs id)
       /\ gathers (snd (onMessageCreate cfg now1 now2 message d)) = gathers d ++ [g]
       /\ g_discord_id g = Some id)
  /\ (forall cfg now1 now2 message d,
        extractDiscordId (text_used message) = None ->
        snd (onMessageCreate cfg now1 now2 message d) = d)
  /\ (forall cfg now1 now2 message d,
        (forall id, ~ mentions (cs (text_used message)) id) ->
        snd (onMessageCreate cfg now1 now2 message d) = d)
  /\ (forall now1 now2 d,
        onMessageCreate cfg0 now1 now2 (msg "m" ex_unknown) d = (SkipUnknownActor, d)
        /\ onMessageCreate cfg0 now1 now2 (msg "m" ex_unattributed) d
           = (SkipNoMention, d))
  /\ (forall cfg now1 now2 message d,
        Forall (fun g => is_some (g_discord_id g) = true) (gathers d) ->
        Forall (fun g => is_some (g_discord_id g) = true)
               (gathers (snd (onMessageCreate cfg now1 now2 message d)))).
Proof.
  split; [exact appended_is_mentioned|].
  split; [exact unmentioned_is_dropped|].
  split; [exact tokenless_is_dropped|].
  split; [|exact attributed_preserved].
  intros now1 now2 d. split.
  - unfold onMessageCreate.
    change (text_used (msg "m" ex_unknown)) with ex_unknown.
    replace (parseGather ex_unknown)
      with (Some (mkParsed None (Some "Unknown"%string) None eggs 5 0%Q None))
      by (vm_compute; reflexivity).
    reflexivity.
  - unfold onMessageCreate.
    change (text_used (msg "m" ex_unattributed)) with ex_unattributed.
    replace (parseGather ex_unattributed)
      with (Some (mkParsed None (Some "PlayerX"%string) None eggs 5 0%Q None))
      by (vm_compute; reflexivity).
    reflexivity.
Qed.

Lemma stored_events_are_attributed_witness :
  exists id g,
    mentions (cs ex_collect) (cs id)
    /\ gathers (snd (onMessageCreate cfg0 0 0 (msg "m1" ex_collect) empty_db))
       = [] ++ [g]
    /\ g_discord_id g = Some id.
Proof.
  apply (proj1 stored_events_are_attributed cfg0 0 0 (msg "m1" ex_collect) empty_db).
  vm_compute. discriminate.
Defined.

Lemma parseGather_None_iff text :
  parseGather text = None <->
  match extractItemAndAmount text with
  | None => True
  | Some item => i_amount item <= 0 \/ 100000 < i_amount item
  end.
Proof.
  unfold parseGather, extractItemAndAmount.
  destruct (is_empty text); [tauto|].
  fold (extractItemAndAmount text).
  match goal with
  | |- context [match ?e with Some _ => _ | None => _ end] =>
      destruct e as [item|]; [|tauto]
  end.
  destruct (i_amount item =? 0) eqn:E0; simpl.
  - apply Z.eqb_eq in E0. split; [lia | reflexivity].
  - destruct (i_amount item <=? 0) eqn:E1.
    + apply Z.leb_le in E1. split; [lia | reflexivity].
    + destruct (100000 <? i_amount item) eqn:E2.
      * apply Z.ltb_lt in E2. split; [lia | reflexivity].
      * apply Z.leb_gt in E1. apply Z.ltb_ge in E2. split; [discriminate | lia].
Qed.

(** C5: a candidate is rejected when no amount was extracted, when the
    amount is at most 0 and when it exceeds 100000, and is accepted
    otherwise; 100001 is rejected and 100000 is accepted. *)
Theorem amount_bounds :
  (forall text,
     parseGather text = None <->
     match extractItemAndAmount text with
     | None => True
     | Some item => i_amount item <= 0 \/ 100000 < i_amount item
     end)
  /\ extractItemAndAmount ex_100001 = Some (mkItem eggs 100001 (Num 0) None)
  /\ parseGather ex_100001 = None
  /\ parseGather ex_100000
     = Some (mkParsed (Some "12345678901234567"%string) None None eggs 100000
               0%Q None).
Proof.
  split; [exact parseGather_None_iff|].
  repeat split; vm_compute; reflexivity.
Qed.

End ListenerClaims.

(** * The integers of a text *)

Section IntegerFacts.
Import Js Regex Parse Spec.

(** Where the greedy [\d*] stops. *)
Lemma exec_star_digit s :
  exec (Star digit) Some s
  = Some (MState (rev (take_while is_digit (after s)) ++ before s)
                 (drop_while is_digit (after s)) (groups s)).
Proof.
  cbn [exec].
  set (loop := fix loop (fuel : nat) (s : mstate) {struct fuel} : option mstate :=
         match fuel with
         | O => Some s
         | S fuel' =>
             match exec digit (fun s' =>
                                 if (length (after s') <? length (after s))%nat
                                 then loop fuel' s' else None) s with
             | Some x => Some x
             | None => Some s
             end
         end).
  assert (Hloop : forall fuel s0, (length (after s0) <= fuel)%nat ->
            loop fuel s0
            = Some (MState (rev (take_while is_digit (after s0)) ++ before s0)
                           (drop_while is_digit (after s0)) (groups s0))).
  { induction fuel as [|fuel IH]; intros [b a g] Hlen; simpl in Hlen.
    - destruct a; [reflexivity | simpl in Hlen; lia].
    - cbn [loop]. fold loop. unfold digit. cbn [exec after before groups].
      destruct a as [|c tl]; [reflexivity|].
      cbn [take_while drop_while]. destruct (is_digit c); [|reflexivity].
      replace (length tl <? length (c :: tl))%nat with true
        by (symmetry; apply Nat.ltb_lt; simpl; lia).
      rewrite IH by (simpl in *; lia). cbn [after before groups].
      cbn [rev]. rewrite <- app_assoc. reflexivity. }
  exact (Hloop (S (length (after s))) s (Nat.le_succ_diag_r _)).
Qed.

Lemma take_until_drop_while p : forall l,
  take (length l - length (drop_while p l)) l = take_while p l.
Proof.
  induction l as [|c tl IH]; [reflexivity|].
  cbn [take_while drop_while]. destruct (p c).
  - assert (Hle : (length (drop_while p tl) <= length tl)%nat).
    { clear. induction tl as [|x tl IH]; simpl; [lia|].
      destruct (p x); simpl; lia. }
    replace (length (c :: tl) - length (drop_while p tl))%nat
      with (S (length tl - length (drop_while p tl))) by (simpl; lia).
    simpl. rewrite IH. reflexivity.
  - rewrite Nat.sub_diag. reflexivity.
Qed.

Lemma drop_while_length p : forall l, (length (drop_while p l) <= length l)%nat.
Proof.
  induction l as [|x tl IH]; simpl; [lia|]. destruct (p x); simpl; lia.
Qed.

Lemma match_here_int pre_rev rest :
  match_here re_int pre_rev rest
  = match rest with
    | c :: tl =>
        if is_digit c
        then Some (RMatch (rev pre_rev) (c :: take_while is_digit tl) []
                          (drop_while is_digit tl))
        else None
    | [] => None
    end.
Proof.
  unfold match_here, re_int, Plus.
  change (exec (Cat digit (Star digit)) Some (MState pre_rev rest []))
    with (match rest with
          | c :: tl =>
              if is_digit c
              then exec (Star digit) Some (MState (c :: pre_rev) tl [])
              else None
          | [] => None
          end).
  destruct rest as [|c tl]; [reflexivity|].
  destruct (is_digit c) eqn:Hc; [|reflexivity].
  rewrite exec_star_digit. cbn [after before groups].
  f_equal. f_equal.
  pose proof (drop_while_length is_digit tl).
  replace (length (c :: tl) - length (drop_while is_digit tl))%nat
    with (S (length tl - length (drop_while is_digit tl))) by (simpl; lia).
  simpl. rewrite take_until_drop_while. reflexivity.
Qed.

Lemma digit_runs_from_acc : forall t acc,
  acc <> [] \/ (exists c tl, t = c :: tl /\ is_digit c = true) ->
  digit_runs_from acc t
  = (rev acc ++ take_while is_digit t) :: digit_runs (drop_while is_digit t).
Proof.
  unfold digit_runs.
  induction t as [|c tl IH]; intros acc H.
  - destruct H as [H|(c & tl & H & _)]; [|discriminate].
    simpl. destruct acc; [contradiction|]. rewrite app_nil_r. reflexivity.
  - cbn [digit_runs_from take_while drop_while].
    destruct (is_digit c) eqn:Hc.
    + rewrite IH by (left; discriminate). cbn [rev]. rewrite <- app_assoc.
      reflexivity.
    + destruct H as [H|(c' & tl' & H & Hd)]; [|inversion H; subst; congruence].
      destruct acc; [contradiction|]. rewrite app_nil_r.
      cbn [digit_runs_from]. rewrite Hc. reflexivity.
Qed.

(** The leftmost match of [\d+] is the first maximal run of digits. *)
Lemma search_from_int : forall rest pre_rev,
  (search_from re_int pre_rev rest = None /\ digit_runs rest = [])
  \/ (exists m, search_from re_int pre_rev rest = Some m
                /\ m_whole m <> []
                /\ digit_runs rest = m_whole m :: digit_runs (m_post m)
                /\ (length (m_post m) < length rest)%nat).
Proof.
  induction rest as [|c tl IH]; intros pre_rev.
  - left. split; reflexivity.
  - cbn [search_from]. rewrite match_here_int.
    destruct (is_digit c) eqn:Hc.
    + right. eexists. split; [reflexivity|]. cbn [m_whole m_post].
      split; [discriminate|]. split.
      * unfold digit_runs at 1.
        rewrite digit_runs_from_acc by (right; eauto).
        cbn [rev app take_while drop_while]. rewrite Hc. reflexivity.
      * pose proof (drop_while_length is_digit tl). simpl. lia.
    + destruct (IH (c :: pre_rev)) as [[Hn Hr]|(m & Hs & Hw & Hr & Hl)].
      * left. split; [exact Hn|].
        unfold digit_runs in *. cbn [digit_runs_from]. rewrite Hc. exact Hr.
      * right. exists m. split; [exact Hs|]. split; [exact Hw|]. split.
        -- unfold digit_runs at 1. cbn [digit_runs_from]. rewrite Hc. exact Hr.
        -- simpl. lia.
Qed.

Lemma scan_int : forall fuel pre_rev rest,
  (length rest < fuel)%nat ->
  map m_whole (scan fuel re_int pre_rev rest) = digit_runs rest.
Proof.
  induction fuel as [|fuel IH]; intros pre_rev rest Hlen; [lia|].
  cbn [scan].
  destruct (search_from_int rest pre_rev) as [[Hn Hr]|(m & Hs & Hw & Hr & Hl)].
  - rewrite Hn, Hr. reflexivity.
  - rewrite Hs, Hr.
    destruct (m_whole m) as [|x w] eqn:Ew; [contradiction|].
    cbn [map]. rewrite Ew. f_equal. apply IH. lia.
Qed.

(** [t.match(/\d+/g)] lists the maximal runs of digits of [t]. *)
Lemma match_all_int t : match_all re_int t = digit_runs t.
Proof. unfold match_all. apply scan_int. lia. Qed.

End IntegerFacts.

(** * Numbers read from digits *)

Section NumberFacts.
Import Js.

Lemma round53_small z : - 2 ^ 53 < z < 2 ^ 53 -> round53 z = z.
Proof.
  intros H. change (2 ^ 53) with 9007199254740992 in H.
  unfold round53. cbv zeta.
  assert (Hk : Z.log2 (Z.abs z) - 52 <= 0).
  { destruct (Z.eq_dec (Z.abs z) 0) as [E|E]; [rewrite E; simpl; lia|].
    assert (Z.log2 (Z.abs z) < 53); [|lia].
    apply Z.log2_lt_pow2; [lia|].
    change (2 ^ 53) with 9007199254740992. lia. }
  apply Z.leb_le in Hk. rewrite Hk. reflexivity.
Qed.

Lemma round53_opp z : round53 (- z) = - round53 z.
Proof.
  unfold round53. cbv zeta. rewrite Z.abs_opp, Z.sgn_opp.
  destruct (Z.log2 (Z.abs z) - 52 <=? 0); [reflexivity | lia].
Qed.

Lemma round53_large z : 2 ^ 53 <= z -> 2 ^ 53 <= round53 z.
Proof.
  intros H.
  assert (Hz : 0 < z) by (change (2 ^ 53) with 9007199254740992 in H; lia).
  assert (Hl : 53 <= Z.log2 z) by (apply Z.log2_le_pow2; assumption).
  unfold round53. cbv zeta. rewrite (Z.abs_eq z) by lia.
  rewrite (Z.sgn_pos z) by lia.
  set (k := Z.log2 z - 52).
  assert (Hk : 1 <= k) by (unfold k; lia).
  rewrite (proj2 (Z.leb_gt k 0)) by lia.
  assert (Hp : 2 <= 2 ^ k)
    by (change 2 with (2 ^ 1) at 1; apply Z.pow_le_mono_r; lia).
  assert (Hq : 2 ^ 52 <= z / 2 ^ k).
  { apply Z.div_le_lower_bound; [lia|].
    rewrite <- Z.pow_add_r by lia.
    replace (k + 52) with (Z.log2 z) by (unfold k; lia).
    apply Z.log2_spec. exact Hz. }
  set (q := z / 2 ^ k) in *.
  assert (Hq' : q <= (if z mod 2 ^ k <? 2 ^ (k - 1) then q
                      else if 2 ^ (k - 1) <? z mod 2 ^ k then q + 1
                           else if Z.even q then q else q + 1)).
  { destruct (_ <? _); [lia|]. destruct (_ <? _); [lia|].
    destruct (Z.even q); lia. }
  set (q' := if z mod 2 ^ k <? 2 ^ (k - 1) then q else _) in *.
  change (2 ^ 53) with (2 ^ 52 * 2). change (2 ^ 52) with 4503599627370496 in *.
  nia.
Qed.

Lemma INFINITY_large : 2 ^ 53 <= INFINITY.
Proof. unfold INFINITY. apply Z.pow_le_mono_r; lia. Qed.

Lemma to_double_small z : - 2 ^ 53 < z < 2 ^ 53 -> to_double z = z.
Proof.
  intros H. unfold to_double. cbv zeta. rewrite (round53_small z H).
  pose proof INFINITY_large as Hi.
  rewrite (proj2 (Z.leb_gt INFINITY z)) by lia.
  rewrite (proj2 (Z.leb_gt z (- INFINITY))) by lia. reflexivity.
Qed.

Lemma to_double_large z : 2 ^ 53 <= z -> 2 ^ 53 <= to_double z.
Proof.
  intros H. apply round53_large in H. unfold to_double. cbv zeta.
  pose proof INFINITY_large as Hi.
  destruct (INFINITY <=? round53 z); [exact Hi|].
  assert (0 < 2 ^ 53) by reflexivity.
  rewrite (proj2 (Z.leb_gt (round53 z) (- INFINITY))) by lia. exact H.
Qed.

Lemma to_double_opp z : to_double (- z) = - to_double z.
Proof.
  unfold to_double. cbv zeta. rewrite round53_opp.
  pose proof INFINITY_large as Hi. assert (0 < 2 ^ 53) by reflexivity.
  destruct (Z.leb_spec INFINITY (- round53 z)),
           (Z.leb_spec (- round53 z) (- INFINITY)),
           (Z.leb_spec INFINITY (round53 z)),
           (Z.leb_spec (round53 z) (- INFINITY)); lia.
Qed.

Lemma to_double_nonneg z : 0 <= z -> 0 <= to_double z.
Proof.
  intros H. assert (Hp : 0 < 2 ^ 53) by reflexivity.
  destruct (Z.lt_ge_cases z (2 ^ 53)) as [Hs|Hl].
  - rewrite to_double_small by lia. exact H.
  - apply to_double_large in Hl. lia.
Qed.

Lemma to_double_neg z : z < 0 -> to_double z < 0.
Proof.
  intros H. assert (Hp : 0 < 2 ^ 53) by reflexivity.
  destruct (Z.lt_ge_cases (- z) (2 ^ 53)) as [Hs|Hl].
  - rewrite to_double_small by lia. exact H.
  - apply to_double_large in Hl. rewrite to_double_opp in Hl. lia.
Qed.

(** Below 2^53 [Number] reads a run of digits exactly. *)
Lemma Number_int_exact ds :
  - 2 ^ 53 < digits_val ds < 2 ^ 53 -> Number_int ds = digits_val ds.
Proof. apply to_double_small. Qed.

End NumberFacts.

(** * Claims about the extractor *)

Section ExtractorClaims.
Import Js Regex Parse Spec Examples.

Lemma near_item_type m item :
  near_item m = Some item -> i_item_type item = eggs \/ i_item_type item = milk.
Proof.
  unfold near_item. destruct (group 1 m); [|discriminate].
  destruct (group 2 m) as [g2|]; [|discriminate].
  intros H. inversion H; subst; clear H. simpl.
  destruct (eqs _ _); auto.
Qed.

Lemma fallback_item_type t item :
  fallback_item t = Some item -> i_item_type item = eggs \/ i_item_type item = milk.
Proof.
  unfold fallback_item. destruct (negb _ && negb _); [discriminate|].
  destruct (last _); [|discriminate].
  intros H. inversion H; subst; clear H. simpl.
  destruct (test re_has_milk t); auto.
Qed.

Lemma herd_only_without_near text item :
  extractItemAndAmount text = Some item ->
  i_item_type item = herd_buy \/ i_item_type item = herd_sell ->
  search re_near (normalize text) = None
  /\ exists m g3 g4,
       search re_herd (normalize text) = Some m
       /\ group 3 m = Some g3 /\ group 4 m = Some g4
       /\ i_subtype item = Some (str (toLowerCase g3))
       /\ i_value item = Number_decimal (remove_commas g4).
Proof.
  unfold extractItemAndAmount. destruct (is_empty text); [discriminate|].
  destruct (search re_near (normalize text)) as [near|].
  - intros H [T|T]; apply near_item_type in H as [H|H]; congruence.
  - destruct (search re_herd (normalize text)) as [herd|].
    + intros H _. split; [reflexivity|].
      unfold herd_item in H.
      destruct (group 1 herd); [|discriminate].
      destruct (group 2 herd); [|discriminate].
      destruct (group 3 herd) as [g3|] eqn:E3; [|discriminate].
      destruct (group 4 herd) as [g4|] eqn:E4; [|discriminate].
      exists herd, g3, g4.
      destruct (eqs _ _); inversion H; subst; simpl; auto.
    + intros H [T|T]; apply fallback_item_type in H as [H|H]; congruence.
Qed.

(** C6: the primary and herd rules on the sample texts; a herd event
    is produced only when the egg/milk rule found nothing, with the animal
    word in lower case and the price read after its commas are removed. *)
Theorem extractor_rules :
  extractDiscordId ex_collect = Some "12345678901234567"%string
  /\ extractItemAndAmount ex_collect = Some (mkItem eggs 5 (Num 0) None)
  /\ extractItemAndAmount ex_bought
     = Some (mkItem herd_buy 5 (Num 300) (Some "bison"%string))
  /\ extractItemAndAmount ex_sold
     = Some (mkItem herd_sell 4 (Num 960) (Some "bison"%string))
  /\ extractItemAndAmount ex_sold_commas
     = Some (mkItem herd_sell 4 (Num (3921 # 2)) (Some "bison"%string))
  /\ extractItemAndAmount ex_bought_and_eggs = Some (mkItem eggs 3 (Num 0) None)
  /\ (forall text item,
        extractItemAndAmount text = Some item ->
        i_item_type item = herd_buy \/ i_item_type item = herd_sell ->
        search re_near (normalize text) = None
        /\ exists m g3 g4,
             search re_herd (normalize text) = Some m
             /\ group 3 m = Some g3 /\ group 4 m = Some g4
             /\ i_subtype item = Some (str (toLowerCase g3))
             /\ i_value item = Number_decimal (remove_commas g4)).
Proof.
  repeat (split; [vm_compute; reflexivity|]).
  exact herd_only_without_near.
Qed.

Lemma extractor_rules_witness :
  search re_near (normalize ex_bought) = None
  /\ exists m g3 g4,
       search re_herd (normalize ex_bought) = Some m
       /\ group 3 m = Some g3 /\ group 4 m = Some g4
       /\ Some "bison"%string = Some (str (toLowerCase g3))
       /\ Num 300 = Number_decimal (remove_commas g4).
Proof.
  apply (proj2 (proj2 (proj2 (proj2 (proj2 (proj2 extractor_rules)))))
           ex_bought (mkItem herd_buy 5 (Num 300) (Some "bison"%string))).
  - vm_compute. reflexivity.
  - left. reflexivity.
Defined.

(** C7, as amended: when neither the egg/milk rule nor the herd rule
    matches and "egg(s)" or "milk" occurs as a word, the fallback reads the
    maximal runs of digits of the text as numbers, drops every one equal to
    the ranch id (here a ranch id other than 0), and yields the last one left
    as the amount, of type milk if "milk" occurs and eggs otherwise; it yields
    nothing when no number is left.  A run of digits is read the way
    [Number] reads it: exactly when its value is below 2^53, and rounded to
    the nearest double otherwise, so two runs that round to one double are
    equal. *)
Theorem fallback_rule text :
  search re_near (normalize text) = None ->
  search re_herd (normalize text) = None ->
  test re_has_eggs (normalize text) || test re_has_milk (normalize text) = true ->
  extractRanchId (str (normalize text)) <> Some 0 ->
  extractItemAndAmount text =
  match last (discard_all (extractRanchId (str (normalize text)))
                          (map Number_int (digit_runs (normalize text)))) with
  | Some amount =>
      Some (mkItem (if test re_has_milk (normalize text) then milk else eggs)
                   amount (Num 0) None)
  | None => None
  end
  /\ (forall ds, - 2 ^ 53 < digits_val ds < 2 ^ 53 ->
                 Number_int ds = digits_val ds)
  /\ (forall ds, 2 ^ 53 <= digits_val ds -> 2 ^ 53 <= Number_int ds).
Proof.
  intros Hnear Hherd Hword Hranch.
  split; [|split; [exact Number_int_exact | intros ds; apply to_double_large]].
  unfold extractItemAndAmount.
  destruct (is_empty text) eqn:Et.
  { destruct text; [|discriminate]. vm_compute in Hword. discriminate. }
  rewrite Hnear, Hherd. unfold fallback_item. rewrite match_all_int.
  destruct (test re_has_eggs (normalize text)), (test re_has_milk (normalize text));
    try discriminate; simpl negb; cbv iota; simpl andb; cbv iota;
    unfold discard_all;
    destruct (extractRanchId (str (normalize text))) as [r|]; try reflexivity;
    (destruct (r =? 0) eqn:E0;
     [apply Z.eqb_eq in E0; subst r; contradiction | reflexivity]).
Qed.

Lemma fallback_rule_witness :
  extractItemAndAmount ex_fallback = Some (mkItem eggs 30 (Num 0) None).
Proof.
  rewrite (proj1 (fallback_rule ex_fallback
                    ltac:(vm_compute; reflexivity) ltac:(vm_compute; reflexivity)
                    ltac:(vm_compute; reflexivity) ltac:(vm_compute; discriminate))).
  vm_compute. reflexivity.
Defined.

(** Two runs of digits that round to the same double are one number to
    the fallback: here the ranch id is 2^53, the run 9007199254740993 rounds
    to it and is dropped with it, and 50 is the amount. *)
Lemma fallback_compares_numbers :
  extractRanchId ex_rounded_ranch = Some 9007199254740992
  /\ map Number_int (match_all re_int (normalize ex_rounded_ranch))
     = [50; 9007199254740992; 9007199254740992]
  /\ extractItemAndAmount ex_rounded_ranch = Some (mkItem milk 50 (Num 0) None).
Proof. vm_compute. repeat split; reflexivity. Qed.

(** C7 as stated fails: in "milk: 5 at ranch 5" the integers are 5 and 5
    and the ranch id is 5; discarding one of them leaves 5 as the amount,
    but the code discards both and yields no candidate.  In "milk: 7 ranch
    0" the ranch id 0 is not discarded at all and becomes the amount. *)
Lemma fallback_discards_every_ranch_id :
  let t := normalize ex_amount_is_ranch in
  search re_near t = None
  /\ search re_herd t = None
  /\ test re_has_milk t = true
  /\ extractRanchId (str t) = Some 5
  /\ map Number_int (match_all re_int t) = [5; 5]
  /\ spec_fallback t = Some (mkItem milk 5 (Num 0) None)
  /\ extractItemAndAmount ex_amount_is_ranch = None
  /\ extractRanchId ex_ranch_zero = Some 0
  /\ map Number_int (match_all re_int (normalize ex_ranch_zero)) = [7; 0]
  /\ extractItemAndAmount ex_ranch_zero = Some (mkItem milk 0 (Num 0) None).
Proof. vm_compute. repeat split; reflexivity. Qed.

End ExtractorClaims.

(** * The leaderboard *)

Section LeaderboardFacts.
Import Js Regex Parse Store Bot Examples.

Lemma insert_after_perm r l : Permutation (r :: l) (insert_after r l).
Proof.
  induction l as [|a tl IH]; simpl; [reflexivity|].
  destruct (u_total r <=? u_total a); [|reflexivity].
  rewrite <- IH. apply perm_swap.
Qed.

Lemma insert_before_perm r l : Permutation (r :: l) (insert_before r l).
Proof.
  induction l as [|a tl IH]; simpl; [reflexivity|].
  destruct (u_total r <? u_total a); [|reflexivity].
  rewrite <- IH. apply perm_swap.
Qed.

Lemma fold_insert_perm (ins : UserRow -> list UserRow -> list UserRow) :
  (forall r l, Permutation (r :: l) (ins r l)) ->
  forall l acc, Permutation (l ++ acc) (fold_left (fun acc r => ins r acc) l acc).
Proof.
  intros Hins. induction l as [|a tl IH]; intros acc; simpl; [reflexivity|].
  rewrite <- IH, <- Hins. apply Permutation_middle.
Qed.

Lemma descending_cons a l :
  descending (a :: l) = true <->
  (match l with b :: _ => u_total b <= u_total a | [] => True end)
  /\ descending l = true.
Proof.
  destruct l as [|b tl]; simpl; [tauto|].
  rewrite andb_true_iff, Z.leb_le. tauto.
Qed.

Lemma insert_after_descending r l :
  descending l = true -> descending (insert_after r l) = true.
Proof.
  induction l as [|a tl IH]; intros H; [reflexivity|].
  apply descending_cons in H as [Hh Ht]. simpl.
  destruct (u_total r <=? u_total a) eqn:E.
  - apply Z.leb_le in E. apply descending_cons. split; [|apply IH; exact Ht].
    destruct tl as [|b tl']; simpl; [exact E|].
    destruct (u_total r <=? u_total b); [exact Hh | exact E].
  - apply Z.leb_gt in E. apply descending_cons. split; [lia|].
    apply descending_cons. auto.
Qed.

Lemma insert_before_descending r l :
  descending l = true -> descending (insert_before r l) = true.
Proof.
  induction l as [|a tl IH]; intros H; [reflexivity|].
  apply descending_cons in H as [Hh Ht]. simpl.
  destruct (u_total r <? u_total a) eqn:E.
  - apply Z.ltb_lt in E. apply descending_cons. split; [|apply IH; exact Ht].
    destruct tl as [|b tl']; simpl; [lia|].
    destruct (u_total r <? u_total b); [exact Hh | lia].
  - apply Z.ltb_ge in E. apply descending_cons. split; [lia|].
    apply descending_cons. auto.
Qed.

Lemma fold_insert_descending (ins : UserRow -> list UserRow -> list UserRow) :
  (forall r l, descending l = true -> descending (ins r l) = true) ->
  forall l acc, descending acc = true ->
                descending (fold_left (fun acc r => ins r acc) l acc) = true.
Proof.
  intros Hins. induction l as [|a tl IH]; intros acc H; simpl; [exact H|].
  apply IH, Hins, H.
Qed.

Lemma engine_a_conforms : conforms engine_a.
Proof.
  intros l. simpl. split.
  - rewrite <- (fold_insert_perm insert_after insert_after_perm l []).
    rewrite app_nil_r. reflexivity.
  - apply (fold_insert_descending insert_after insert_after_descending).
    reflexivity.
Qed.

Lemma engine_b_conforms : conforms engine_b.
Proof.
  intros l. simpl. split.
  - rewrite <- (fold_insert_perm insert_before insert_before_perm l []).
    rewrite app_nil_r. reflexivity.
  - apply (fold_insert_descending insert_before insert_before_descending).
    reflexivity.
Qed.

Lemma descending_head a l :
  descending (a :: l) = true -> forall x, In x (a :: l) -> u_total x <= u_total a.
Proof.
  revert a. induction l as [|b tl IH]; intros a H x Hin.
  - destruct Hin as [->|[]]. lia.
  - apply descending_cons in H as [Hh Ht].
    destruct Hin as [->|Hin]; [lia|].
    specialize (IH b Ht x Hin). lia.
Qed.

Lemma descending_take n : forall l,
  descending l = true -> descending (take n l) = true.
Proof.
  induction n as [|n IH]; intros l H; [reflexivity|].
  destruct l as [|a tl]; [reflexivity|].
  apply descending_cons in H as [Hh Ht]. simpl.
  apply descending_cons. split; [|apply IH; exact Ht].
  destruct tl as [|b tl']; [destruct n; exact I|].
  destruct n; simpl; [exact I | exact Hh].
Qed.

Lemma group_keys_in rows : forall seen k,
  In k (group_keys seen rows) -> In k (map g_discord_id rows).
Proof.
  induction rows as [|g tl IH]; intros seen k H; simpl in H; [contradiction|].
  destruct (existsb _ seen).
  - right. eapply IH. exact H.
  - destruct H as [<-|H]; [left; reflexivity | right; eapply IH; exact H].
Qed.

Lemma group_by_user_attributed rows :
  Forall (fun g => is_some (g_discord_id g) = true) rows ->
  Forall (fun r => is_some (u_discord_id r) = true) (group_by_user rows).
Proof.
  intros Hall. unfold group_by_user. apply List.Forall_forall. intros r Hin.
  apply in_map_iff in Hin as (k & <- & Hk). simpl.
  apply group_keys_in in Hk. apply in_map_iff in Hk as (g & <- & Hg).
  rewrite List.Forall_forall in Hall. apply Hall. exact Hg.
Qed.

Lemma top_candidates_attributed since ranch d :
  Forall (fun r => is_some (u_discord_id r) = true) (top_candidates since ranch d).
Proof.
  unfold top_candidates. apply group_by_user_attributed.
  apply List.Forall_forall. intros g Hin.
  apply list_elem_of_In, list_elem_of_filter in Hin as [Hp _].
  apply Is_true_true in Hp. rewrite !andb_true_iff in Hp. tauto.
Qed.

Lemma effective_limit_clamped limit :
  limit <> Some 0 ->
  effective_limit limit
  = match limit with Some n => Z.max 1 (Z.min 200 n) | None => 50 end.
Proof.
  unfold effective_limit. destruct limit as [n|]; [|reflexivity].
  intros H. destruct (n =? 0) eqn:E; [|reflexivity].
  apply Z.eqb_eq in E. congruence.
Qed.

Lemma effective_limit_range limit : 1 <= effective_limit limit <= 200.
Proof. unfold effective_limit. lia. Qed.

Lemma topUsers_take e since ranch limit d :
  0 <= limit ->
  topUsers e since ranch limit d
  = take (Z.to_nat limit) (order_by_total_desc e (top_candidates since ranch d)).
Proof.
  intros H. unfold topUsers.
  destruct (limit <? 0) eqn:E; [apply Z.ltb_lt in E; lia | reflexivity].
Qed.

Lemma in_take {A} (x : A) n l : In x (take n l) -> In x l.
Proof.
  intros H. apply list_elem_of_In. apply list_elem_of_In in H.
  eapply subseteq_take. exact H.
Qed.

(** C8, as amended: for a conforming engine, the leaderboard rows all
    carry an actor id, come in descending order of eggs + milk and number at
    most the limit, which is 50 when no limit is supplied and a supplied
    limit other than 0 clamped to 1..200; with limit 1 and some attributed
    event in range there is exactly one row, and no actor has a higher
    total.  The order of rows with equal totals is the engine's. *)
Theorem leaderboard_rows e env now i d :
  conforms e ->
  opt_limit i <> Some 0 ->
  let limit := effective_limit (opt_limit i) in
  let sinceTs := parseSinceToTs now (opt_since i) in
  let rows := topUsers e sinceTs None limit d in
  limit = match opt_limit i with Some n => Z.max 1 (Z.min 200 n) | None => 50 end
  /\ Forall (fun r => is_some (u_discord_id r) = true) rows
  /\ descending rows = true
  /\ Z.of_nat (length rows) <= limit
  /\ (forall r, In r rows -> In r (top_candidates sinceTs None d))
  /\ onLeaderboard env e now i d
     = match rows with
       | [] => ReplyNoData
       | _ => ReplyLeaderboard (since_or (opt_since i) "all-time")
                (person_blocks env 1 rows)
       end
  /\ (opt_limit i = Some 1 ->
      top_candidates sinceTs None d <> [] ->
      exists r, rows = [r]
                /\ In r (top_candidates sinceTs None d)
                /\ forall r', In r' (top_candidates sinceTs None d) ->
                              u_total r' <= u_total r).
Proof.
  intros He Hl limit sinceTs rows.
  pose proof (effective_limit_range (opt_limit i)) as Hr. fold limit in Hr.
  destruct (He (top_candidates sinceTs None d)) as [Hperm Hdesc].
  assert (Hrows : rows = take (Z.to_nat limit)
                           (order_by_total_desc e (top_candidates sinceTs None d))).
  { unfold rows. apply topUsers_take. lia. }
  assert (Hsub : forall r, In r rows -> In r (top_candidates sinceTs None d)).
  { intros r Hin. rewrite Hrows in Hin. apply in_take in Hin.
    eapply Permutation_in; [symmetry; exact Hperm | exact Hin]. }
  split; [apply effective_limit_clamped; exact Hl|].
  split.
  { apply List.Forall_forall. intros r Hin. apply Hsub in Hin.
    pose proof (top_candidates_attributed sinceTs None d) as Hall.
    rewrite List.Forall_forall in Hall. apply Hall. exact Hin. }
  split; [rewrite Hrows; apply descending_take; exact Hdesc|].
  split; [rewrite Hrows, length_take; lia|].
  split; [exact Hsub|].
  split; [reflexivity|].
  intros H1 Hne.
  assert (Hlim : limit = 1) by (unfold limit; rewrite H1; reflexivity).
  rewrite Hlim in Hrows. simpl in Hrows.
  destruct (order_by_total_desc e (top_candidates sinceTs None d)) as [|a tl] eqn:Eo.
  { symmetry in Hperm. apply Permutation_nil in Hperm. contradiction. }
  exists a. simpl in Hrows. split; [exact Hrows|].
  split.
  - eapply Permutation_in; [symmetry; exact Hperm | left; reflexivity].
  - intros r' Hin. apply (descending_head a tl Hdesc).
    eapply Permutation_in; [exact Hperm | exact Hin].
Qed.

Lemma leaderboard_rows_witness :
  let i := mkInteraction "leaderboard" None (Some 1) None None None "U" false in
  let rows := topUsers engine_a None None 1 db_tie in
  1 = Z.max 1 (Z.min 200 1)
  /\ Forall (fun r => is_some (u_discord_id r) = true) rows
  /\ descending rows = true
  /\ Z.of_nat (length rows) <= 1
  /\ (forall r, In r rows -> In r (top_candidates None None db_tie))
  /\ onLeaderboard (mkEnv (fun _ => None) (fun _ => true) (fun _ => false))
       engine_a 0 i db_tie
     = match rows with
       | [] => ReplyNoData
       | _ => ReplyLeaderboard "all-time"
                (person_blocks (mkEnv (fun _ => None) (fun _ => true) (fun _ => false))
                   1 rows)
       end
  /\ (Some 1 = Some 1 ->
      top_candidates None None db_tie <> [] ->
      exists r, rows = [r]
                /\ In r (top_candidates None None db_tie)
                /\ forall r', In r' (top_candidates None None db_tie) ->
                              u_total r' <= u_total r).
Proof.
  apply (leaderboard_rows engine_a
           (mkEnv (fun _ => None) (fun _ => true) (fun _ => false)) 0
           (mkInteraction "leaderboard" None (Some 1) None None None "U" false)
           db_tie engine_a_conforms).
  discriminate.
Defined.

(** C8 as stated fails twice.  The statement names no tie-break: on a
    ledger where B, then A, collected 5 eggs each, a conforming engine
    answers A before B.  And a supplied limit of 0 is not clamped to 1 but
    replaced by 50, so both rows are returned. *)
Lemma leaderboard_ties_and_zero_limit :
  conforms engine_b
  /\ map g_discord_id (gathers db_tie) = [Some "B"; Some "A"]%string
  /\ map u_total (top_candidates None None db_tie) = [5; 5]
  /\ map u_discord_id (topUsers engine_b None None 50 db_tie)
     = [Some "A"; Some "B"]%string
  /\ Z.max 1 (Z.min 200 0) = 1
  /\ effective_limit (Some 0) = 50
  /\ length (topUsers engine_a None None (effective_limit (Some 0)) db_tie) = 2%nat.
Proof.
  split; [exact engine_b_conforms|]. vm_compute. repeat split; reflexivity.
Qed.

End LeaderboardFacts.

(** * The weekly cycle and the scheduler *)

Create HintDb same_meta.

Section CycleFacts.
Import Js Regex Parse Store Bot Reference.

Context (cfg : Config) (env : Env) (e : Engine).

Lemma same_meta_refl w : same_meta w w.
Proof. repeat split. Qed.

Lemma same_meta_trans w1 w2 w3 :
  same_meta w1 w2 -> same_meta w2 w3 -> same_meta w1 w3.
Proof.
  intros (A1 & B1 & C1) (A2 & B2 & C2). unfold same_meta.
  rewrite A2, B2, C2. auto.
Qed.

Lemma bind_same_meta {A B} (m : M A) (f : A -> M B) :
  (forall w, same_meta w (world_of (m w))) ->
  (forall a w, same_meta w (world_of (f a w))) ->
  forall w, same_meta w (world_of (bind m f w)).
Proof.
  intros Hm Hf w. unfold bind. specialize (Hm w).
  destruct (m w) as [a w'|w']; simpl in *; [|exact Hm].
  eapply same_meta_trans; [exact Hm | apply Hf].
Qed.

Lemma query_same_meta {A} st (f : Db -> A) w :
  same_meta w (world_of (query env st f w)).
Proof. unfold query. destruct (raises env st); apply same_meta_refl. Qed.

Lemma send_same_meta x w : same_meta w (world_of (send x w)).
Proof. repeat split. Qed.

Lemma ret_same_meta {A} (a : A) w : same_meta w (world_of (ret a w)).
Proof. repeat split. Qed.

Lemma for_each_same_meta {A} (f : A -> M unit) :
  (forall a w, same_meta w (world_of (f a w))) ->
  forall l w, same_meta w (world_of (for_each l f w)).
Proof.
  intros Hf. induction l as [|a tl IH]; intros w; simpl.
  - apply same_meta_refl.
  - apply bind_same_meta; [apply Hf | intros _; exact IH].
Qed.

Lemma prune_same_meta since w : same_meta w (world_of (prune env since w)).
Proof.
  unfold prune. destruct (raises env StPrune); [apply same_meta_refl|].
  repeat split.
Qed.

Hint Resolve same_meta_refl query_same_meta send_same_meta ret_same_meta
  prune_same_meta : same_meta.

(** Each statement of the cycle keeps [meta] and the subscribers. *)
Ltac step_same_meta :=
  first [ apply bind_same_meta; [solve [auto with same_meta] | intros ?]
        | solve [auto with same_meta] ].

Lemma cycle_body_same_meta now w :
  same_meta w (world_of (cycle_body cfg env e now w)).
Proof.
  unfold cycle_body. do 4 step_same_meta.
  destruct (reportWebhookUrl cfg) as [url|].
  - apply bind_same_meta;
      [apply for_each_same_meta; auto with same_meta | intros _].
    repeat step_same_meta.
  - step_same_meta.
    match goal with |- context [match ?l with [] => _ | _ => _ end] =>
      destruct l as [|s0 subs] end; [auto with same_meta|].
    apply bind_same_meta; [|intros _; repeat step_same_meta].
    apply for_each_same_meta. intros sid w0.
    destruct (can_fetch_user env sid); auto with same_meta.
Qed.

(** With no webhook and no subscriber the cycle changes nothing. *)
Lemma cycle_without_recipients now w :
  reportWebhookUrl cfg = None ->
  listSubscribers (db w) = [] ->
  performWeeklyReportAndReset cfg env e now w = w.
Proof.
  intros Hurl Hsubs. unfold performWeeklyReportAndReset, cycle_body, bind, query.
  destruct (raises env StTotals); [reflexivity|].
  destruct (raises env StPerUser); [reflexivity|].
  destruct (raises env StHerdBuy); [reflexivity|].
  destruct (raises env StHerdSell); [reflexivity|].
  rewrite Hurl.
  destruct (raises env StListSubscribers); [reflexivity|].
  rewrite Hsubs. reflexivity.
Qed.

(** C10: with no report webhook and no subscriber the weekly cycle
    leaves the world as it was: nothing is delivered and no row of the
    ledger is deleted; when no statement raises, the cycle body returns
    normally at that point. *)
Theorem no_recipients_no_prune now w :
  reportWebhookUrl cfg = None ->
  listSubscribers (db w) = [] ->
  performWeeklyReportAndReset cfg env e now w = w
  /\ outbox (performWeeklyReportAndReset cfg env e now w) = outbox w
  /\ gathers (db (performWeeklyReportAndReset cfg env e now w)) = gathers (db w)
  /\ ((forall st, raises env st = false) -> cycle_body cfg env e now w = Ok tt w).
Proof.
  intros Hurl Hsubs.
  rewrite (cycle_without_recipients now w Hurl Hsubs).
  repeat split.
  intros Hno. unfold cycle_body, bind, query. rewrite !Hno, Hurl, Hsubs. reflexivity.
Qed.

(** *** One tick *)

Lemma append_nonempty (a b : string) : is_empty b = false -> is_empty (a ++ b) = false.
Proof. intros H. destruct a; [exact H | reflexivity]. Qed.

Lemma date_str_nonempty p : is_empty (date_str p) = false.
Proof. unfold date_str. apply append_nonempty. reflexivity. Qed.

Lemma same_date_str p q : same_date p q -> date_str p = date_str q.
Proof. intros (Hy & Hm & Hd). unfold date_str. rewrite Hy, Hm, Hd. reflexivity. Qed.

Lemma getLastReportDate_set s d :
  is_empty s = false -> getLastReportDate (setLastReportDate (Some s) d) = Some s.
Proof. intros H. unfold getLastReportDate. simpl. rewrite H. reflexivity. Qed.

Lemma opt_string_eqb_Some a b : opt_string_eqb a (Some b) = true <-> a = Some b.
Proof.
  destruct a as [x|]; simpl.
  - rewrite String.eqb_eq. split; congruence.
  - split; discriminate.
Qed.

Lemma tick_fires clk w :
  at_slot clk w ->
  getLastReportDate (db w) <> Some (date_str (nowParts clk)) ->
  tick cfg env e clk w
  = (true,
     mkWorld (setLastReportDate (Some (date_str (nowParts clk)))
                (db (performWeeklyReportAndReset cfg env e (now_ms clk) w)))
             (outbox (performWeeklyReportAndReset cfg env e (now_ms clk) w))).
Proof.
  unfold at_slot. intros Hslot Hmark. unfold tick. rewrite Hslot.
  destruct (opt_string_eqb _ _) eqn:E; [|reflexivity].
  apply opt_string_eqb_Some in E. contradiction.
Qed.

Lemma tick_marked clk w :
  getLastReportDate (db w) = Some (date_str (nowParts clk)) ->
  tick cfg env e clk w = (false, w).
Proof.
  intros Hmark. unfold tick. destruct (isReportTime _ _ _ _); [|reflexivity].
  rewrite Hmark. simpl. rewrite String.eqb_refl. reflexivity.
Qed.

Lemma tick_cases clk w :
  tick cfg env e clk w = (false, w)
  \/ (fst (tick cfg env e clk w) = true
      /\ getLastReportDate (db (snd (tick cfg env e clk w)))
         = Some (date_str (nowParts clk))).
Proof.
  unfold tick. destruct (isReportTime _ _ _ _); [|left; reflexivity].
  destruct (opt_string_eqb _ _); [left; reflexivity|].
  right. simpl. split; [reflexivity|].
  apply getLastReportDate_set, date_str_nonempty.
Qed.


(** *** Ticks on one date *)

Section OneDate.

Variable today : DateParts.

Lemma run_ticks_marked : forall clks w,
  Forall (fun clk => same_date (nowParts clk) today) clks ->
  getLastReportDate (db w) = Some (date_str today) ->
  run_ticks cfg env e clks w = (O, w).
Proof.
  induction clks as [|clk tl IH]; intros w Hall Hmark; [reflexivity|].
  inversion Hall as [|? ? Hd Htl]; subst. simpl.
  rewrite tick_marked by (rewrite (same_date_str _ _ Hd); exact Hmark).
  rewrite (IH w Htl Hmark). reflexivity.
Qed.



End OneDate.

Lemma onSetReportSchedule_updated i d wd h m :
  fst (onSetReportSchedule i d) = ReplyScheduleUpdated wd h m ->
  snd (onSetReportSchedule i d)
  = setLastReportDate None (setScheduleMeta wd h m d).
Proof.
  unfold onSetReportSchedule. destruct (negb (has_manage_guild i)); [discriminate|].
  destruct (opt_weekday i) as [a|]; [|discriminate].
  destruct (opt_hour i) as [b|]; [|discriminate].
  destruct (opt_minute i) as [c|]; [|discriminate].
  destruct (_ || _); [discriminate|].
  simpl. intros H. inversion H; subst. reflexivity.
Qed.


(** C1, as amended: a tick that triggers the weekly cycle sets the marker
    to today's date whatever the cycle did, for every behaviour of the
    environment: the cycle catches what its statements raise and returns, and
    it never writes the marker itself. *)
Theorem marker_set_after_triggered_cycle clk w :
  at_slot clk w ->
  getLastReportDate (db w) <> Some (date_str (nowParts clk)) ->
  fst (tick cfg env e clk w) = true
  /\ getLastReportDate (db (snd (tick cfg env e clk w)))
     = Some (date_str (nowParts clk))
  /\ gathers (db (snd (tick cfg env e clk w)))
     = gathers (db (performWeeklyReportAndReset cfg env e (now_ms clk) w))
  /\ meta_last_report_date (db (performWeeklyReportAndReset cfg env e (now_ms clk) w))
     = meta_last_report_date (db w).
Proof.
  intros Hslot Hmark. rewrite (tick_fires clk w Hslot Hmark). simpl.
  split; [reflexivity|].
  split; [apply getLastReportDate_set, date_str_nonempty|].
  split; [reflexivity|].
  apply (cycle_body_same_meta (now_ms clk) w).
Qed.

End CycleFacts.

Section CycleExamples.
Import Js Regex Parse Store Bot Examples.

Lemma no_recipients_no_prune_witness :
  let w := mkWorld db_week [] in
  performWeeklyReportAndReset cfg0 env_ok engine_a 1709560800000 w = w
  /\ outbox (performWeeklyReportAndReset cfg0 env_ok engine_a 1709560800000 w) = []
  /\ gathers (db (performWeeklyReportAndReset cfg0 env_ok engine_a 1709560800000 w))
     = gathers db_week
  /\ ((forall st, raises env_ok st = false) ->
      cycle_body cfg0 env_ok engine_a 1709560800000 w = Ok tt w).
Proof.
  apply (no_recipients_no_prune cfg0 env_ok engine_a 1709560800000
           (mkWorld db_week [])); reflexivity.
Defined.


Lemma marker_set_after_triggered_cycle_witness :
  let w := mkWorld db_week [] in
  fst (tick cfg_webhook env_prune_raises engine_a monday_0900 w) = true
  /\ getLastReportDate (db (snd (tick cfg_webhook env_prune_raises engine_a
                                     monday_0900 w)))
     = Some (date_str (nowParts monday_0900))
  /\ gathers (db (snd (tick cfg_webhook env_prune_raises engine_a monday_0900 w)))
     = gathers (db (performWeeklyReportAndReset cfg_webhook env_prune_raises
                      engine_a (now_ms monday_0900) w))
  /\ meta_last_report_date
       (db (performWeeklyReportAndReset cfg_webhook env_prune_raises engine_a
              (now_ms monday_0900) w))
     = meta_last_report_date (db w).
Proof.
  apply (marker_set_after_triggered_cycle cfg_webhook env_prune_raises engine_a
           monday_0900 (mkWorld db_week [])).
  - reflexivity.
  - vm_compute. discriminate.
Defined.

(** The scenario of the specification: the slot triggers once; after
    set_report_schedule moves the slot to 15:30 the cycle is triggered again
    on the same date. *)
Lemma reschedule_same_day :
  let '(n, w1) := run_ticks cfg0 env_ok engine_a
                    [monday_0900; monday_0900_again; monday_0901]
                    (mkWorld db_week []) in
  let d2 := snd (onSetReportSchedule set_schedule_1530 (db w1)) in
  n = 1%nat
  /\ getLastReportDate (db w1) = Some "2024-03-04"%string
  /\ getLastReportDate d2 = None
  /\ fst (tick cfg0 env_ok engine_a monday_1530 (mkWorld d2 (outbox w1))) = true.
Proof. vm_compute. repeat split; reflexivity. Qed.

(** C1 as stated fails.  When the prune statement raises, the cycle body
    ends in that exception with the week's row still in the ledger, and the
    tick sets the marker to today all the same; the next tick does not
    retry.  And with nobody to report to, the cycle returns before the prune
    and the marker is set as well. *)
Lemma marker_advanced_after_failed_cycle :
  let w := mkWorld db_week [] in
  let r := tick cfg_webhook env_prune_raises engine_a monday_0900 w in
  let r' := tick cfg0 env_ok engine_a monday_0900 w in
  (exists w', cycle_body cfg_webhook env_prune_raises engine_a
                (now_ms monday_0900) w = Throw w')
  /\ fst r = true
  /\ gathers (db (snd r)) = gathers db_week
  /\ getLastReportDate (db w) = None
  /\ getLastReportDate (db (snd r)) = Some "2024-03-04"%string
  /\ tick cfg_webhook env_prune_raises engine_a monday_0900_again (snd r)
     = (false, snd r)
  /\ fst r' = true
  /\ gathers (db (snd r')) = gathers db_week
  /\ getLastReportDate (db (snd r')) = Some "2024-03-04"%string.
Proof.
  cbv zeta. split; [eexists; vm_compute; reflexivity|].
  vm_compute. repeat split; reflexivity.
Qed.

End CycleExamples.

(** * Slash command arguments *)

Section CommandClaims.
Import Js Regex Parse Store Bot Examples.

Lemma onTotals_unparsed now i d :
  parseSinceToTs now (opt_since i) = None ->
  onTotals now i d
  = ReplyTotals "all-time" (t_eggs (sumTotals None None d))
      (t_milk (sumTotals None None d)).
Proof. intros H. unfold onTotals. rewrite H. reflexivity. Qed.

Lemma onLeaderboard_unparsed env e now i d :
  parseSinceToTs now (opt_since i) = None ->
  onLeaderboard env e now i d
  = match topUsers e None None (effective_limit (opt_limit i)) d with
    | [] => ReplyNoData
    | rows => ReplyLeaderboard (since_or (opt_since i) "all-time")
                (person_blocks env 1 rows)
    end.
Proof.
  intros H. unfold onLeaderboard. rewrite H.
  destruct (topUsers _ _ _ _ _); reflexivity.
Qed.

Lemma onSetReportSchedule_missing i d :
  has_manage_guild i = true ->
  opt_weekday i = None \/ opt_hour i = None \/ opt_minute i = None ->
  onSetReportSchedule i d = (ReplyInvalidArguments, d).
Proof.
  intros Hp H. unfold onSetReportSchedule. rewrite Hp. simpl.
  destruct (opt_weekday i), (opt_hour i), (opt_minute i); try reflexivity.
  destruct H as [H|[H|H]]; discriminate.
Qed.

Lemma onSetReportSchedule_range i d wd h m :
  has_manage_guild i = true ->
  opt_weekday i = Some wd -> opt_hour i = Some h -> opt_minute i = Some m ->
  ~ (0 <= wd <= 6 /\ 0 <= h <= 23 /\ 0 <= m <= 59) ->
  onSetReportSchedule i d = (ReplyInvalidRange, d).
Proof.
  intros Hp Hw Hh Hm Hr. unfold onSetReportSchedule. rewrite Hp, Hw, Hh, Hm. simpl.
  destruct ((wd <? 0) || (6 <? wd) || (h <? 0) || (23 <? h) || (m <? 0) || (59 <? m))
    eqn:E; [reflexivity|].
  rewrite !orb_false_iff, !Z.ltb_ge in E. lia.
Qed.

(** C9, as amended: set_report_schedule answers a missing argument and an
    argument out of range with a validation message and changes nothing; a
    since filter that does not parse is taken as no filter by totals and
    leaderboard, which answer with the all-time figures. *)
Theorem argument_validation :
  (forall i d,
     has_manage_guild i = true ->
     opt_weekday i = None \/ opt_hour i = None \/ opt_minute i = None ->
     onSetReportSchedule i d = (ReplyInvalidArguments, d))
  /\ (forall i d wd h m,
        has_manage_guild i = true ->
        opt_weekday i = Some wd -> opt_hour i = Some h -> opt_minute i = Some m ->
        ~ (0 <= wd <= 6 /\ 0 <= h <= 23 /\ 0 <= m <= 59) ->
        onSetReportSchedule i d = (ReplyInvalidRange, d))
  /\ (forall now i d,
        parseSinceToTs now (opt_since i) = None ->
        onTotals now i d
        = ReplyTotals "all-time" (t_eggs (sumTotals None None d))
            (t_milk (sumTotals None None d)))
  /\ (forall env e now i d,
        parseSinceToTs now (opt_since i) = None ->
        onLeaderboard env e now i d
        = match topUsers e None None (effective_limit (opt_limit i)) d with
          | [] => ReplyNoData
          | rows => ReplyLeaderboard (since_or (opt_since i) "all-time")
                      (person_blocks env 1 rows)
          end).
Proof.
  split; [exact onSetReportSchedule_missing|].
  split; [exact onSetReportSchedule_range|].
  split; [exact onTotals_unparsed | exact onLeaderboard_unparsed].
Qed.

Lemma argument_validation_witness :
  onSetReportSchedule
    (mkInteraction "set_report_schedule" None None (Some 7) (Some 9) (Some 0) "U" true)
    db_week
  = (ReplyInvalidRange, db_week).
Proof.
  apply (proj1 (proj2 argument_validation)
           (mkInteraction "set_report_schedule" None None (Some 7) (Some 9) (Some 0)
              "U" true) db_week 7 9 0); try reflexivity.
  lia.
Defined.

(** C9 as stated fails: the since filters "abc" and "7 days" do not
    parse, and totals answers with the all-time totals instead of a
    validation message. *)
Lemma malformed_since_is_ignored :
  parseSinceToTs 1709560800000 (Some "abc"%string) = None
  /\ parseSinceToTs 1709560800000 (Some "7 days"%string) = None
  /\ onTotals 1709560800000
       (mkInteraction "totals" (Some "abc"%string) None None None None "U" false)
       db_week
     = ReplyTotals "all-time" 5 0
  /\ onTotals 1709560800000
       (mkInteraction "totals" (Some "7 days"%string) None None None None "U" false)
       db_week
     = ReplyTotals "all-time" 5 0.
Proof. vm_compute. repeat split; reflexivity. Qed.

End CommandClaims.

(** * Reset, subscriptions and the schedule *)

Section AdminFacts.
Import Js Regex Parse Store Bot Commands Reference Examples.

Lemma filter_bool_ext {A} (p q : A -> bool) (l : list A) :
  (forall x, p x = q x) ->
  filter (fun x => p x) l = filter (fun x => q x) l.
Proof.
  intros H. induction l as [|a tl IH]; [reflexivity|].
  rewrite !filter_cons, IH, H. reflexivity.
Qed.

Lemma filter_split_length {A} (p : A -> bool) (l : list A) :
  length l = (length (filter (fun x => p x) l)
              + length (filter (fun x => negb (p x)) l))%nat.
Proof.
  induction l as [|a tl IH]; [reflexivity|].
  rewrite !filter_cons. destruct (p a); simpl; lia.
Qed.

Lemma deleteSince_all since d :
  gathers (fst (deleteSince since None d)) = older_than since (gathers d)
  /\ snd (deleteSince since None d)
     = Z.of_nat (length (filter (fun g => since <=? g_ts g) (gathers d)))
  /\ seq (fst (deleteSince since None d)) = seq d
  /\ report_subscribers (fst (deleteSince since None d)) = report_subscribers d
  /\ meta_report_schedule (fst (deleteSince since None d)) = meta_report_schedule d
  /\ meta_last_report_date (fst (deleteSince since None d)) = meta_last_report_date d.
Proof.
  unfold deleteSince, older_than. cbn [fst snd gathers with_gathers seq
    report_subscribers meta_report_schedule meta_last_report_date].
  assert (Hk : filter (fun g => negb (delete_matches since None g)) (gathers d)
               = filter (fun g => g_ts g <? since) (gathers d)).
  { apply filter_bool_ext. intros g. unfold delete_matches. simpl.
    rewrite andb_true_r. rewrite Z.ltb_antisym. reflexivity. }
  rewrite Hk. repeat split.
  rewrite (filter_split_length (fun g => since <=? g_ts g) (gathers d)).
  rewrite (filter_bool_ext (fun g => negb (since <=? g_ts g)) (fun g => g_ts g <? since))
    by (intros g; rewrite Z.ltb_antisym; reflexivity).
  lia.
Qed.

Lemma onResetWeek_keeps_older now i d :
  has_manage_guild i = true ->
  gathers (snd (onResetWeek now i d)) = older_than (sevenDaysAgoTs now) (gathers d).
Proof.
  intros Hp. unfold onResetWeek. rewrite Hp. simpl negb. cbv iota.
  destruct (deleteSince_all (sevenDaysAgoTs now) d) as (Hg & _).
  destruct (deleteSince (sevenDaysAgoTs now) None d) as [d1 deleted]. exact Hg.
Qed.

Lemma older_than_In since rows g :
  In g (older_than since rows) <-> In g rows /\ g_ts g < since.
Proof.
  unfold older_than. rewrite <- !list_elem_of_In, list_elem_of_filter. split.
  - intros [Hlt Hin]. apply Is_true_true, Z.ltb_lt in Hlt. auto.
  - intros [Hin Hlt]. split; [apply Is_true_true, Z.ltb_lt; exact Hlt | exact Hin].
Qed.

(** X1: reset_week, run with the Manage Server permission, keeps exactly
    the rows older than seven days, in their order, reports the number of
    rows from the last seven days as deleted, and touches nothing else. *)
Theorem reset_week_deletes_last_week now i d :
  has_manage_guild i = true ->
  let d' := snd (onResetWeek now i d) in
  fst (onResetWeek now i d)
  = ReplyResetDone (Z.of_nat (length (filter (fun g => sevenDaysAgoTs now <=? g_ts g)
                                             (gathers d))))
  /\ gathers d' = older_than (sevenDaysAgoTs now) (gathers d)
  /\ (forall g, In g (gathers d') <-> In g (gathers d) /\ g_ts g < now - 604800000)
  /\ report_subscribers d' = report_subscribers d
  /\ meta_report_schedule d' = meta_report_schedule d
  /\ meta_last_report_date d' = meta_last_report_date d.
Proof.
  intros Hp d'. unfold d', onResetWeek. rewrite Hp. simpl negb. cbv iota.
  destruct (deleteSince_all (sevenDaysAgoTs now) d) as (Hg & Hn & _ & Hs & Hm & Hl).
  destruct (deleteSince (sevenDaysAgoTs now) None d) as [d1 deleted]. simpl in *.
  subst deleted. split; [reflexivity|]. split; [exact Hg|].
  split; [|auto].
  intros g. rewrite Hg. unfold older_than.
  rewrite <- !list_elem_of_In, list_elem_of_filter.
  change (now - 604800000) with (sevenDaysAgoTs now).
  split.
  - intros [Hlt Hin]. apply Is_true_true, Z.ltb_lt in Hlt. auto.
  - intros [Hin Hlt]. split; [apply Is_true_true, Z.ltb_lt; exact Hlt | exact Hin].
Qed.

Lemma reset_week_deletes_last_week_witness :
  let i := mkInteraction "reset_week" None None None None None "U" true in
  let d' := snd (onResetWeek 1709560800000 i db_week) in
  fst (onResetWeek 1709560800000 i db_week)
  = ReplyResetDone
      (Z.of_nat (length (filter (fun g => sevenDaysAgoTs 1709560800000 <=? g_ts g)
                                (gathers db_week))))
  /\ gathers d' = older_than (sevenDaysAgoTs 1709560800000) (gathers db_week)
  /\ (forall g, In g (gathers d') <->
                In g (gathers db_week) /\ g_ts g < 1709560800000 - 604800000)
  /\ report_subscribers d' = report_subscribers db_week
  /\ meta_report_schedule d' = meta_report_schedule db_week
  /\ meta_last_report_date d' = meta_last_report_date db_week.
Proof.
  apply (reset_week_deletes_last_week 1709560800000
           (mkInteraction "reset_week" None None None None None "U" true) db_week).
  reflexivity.
Defined.

(** *** Subscriptions *)

Lemma not_eqb_true x u : negb (String.eqb x u) = true <-> x <> u.
Proof.
  rewrite negb_true_iff. split.
  - intros H E. apply String.eqb_eq in E. congruence.
  - intros H. apply String.eqb_neq. exact H.
Qed.

Lemma in_without u (l : list string) x :
  In x (filter (fun y => negb (String.eqb y u)) l) <-> x <> u /\ In x l.
Proof.
  rewrite <- !list_elem_of_In, list_elem_of_filter.
  split; intros [A B]; split; auto.
  - apply not_eqb_true, Is_true_true. exact A.
  - apply Is_true_true, not_eqb_true. exact A.
Qed.

Lemma without_absent u (l : list string) :
  ~ In u l -> filter (fun y => negb (String.eqb y u)) l = l.
Proof.
  induction l as [|a tl IH]; intros H; [reflexivity|].
  rewrite filter_cons.
  destruct (String.eqb a u) eqn:E.
  - apply String.eqb_eq in E. subst a. destruct H. left. reflexivity.
  - simpl. rewrite IH; [reflexivity|]. intros Hin. apply H. right. exact Hin.
Qed.

Lemma without_twice u (l : list string) :
  filter (fun y => negb (String.eqb y u)) (filter (fun y => negb (String.eqb y u)) l)
  = filter (fun y => negb (String.eqb y u)) l.
Proof.
  apply without_absent. intros H. apply in_without in H as [H _]. congruence.
Qed.

(** X2: the subscriber table behaves as a set.  Subscribing adds the user
    once however often it is repeated, unsubscribing removes the user, other
    subscribers and the rest of the database are untouched, and the table
    never holds a user twice. *)
Theorem subscriptions_are_a_set u d :
  NoDup (listSubscribers d) ->
  NoDup (listSubscribers (addSubscriber u d))
  /\ NoDup (listSubscribers (removeSubscriber u d))
  /\ (forall x, In x (listSubscribers (addSubscriber u d))
                <-> x = u \/ In x (listSubscribers d))
  /\ (forall x, In x (listSubscribers (removeSubscriber u d))
                <-> x <> u /\ In x (listSubscribers d))
  /\ addSubscriber u (addSubscriber u d) = addSubscriber u d
  /\ removeSubscriber u (addSubscriber u d) = removeSubscriber u d
  /\ gathers (addSubscriber u d) = gathers d
  /\ gathers (removeSubscriber u d) = gathers d.
Proof.
  intros Hnd. unfold listSubscribers, addSubscriber, removeSubscriber in *.
  cbn [report_subscribers gathers seq meta_report_schedule meta_last_report_date].
  split.
  { apply NoDup_app. split; [|split].
    - apply NoDup_filter. exact Hnd.
    - intros x Hx Hu. apply list_elem_of_In, in_without in Hx as [Hx _].
      apply list_elem_of_In in Hu. destruct Hu as [Hu|[]]. congruence.
    - apply NoDup_singleton. }
  split; [apply NoDup_filter; exact Hnd|].
  split.
  { intros x. rewrite in_app_iff, in_without. simpl.
    destruct (string_dec x u) as [->|Hne]; [tauto|].
    split; [intros [[_ H]|[H|[]]]; [auto | congruence] | intros [H|H]; [congruence | auto]]. }
  split; [intros x; apply in_without|].
  split.
  { f_equal. rewrite filter_app, without_twice. simpl.
    rewrite filter_cons, String.eqb_refl. simpl. rewrite filter_nil, app_nil_r.
    reflexivity. }
  split; [|split; reflexivity].
  f_equal. rewrite filter_app, without_twice.
  rewrite filter_cons, String.eqb_refl. simpl. rewrite filter_nil, app_nil_r.
  reflexivity.
Qed.

Lemma subscriptions_are_a_set_witness :
  let d := addSubscriber "A" (addSubscriber "B" db_week) in
  NoDup (listSubscribers (addSubscriber "A" d))
  /\ NoDup (listSubscribers (removeSubscriber "A" d))
  /\ (forall x, In x (listSubscribers (addSubscriber "A" d))
                <-> x = "A"%string \/ In x (listSubscribers d))
  /\ (forall x, In x (listSubscribers (removeSubscriber "A" d))
                <-> x <> "A"%string /\ In x (listSubscribers d))
  /\ addSubscriber "A" (addSubscriber "A" d) = addSubscriber "A" d
  /\ removeSubscriber "A" (addSubscriber "A" d) = removeSubscriber "A" d
  /\ gathers (addSubscriber "A" d) = gathers d
  /\ gathers (removeSubscriber "A" d) = gathers d.
Proof.
  apply (subscriptions_are_a_set "A" (addSubscriber "A" (addSubscriber "B" db_week))).
  vm_compute. apply NoDup_cons. split; [|apply NoDup_singleton].
  intros H. apply list_elem_of_In in H. destruct H as [H|[]]. discriminate.
Defined.

(** *** The schedule *)

Lemma onSetReportSchedule_accepts i d wd h m :
  fst (onSetReportSchedule i d) = ReplyScheduleUpdated wd h m <->
  has_manage_guild i = true
  /\ opt_weekday i = Some wd /\ opt_hour i = Some h /\ opt_minute i = Some m
  /\ valid_slot (mkSchedule wd h m).
Proof.
  unfold onSetReportSchedule, valid_slot. simpl.
  destruct (has_manage_guild i); simpl;
    [|split; [discriminate | intros [? _]; discriminate]].
  destruct (opt_weekday i) as [a|], (opt_hour i) as [b|], (opt_minute i) as [c|];
    simpl; try (split; [discriminate | intros (_ & ? & ? & ? & _); discriminate]).
  destruct ((a <? 0) || (6 <? a) || (b <? 0) || (23 <? b) || (c <? 0) || (59 <? c))
    eqn:E; simpl.
  - split; [discriminate|]. intros (_ & Ha & Hb & Hc & Hr).
    inversion Ha; inversion Hb; inversion Hc; subst.
    rewrite !orb_true_iff, !Z.ltb_lt in E. lia.
  - rewrite !orb_false_iff, !Z.ltb_ge in E. split.
    + intros H. inversion H; subst. repeat split; lia.
    + intros (_ & Ha & Hb & Hc & _). congruence.
Qed.

Lemma onSetReportSchedule_rejects i d :
  (forall wd h m, fst (onSetReportSchedule i d) <> ReplyScheduleUpdated wd h m) ->
  snd (onSetReportSchedule i d) = d.
Proof.
  unfold onSetReportSchedule. destruct (negb (has_manage_guild i)); [reflexivity|].
  destruct (opt_weekday i) as [a|], (opt_hour i) as [b|], (opt_minute i) as [c|];
    try reflexivity.
  destruct (_ || _); [reflexivity|]. simpl. intros H. destruct (H a b c). reflexivity.
Qed.

(** X3: set_report_schedule stores a schedule exactly when the caller
    has the Manage Server permission and supplies a weekday in 0..6, an hour
    in 0..23 and a minute in 0..59; get_report_schedule then answers with that
    schedule; a rejected call changes nothing; so the stored schedule stays
    within those ranges, and the ledger and the subscribers are untouched. *)
Theorem schedule_round_trip i d :
  valid_slot (getScheduleMeta d) ->
  valid_slot (getScheduleMeta (snd (onSetReportSchedule i d)))
  /\ (forall wd h m,
        fst (onSetReportSchedule i d) = ReplyScheduleUpdated wd h m <->
        has_manage_guild i = true
        /\ opt_weekday i = Some wd /\ opt_hour i = Some h /\ opt_minute i = Some m
        /\ valid_slot (mkSchedule wd h m))
  /\ (forall wd h m,
        fst (onSetReportSchedule i d) = ReplyScheduleUpdated wd h m ->
        getScheduleMeta (snd (onSetReportSchedule i d)) = mkSchedule wd h m
        /\ forall cfg env e now i' out,
             commandName i' = "get_report_schedule"%string ->
             onInteractionCreate cfg env e now i'
               (mkWorld (snd (onSetReportSchedule i d)) out)
             = (ReplyCurrentSchedule wd h m,
                mkWorld (snd (onSetReportSchedule i d)) out))
  /\ ((forall wd h m,
         fst (onSetReportSchedule i d) <> ReplyScheduleUpdated wd h m) ->
      snd (onSetReportSchedule i d) = d)
  /\ gathers (snd (onSetReportSchedule i d)) = gathers d
  /\ report_subscribers (snd (onSetReportSchedule i d)) = report_subscribers d.
Proof.
  intros Hv.
  assert (Hround : forall wd h m,
            fst (onSetReportSchedule i d) = ReplyScheduleUpdated wd h m ->
            getScheduleMeta (snd (onSetReportSchedule i d)) = mkSchedule wd h m).
  { intros wd h m H. rewrite (onSetReportSchedule_updated i d wd h m H). reflexivity. }
  split.
  { unfold onSetReportSchedule in *. destruct (negb (has_manage_guild i)); [exact Hv|].
    destruct (opt_weekday i) as [a|], (opt_hour i) as [b|], (opt_minute i) as [c|];
      try exact Hv.
    destruct ((a <? 0) || (6 <? a) || (b <? 0) || (23 <? b) || (c <? 0) || (59 <? c))
      eqn:E; [exact Hv|].
    rewrite !orb_false_iff, !Z.ltb_ge in E. unfold valid_slot. simpl. lia. }
  split; [intros wd h m; apply onSetReportSchedule_accepts|].
  split.
  { intros wd h m H. split; [apply Hround; exact H|].
    intros cfg env e now i' out Hname. unfold onInteractionCreate.
    rewrite Hname. simpl. rewrite (Hround wd h m H). reflexivity. }
  split; [apply onSetReportSchedule_rejects|].
  unfold onSetReportSchedule. destruct (negb (has_manage_guild i)); [auto|].
  destruct (opt_weekday i), (opt_hour i), (opt_minute i); auto.
  destruct (_ || _); auto.
Qed.

Lemma schedule_round_trip_witness :
  getScheduleMeta (snd (onSetReportSchedule set_schedule_1530 db_week))
  = mkSchedule 1 15 30
  /\ forall cfg env e now i' out,
       commandName i' = "get_report_schedule"%string ->
       onInteractionCreate cfg env e now i'
         (mkWorld (snd (onSetReportSchedule set_schedule_1530 db_week)) out)
       = (ReplyCurrentSchedule 1 15 30,
          mkWorld (snd (onSetReportSchedule set_schedule_1530 db_week)) out).
Proof.
  assert (Hv : valid_slot (getScheduleMeta db_week))
    by (cbv; repeat split; discriminate).
  apply (proj1 (proj2 (proj2 (schedule_round_trip set_schedule_1530 db_week Hv)))).
  reflexivity.
Defined.

(** *** What a command may change *)

Lemma onInteractionCreate_unprivileged cfg env e now i w :
  has_manage_guild i = false ->
  let w' := snd (onInteractionCreate cfg env e now i w) in
  gathers (db w') = gathers (db w)
  /\ meta_report_schedule (db w') = meta_report_schedule (db w)
  /\ meta_last_report_date (db w') = meta_last_report_date (db w)
  /\ outbox w' = outbox w
  /\ (commandName i <> "subscribe_reports"%string ->
      commandName i <> "unsubscribe_reports"%string -> w' = w).
Proof.
  intros Hp. unfold onInteractionCreate, onResetWeek, onSetReportSchedule,
    onRunWeeklyReportNow. rewrite Hp. simpl negb. cbv iota.
  destruct w as [d out].
  repeat match goal with
         | |- context [String.eqb (commandName i) ?s] =>
             let E := fresh "E" in
             destruct (String.eqb (commandName i) s) eqn:E;
             [apply String.eqb_eq in E; simpl; repeat split; auto; congruence|]
         end.
  simpl. repeat split; auto.
Qed.

(** X4: a caller without the Manage Server permission cannot delete
    ledger rows, change the schedule or the marker, or have anything
    delivered, whatever command is sent: only subscribe_reports and
    unsubscribe_reports change the world at all, and only the subscriber
    table; the three privileged commands answer with the permission
    message. *)
Theorem unprivileged_commands_are_harmless ok cfg env e now chat i w :
  has_manage_guild i = false ->
  let r := interactionCreate ok cfg env e now chat i w in
  gathers (db (snd r)) = gathers (db w)
  /\ meta_report_schedule (db (snd r)) = meta_report_schedule (db w)
  /\ meta_last_report_date (db (snd r)) = meta_last_report_date (db w)
  /\ outbox (snd r) = outbox w
  /\ (commandName i <> "subscribe_reports"%string ->
      commandName i <> "unsubscribe_reports"%string -> snd r = w)
  /\ (chat = true ->
      commandName i = "reset_week"%string
      \/ commandName i = "set_report_schedule"%string
      \/ commandName i = "run_weekly_report_now"%string ->
      r = (Replied ReplyPermissionDenied, w)).
Proof.
  intros Hp r. unfold r, interactionCreate.
  destruct chat; simpl negb; cbv iota.
  2:{ simpl. repeat split; auto. discriminate. }
  destruct (String.eqb (commandName i) "weekly_totals") eqn:Ew.
  { apply String.eqb_eq in Ew. simpl. repeat split; auto.
    intros _ [H|[H|H]]; rewrite Ew in H; discriminate. }
  pose proof (onInteractionCreate_unprivileged cfg env e now i w Hp) as H.
  cbv zeta in H. destruct H as (Hg & Hs & Hl & Ho & Hw).
  split; [|split; [|split; [|split; [|split]]]].
  - destruct (onInteractionCreate cfg env e now i w) as [[] w']; exact Hg.
  - destruct (onInteractionCreate cfg env e now i w) as [[] w']; exact Hs.
  - destruct (onInteractionCreate cfg env e now i w) as [[] w']; exact Hl.
  - destruct (onInteractionCreate cfg env e now i w) as [[] w']; exact Ho.
  - intros H1 H2. specialize (Hw H1 H2).
    destruct (onInteractionCreate cfg env e now i w) as [[] w']; exact Hw.
  - intros _ Hname.
    assert (Hr : onInteractionCreate cfg env e now i w = (ReplyPermissionDenied, w)).
    { unfold onInteractionCreate, onResetWeek, onSetReportSchedule,
        onRunWeeklyReportNow. rewrite Hp.
      destruct w as [d out].
      destruct Hname as [H|[H|H]]; rewrite H; reflexivity. }
    rewrite Hr. reflexivity.
Qed.

Lemma unprivileged_commands_are_harmless_witness :
  let i := mkInteraction "reset_week" None None None None None "U" false in
  let w := mkWorld db_week [] in
  let r := interactionCreate (fun _ => true) cfg0 env_ok engine_a 1709560800000
             true i w in
  gathers (db (snd r)) = gathers (db w)
  /\ meta_report_schedule (db (snd r)) = meta_report_schedule (db w)
  /\ meta_last_report_date (db (snd r)) = meta_last_report_date (db w)
  /\ outbox (snd r) = outbox w
  /\ (commandName i <> "subscribe_reports"%string ->
      commandName i <> "unsubscribe_reports"%string -> snd r = w)
  /\ (true = true ->
      commandName i = "reset_week"%string
      \/ commandName i = "set_report_schedule"%string
      \/ commandName i = "run_weekly_report_now"%string ->
      r = (Replied ReplyPermissionDenied, w)).
Proof.
  apply (unprivileged_commands_are_harmless (fun _ => true) cfg0 env_ok engine_a
           1709560800000 true
           (mkInteraction "reset_week" None None None None None "U" false)
           (mkWorld db_week [])).
  reflexivity.
Defined.

End AdminFacts.

(** * Deliveries *)

Section DeliveryFacts.
Import Js Regex Parse Store Bot Commands Reference Examples.

Lemma batches_concat : forall fuel (l : list Embed),
  (length l <= fuel)%nat -> concat (batches fuel l) = l.
Proof.
  induction fuel as [|fuel IH]; intros l Hlen.
  - destruct l; [reflexivity | simpl in Hlen; lia].
  - destruct l as [|a tl]; [reflexivity|].
    cbn [batches concat]. rewrite IH.
    + apply take_drop.
    + rewrite length_drop. simpl in *. lia.
Qed.

Lemma batches_sizes : forall fuel (l : list Embed),
  Forall (fun b => (1 <= length b <= 10)%nat) (batches fuel l).
Proof.
  induction fuel as [|fuel IH]; intros l.
  - destruct l; constructor.
  - destruct l as [|a tl]; [constructor|].
    cbn [batches]. constructor; [|apply IH].
    rewrite length_take. change (length (a :: tl)) with (S (length tl)). lia.
Qed.

Lemma batches_full : forall fuel (l : list Embed) pre b post,
  batches fuel l = pre ++ b :: post -> post <> [] -> length b = 10%nat.
Proof.
  induction fuel as [|fuel IH]; intros l pre b post H Hpost.
  - destruct l, pre; discriminate.
  - destruct l as [|a tl]; [destruct pre; discriminate|].
    cbn [batches] in H. destruct pre as [|p pre]; simpl in H.
    + inversion H as [[Hb Hrest]]. simpl. rewrite length_take.
      destruct (drop 9 tl) as [|x rest] eqn:Ed.
      { destruct fuel; simpl in Hrest; congruence. }
      assert (Hl : (length (drop 9 tl) >= 1)%nat) by (rewrite Ed; simpl; lia).
      rewrite length_drop in Hl. lia.
    + inversion H as [[Hp Hrest]]. eapply IH; eassumption.
Qed.

Lemma send_batches_calls ok : forall bs n t,
  map call_batch (fst (send_batches ok n t bs))
  = if hasReply t || hasSend t then bs else [].
Proof.
  induction bs as [|b tl IH]; intros n t.
  - simpl. destruct (hasReply t || hasSend t); reflexivity.
  - cbn [send_batches]. destruct (hasReply t) eqn:Hr.
    + destruct (negb (replied t) && negb (deferred t)).
      * specialize (IH (S n) (after_reply (ok n) t)).
        assert (Hh : hasReply (after_reply (ok n) t) = true)
          by (unfold after_reply; destruct (ok n); simpl; exact Hr).
        rewrite Hh in IH. simpl in IH.
        destruct (send_batches ok (S n) (after_reply (ok n) t) tl) as [calls t'].
        simpl in *. rewrite IH. reflexivity.
      * specialize (IH (S n) t). rewrite Hr in IH. simpl in IH.
        destruct (send_batches ok (S n) t tl) as [calls t'].
        simpl in *. rewrite IH. reflexivity.
    + destruct (hasSend t) eqn:Hs.
      * specialize (IH (S n) t). rewrite Hr, Hs in IH. simpl in IH.
        destruct (send_batches ok (S n) t tl) as [calls t'].
        simpl in *. rewrite IH. reflexivity.
      * specialize (IH (S n) t). rewrite Hr, Hs in IH. exact IH.
Qed.

Lemma send_batches_deferred ok : forall bs n t,
  hasReply t = true -> deferred t = true ->
  fst (send_batches ok n t bs) = map CallFollowUp bs.
Proof.
  induction bs as [|b tl IH]; intros n t Hr Hd; [reflexivity|].
  cbn [send_batches]. rewrite Hr, Hd, andb_false_r.
  specialize (IH (S n) t Hr Hd).
  destruct (send_batches ok (S n) t tl) as [calls t']. simpl in *.
  rewrite IH. reflexivity.
Qed.

(** X5: [sendEmbedsInBatches] hands every embed to the target exactly
    once and in order, in calls of at most ten embeds of which all but the
    last carry ten, whether or not earlier calls went through; after
    [deferReply] every call is a follow-up; a target with neither
    [reply]/[followUp] nor [send] receives nothing. *)
Theorem embeds_are_sent_in_batches_of_ten ok t embeds :
  let calls := fst (sendEmbedsInBatches ok t embeds) in
  (hasReply t || hasSend t = true ->
   concat (map call_batch calls) = embeds
   /\ Forall (fun b => (1 <= length b <= 10)%nat) (map call_batch calls)
   /\ (forall pre b post,
         map call_batch calls = pre ++ b :: post -> post <> [] ->
         length b = 10%nat))
  /\ (hasReply t = true -> deferred t = true ->
      calls = map CallFollowUp (batches (length embeds) embeds))
  /\ (hasReply t = false -> hasSend t = false -> calls = []).
Proof.
  cbv zeta. unfold sendEmbedsInBatches.
  pose proof (send_batches_calls ok (batches (length embeds) embeds) 0 t) as Hc.
  split; [|split].
  - intros H. rewrite H in Hc. rewrite Hc.
    split; [apply batches_concat; lia|].
    split; [apply batches_sizes|].
    intros pre b post. apply batches_full.
  - apply send_batches_deferred.
  - intros Hr Hs. rewrite Hr, Hs in Hc. simpl in Hc.
    destruct (fst (send_batches ok 0 t (batches (length embeds) embeds)));
      [reflexivity | discriminate].
Qed.

Lemma embeds_are_sent_in_batches_of_ten_witness :
  let embeds := weekly_embeds env_ok engine_a 0 db_week in
  let calls := fst (sendEmbedsInBatches (fun _ => false) deferred_interaction embeds) in
  concat (map call_batch calls) = embeds
  /\ Forall (fun b => (1 <= length b <= 10)%nat) (map call_batch calls)
  /\ (forall pre b post,
        map call_batch calls = pre ++ b :: post -> post <> [] ->
        length b = 10%nat).
Proof.
  apply (proj1 (embeds_are_sent_in_batches_of_ten (fun _ => false)
                  deferred_interaction (weekly_embeds env_ok engine_a 0 db_week))).
  reflexivity.
Defined.

(** *** The weekly cycle *)

Lemma for_each_appends {A} (f : A -> M unit) :
  (forall a w, exists sent, f a w = Ok tt (mkWorld (db w) (outbox w ++ sent))) ->
  forall l w, exists sent, for_each l f w = Ok tt (mkWorld (db w) (outbox w ++ sent)).
Proof.
  intros Hf. induction l as [|a tl IH]; intros w.
  - exists []. simpl. unfold ret. rewrite app_nil_r. destruct w; reflexivity.
  - simpl. unfold bind. destruct (Hf a w) as (s1 & H1). rewrite H1.
    destruct (IH (mkWorld (db w) (outbox w ++ s1))) as (s2 & H2). rewrite H2.
    exists (s1 ++ s2). simpl. rewrite app_assoc. reflexivity.
Qed.

Lemma for_each_send {A} (f : A -> Delivery) : forall l w,
  for_each l (fun a => send (f a)) w = Ok tt (mkWorld (db w) (outbox w ++ map f l)).
Proof.
  induction l as [|a tl IH]; intros w.
  - simpl. unfold ret. rewrite app_nil_r. destruct w; reflexivity.
  - simpl. unfold bind, send at 1. rewrite IH. simpl. rewrite <- app_assoc.
    reflexivity.
Qed.

Lemma for_each_send_if {A} (p : A -> bool) (f : A -> Delivery) : forall l w,
  for_each l (fun a => if p a then send (f a) else ret tt) w
  = Ok tt (mkWorld (db w) (outbox w ++ map f (filter (fun a => p a) l))).
Proof.
  induction l as [|a tl IH]; intros w.
  - simpl. unfold ret. rewrite app_nil_r. destruct w; reflexivity.
  - simpl. unfold bind. rewrite filter_cons. destruct (p a); simpl.
    + unfold send at 1. rewrite IH. simpl. rewrite <- app_assoc. reflexivity.
    + unfold ret at 1. rewrite IH. reflexivity.
Qed.

Lemma prune_quiet env since w :
  raises env StPrune = false ->
  prune env since w
  = Ok (snd (deleteSince since None (db w)))
       (mkWorld (fst (deleteSince since None (db w))) (outbox w)).
Proof.
  intros H. unfold prune. rewrite H.
  destruct (deleteSince since None (db w)). reflexivity.
Qed.

(** X6: with a report webhook configured and no statement raising, the
    weekly cycle posts the summary embed followed by one embed per actor, in
    batches of at most ten, and then keeps exactly the ledger rows older than
    seven days; the schedule, the marker and the subscribers stay as they
    were. *)
Theorem weekly_cycle_with_webhook cfg env e now w url :
  reportWebhookUrl cfg = Some url ->
  (forall st, raises env st = false) ->
  let since_ts := sevenDaysAgoTs now in
  let embeds := weekly_embeds env e since_ts (db w) in
  let w' := performWeeklyReportAndReset cfg env e now w in
  outbox w' = outbox w ++ map (WebhookPost url) (batches (length embeds) embeds)
  /\ concat (batches (length embeds) embeds) = embeds
  /\ length embeds = S (length (weeklyPerUser e since_ts (db w)))
  /\ gathers (db w') = older_than since_ts (gathers (db w))
  /\ same_meta w w'.
Proof.
  intros Hurl Hq since_ts embeds w'.
  assert (Hw : w' = mkWorld (fst (deleteSince since_ts None (db w)))
                            (outbox w ++ map (WebhookPost url)
                                           (batches (length embeds) embeds))).
  { unfold w', performWeeklyReportAndReset, cycle_body, bind, query.
    rewrite !Hq, Hurl. fold since_ts.
    change (SummaryEmbed _ :: map PersonEmbed _) with embeds.
    rewrite for_each_send. rewrite prune_quiet by apply Hq. reflexivity. }
  split; [rewrite Hw; reflexivity|].
  split; [apply batches_concat; lia|].
  split.
  { unfold embeds, weekly_embeds. simpl. rewrite length_map. f_equal.
    generalize 1%nat. induction (weeklyPerUser e since_ts (db w)); intros n;
      simpl; [reflexivity | f_equal; apply IHl]. }
  split.
  { rewrite Hw. simpl. apply deleteSince_all. }
  apply (cycle_body_same_meta cfg env e now w).
Qed.

Lemma weekly_cycle_with_webhook_witness :
  let w := mkWorld db_week [] in
  let since_ts := sevenDaysAgoTs 1709560800000 in
  let embeds := weekly_embeds env_ok engine_a since_ts (db w) in
  let w' := performWeeklyReportAndReset cfg_webhook env_ok engine_a 1709560800000 w in
  outbox w' = outbox w ++ map (WebhookPost "https://hook")
                            (batches (length embeds) embeds)
  /\ concat (batches (length embeds) embeds) = embeds
  /\ length embeds = S (length (weeklyPerUser engine_a since_ts (db w)))
  /\ gathers (db w') = older_than since_ts (gathers (db w))
  /\ same_meta w w'.
Proof.
  apply (weekly_cycle_with_webhook cfg_webhook env_ok engine_a 1709560800000
           (mkWorld db_week []) "https://hook"); reflexivity.
Defined.

(** X7: with no webhook, at least one subscriber and no statement
    raising, the weekly cycle sends one direct message, the same for all, to
    each subscriber whose user can be fetched, in the order of the table,
    skips the others without stopping, and then keeps exactly the ledger rows
    older than seven days. *)
Theorem weekly_cycle_with_subscribers cfg env e now w :
  reportWebhookUrl cfg = None ->
  listSubscribers (db w) <> [] ->
  (forall st, raises env st = false) ->
  let since_ts := sevenDaysAgoTs now in
  let w' := performWeeklyReportAndReset cfg env e now w in
  exists summary lines,
    weekly_embeds env e since_ts (db w) = SummaryEmbed summary :: map PersonEmbed lines
    /\ outbox w'
       = outbox w ++ map (fun sid => DirectMessage sid summary lines)
                         (filter (fun sid => can_fetch_user env sid)
                                 (listSubscribers (db w)))
    /\ gathers (db w') = older_than since_ts (gathers (db w))
    /\ same_meta w w'.
Proof.
  intros Hurl Hsubs Hq since_ts w'.
  set (summary := summary_block
                    (t_eggs (sumTotalsSince since_ts None None (db w)))
                    (t_milk (sumTotalsSince since_ts None None (db w)))
                    (herdTotal herd_buy since_ts (db w))
                    (herdTotal herd_sell since_ts (db w))).
  set (lines := person_blocks env 1 (weeklyPerUser e since_ts (db w))).
  exists summary, lines. split; [reflexivity|].
  assert (Hw : w' = mkWorld (fst (deleteSince since_ts None (db w)))
                      (outbox w ++ map (fun sid => DirectMessage sid summary lines)
                         (filter (fun sid => can_fetch_user env sid)
                                 (listSubscribers (db w))))).
  { unfold w', performWeeklyReportAndReset, cycle_body, bind, query.
    rewrite !Hq, Hurl. fold since_ts. fold summary. fold lines.
    destruct (listSubscribers (db w)) as [|s0 subs] eqn:Es; [contradiction|].
    rewrite (for_each_send_if (can_fetch_user env)
               (fun sid => DirectMessage sid summary lines)).
    rewrite prune_quiet by apply Hq. reflexivity. }
  split; [rewrite Hw; reflexivity|].
  split; [rewrite Hw; simpl; apply deleteSince_all|].
  apply (cycle_body_same_meta cfg env e now w).
Qed.

Lemma weekly_cycle_with_subscribers_witness :
  let w := mkWorld (addSubscriber "S2" (addSubscriber "S1" db_week)) [] in
  let env := mkEnv (fun _ => None) (fun sid => String.eqb sid "S2") (fun _ => false) in
  let since_ts := sevenDaysAgoTs 1709560800000 in
  let w' := performWeeklyReportAndReset cfg0 env engine_a 1709560800000 w in
  exists summary lines,
    weekly_embeds env engine_a since_ts (db w)
    = SummaryEmbed summary :: map PersonEmbed lines
    /\ outbox w'
       = outbox w ++ map (fun sid => DirectMessage sid summary lines)
                         (filter (fun sid => can_fetch_user env sid)
                                 (listSubscribers (db w)))
    /\ gathers (db w') = older_than since_ts (gathers (db w))
    /\ same_meta w w'.
Proof.
  apply (weekly_cycle_with_subscribers cfg0
           (mkEnv (fun _ => None) (fun sid => String.eqb sid "S2") (fun _ => false))
           engine_a 1709560800000
           (mkWorld (addSubscriber "S2" (addSubscriber "S1" db_week)) [])).
  - reflexivity.
  - vm_compute. discriminate.
  - reflexivity.
Defined.

(** The three ways the cycle can end. *)
Lemma cycle_outcomes cfg env e now w :
  let w' := performWeeklyReportAndReset cfg env e now w in
  w' = w
  \/ (exists sent,
        w' = mkWorld (db w) (outbox w ++ sent)
        /\ raises env StTotals = false /\ raises env StPerUser = false
        /\ raises env StHerdBuy = false /\ raises env StHerdSell = false
        /\ raises env StPrune = true)
  \/ (exists sent,
        w' = mkWorld (fst (deleteSince (sevenDaysAgoTs now) None (db w)))
                     (outbox w ++ sent)
        /\ raises env StTotals = false /\ raises env StPerUser = false
        /\ raises env StHerdBuy = false /\ raises env StHerdSell = false
        /\ raises env StPrune = false
        /\ (reportWebhookUrl cfg <> None \/ listSubscribers (db w) <> [])).
Proof.
  cbv zeta. unfold performWeeklyReportAndReset, cycle_body, bind, query.
  destruct (raises env StTotals); [left; reflexivity|].
  destruct (raises env StPerUser); [left; reflexivity|].
  destruct (raises env StHerdBuy); [left; reflexivity|].
  destruct (raises env StHerdSell); [left; reflexivity|].
  destruct (reportWebhookUrl cfg) as [url|].
  - rewrite for_each_send. right. unfold prune.
    destruct (raises env StPrune) eqn:Ep; simpl.
    + left. eexists. repeat split; reflexivity.
    + right. destruct (deleteSince (sevenDaysAgoTs now) None (db w)) as [d' n] eqn:Ed. simpl.
      eexists. repeat split; try reflexivity. left. discriminate.
  - destruct (raises env StListSubscribers); [left; reflexivity|].
    destruct (listSubscribers (db w)) as [|s0 subs] eqn:Es; [left; reflexivity|].
    rewrite (for_each_send_if (can_fetch_user env)). right. unfold prune.
    destruct (raises env StPrune) eqn:Ep; simpl.
    + left. eexists. repeat split; reflexivity.
    + right. destruct (deleteSince (sevenDaysAgoTs now) None (db w)) as [d' n] eqn:Ed. simpl.
      eexists. repeat split; try reflexivity. right. discriminate.
Qed.

Lemma cycle_rows_subset cfg env e now w g :
  In g (gathers (db (performWeeklyReportAndReset cfg env e now w))) ->
  In g (gathers (db w)).
Proof.
  destruct (cycle_outcomes cfg env e now w) as [H|[(sent & H & _)|(sent & H & _)]];
    rewrite H; cbn [db]; auto.
  destruct (deleteSince_all (sevenDaysAgoTs now) (db w)) as (Hg & _).
  rewrite Hg. intros Hin. apply older_than_In in Hin. tauto.
Qed.

(** X8: whatever the environment does, the weekly cycle only ever adds
    to the deliveries and either leaves the ledger alone or keeps exactly the
    rows older than seven days; rows older than seven days are never lost;
    rows are deleted only when the aggregation and the prune did not raise
    and there was a webhook or a subscriber; and when the aggregation raises
    nothing is delivered and nothing is deleted. *)
Theorem weekly_cycle_is_safe cfg env e now w :
  let since_ts := sevenDaysAgoTs now in
  let w' := performWeeklyReportAndReset cfg env e now w in
  (gathers (db w') = gathers (db w)
   \/ gathers (db w') = older_than since_ts (gathers (db w)))
  /\ (forall g, In g (gathers (db w)) -> g_ts g < since_ts -> In g (gathers (db w')))
  /\ (forall g, In g (gathers (db w')) -> In g (gathers (db w)))
  /\ (exists sent, outbox w' = outbox w ++ sent)
  /\ (gathers (db w') <> gathers (db w) ->
      raises env StPrune = false
      /\ (reportWebhookUrl cfg <> None \/ listSubscribers (db w) <> []))
  /\ (raises env StTotals = true \/ raises env StPerUser = true
      \/ raises env StHerdBuy = true \/ raises env StHerdSell = true ->
      w' = w).
Proof.
  intros since_ts w'.
  assert (Hold : forall g, In g (older_than since_ts (gathers (db w)))
                           <-> In g (gathers (db w)) /\ g_ts g < since_ts).
  { intros g. unfold older_than.
    rewrite <- !list_elem_of_In, list_elem_of_filter. split.
    - intros [Hlt Hin]. apply Is_true_true, Z.ltb_lt in Hlt. auto.
    - intros [Hin Hlt]. split; [apply Is_true_true, Z.ltb_lt; exact Hlt | exact Hin]. }
  destruct (cycle_outcomes cfg env e now w)
    as [H|[(sent & H & Ha)|(sent & H & H1 & H2 & H3 & H4 & H5 & H6)]];
    fold w' in H; rewrite H.
  - split; [left; reflexivity|]. split; [auto|]. split; [auto|].
    split; [exists []; rewrite app_nil_r; reflexivity|].
    split; [congruence | reflexivity].
  - simpl. split; [left; reflexivity|]. split; [auto|]. split; [auto|].
    split; [eexists; reflexivity|]. split; [congruence|].
    destruct Ha as (A1 & A2 & A3 & A4 & _).
    intros [X|[X|[X|X]]]; congruence.
  - cbn [db outbox]. destruct (deleteSince_all since_ts (db w)) as (Hg & _).
    fold since_ts. rewrite Hg.
    split; [right; reflexivity|].
    split; [intros g Hin Hlt; apply Hold; auto|].
    split; [intros g Hin; apply Hold in Hin; tauto|].
    split; [eexists; reflexivity|].
    split; [auto|].
    intros [X|[X|[X|X]]]; congruence.
Qed.

Lemma tick_fired_same_meta cfg env e clk w w' :
  same_meta w w' -> fst (tick cfg env e clk w') = fst (tick cfg env e clk w).
Proof.
  intros (Hs & Hl & _). unfold tick, getScheduleMeta, getLastReportDate.
  rewrite Hs, Hl.
  destruct (isReportTime _ _ _ _); [|reflexivity].
  destruct (opt_string_eqb _ _); reflexivity.
Qed.

(** X9: run_weekly_report_now runs the cycle but writes neither the
    marker nor the schedule nor the subscribers, so it changes the decision
    of no later tick: a tick fires after a manual run exactly if it would
    have fired without it. *)
Theorem manual_run_keeps_marker cfg env e now i w :
  same_meta w (snd (onRunWeeklyReportNow cfg env e now i w))
  /\ getLastReportDate (db (snd (onRunWeeklyReportNow cfg env e now i w)))
     = getLastReportDate (db w)
  /\ (forall clk,
        fst (tick cfg env e clk (snd (onRunWeeklyReportNow cfg env e now i w)))
        = fst (tick cfg env e clk w)).
Proof.
  assert (H : same_meta w (snd (onRunWeeklyReportNow cfg env e now i w))).
  { unfold onRunWeeklyReportNow. destruct (negb (has_manage_guild i)); simpl.
    - apply same_meta_refl.
    - apply (cycle_body_same_meta cfg env e now w). }
  split; [exact H|]. split.
  - destruct H as (_ & Hl & _). unfold getLastReportDate. rewrite Hl. reflexivity.
  - intros clk. apply tick_fired_same_meta. exact H.
Qed.

End DeliveryFacts.

(** * Aggregation *)

Section AggregationFacts.
Import Js Regex Parse Store Bot Commands Reference Examples.

Lemma existsb_key_In (k : option string) seen :
  existsb (fun x => if decide (x = k) then true else false) seen = true <-> In k seen.
Proof.
  rewrite existsb_exists. split.
  - intros (x & Hin & Hx). destruct (decide (x = k)); [subst; exact Hin | discriminate].
  - intros Hin. exists k. split; [exact Hin|]. destruct (decide (k = k)); congruence.
Qed.

Lemma group_keys_fresh : forall rows seen k,
  In k (group_keys seen rows) -> ~ In k seen.
Proof.
  induction rows as [|g tl IH]; intros seen k H; simpl in H; [contradiction|].
  destruct (existsb _ seen) eqn:E.
  - eapply IH; exact H.
  - destruct H as [<-|H].
    + intros Hin. apply existsb_key_In in Hin. congruence.
    + intros Hin. apply (IH _ _ H). right. exact Hin.
Qed.

Lemma group_keys_NoDup : forall rows seen, NoDup (group_keys seen rows).
Proof.
  induction rows as [|g tl IH]; intros seen; simpl; [constructor|].
  destruct (existsb _ seen); [apply IH|].
  constructor; [|apply IH].
  intros Hin. apply list_elem_of_In in Hin.
  apply group_keys_fresh in Hin. apply Hin. left. reflexivity.
Qed.

Lemma group_keys_complete : forall rows seen g,
  In g rows -> In (g_discord_id g) seen \/ In (g_discord_id g) (group_keys seen rows).
Proof.
  induction rows as [|a tl IH]; intros seen g Hin; [contradiction|].
  simpl. destruct Hin as [->|Hin].
  - destruct (existsb _ seen) eqn:E.
    + left. apply existsb_key_In. exact E.
    + right. left. reflexivity.
  - destruct (existsb _ seen) eqn:E.
    + apply IH. exact Hin.
    + destruct (IH (g_discord_id a :: seen) g Hin) as [[H|H]|H].
      * right. left. exact H.
      * left. exact H.
      * right. right. exact H.
Qed.

Lemma group_by_user_keys rows :
  map u_discord_id (group_by_user rows) = group_keys [] rows.
Proof.
  unfold group_by_user. rewrite map_map. simpl. apply map_id.
Qed.

Lemma filter_cons_bool {A} (p : A -> bool) a (l : list A) :
  filter (fun x => p x) (a :: l)
  = if p a then a :: filter (fun x => p x) l else filter (fun x => p x) l.
Proof. rewrite filter_cons. destruct (p a); reflexivity. Qed.

Lemma sum_amount_cons ty g tl :
  sum_amount ty (g :: tl)
  = (if item_type_eqb (g_item_type g) ty then g_amount g else 0) + sum_amount ty tl.
Proof. simpl. destruct (item_type_eqb _ _); lia. Qed.

Lemma column_aggregate ty k rows :
  column ty (aggregate k rows) = sum_amount ty (filter (fun g => same_key k g) rows).
Proof. destruct ty; reflexivity. Qed.

(** Among distinct keys exactly one takes a given row. *)
Lemma one_key_takes (c : Z) (kg : option string) : forall ks,
  NoDup ks -> In kg ks ->
  fold_right (fun k acc => (if decide (kg = k) then c else 0) + acc) 0 ks = c.
Proof.
  assert (Hzero : forall ks, ~ In kg ks ->
            fold_right (fun k acc => (if decide (kg = k) then c else 0) + acc) 0 ks = 0).
  { induction ks as [|k ks IH]; intros Hn; simpl; [reflexivity|].
    destruct (decide (kg = k)) as [->|_]; [destruct Hn; left; reflexivity|].
    rewrite IH; [reflexivity|]. intros H. apply Hn. right. exact H. }
  induction 1 as [|k ks Hnin Hnd IH]; intros Hin; [contradiction|].
  simpl. rewrite list_elem_of_In in Hnin.
  destruct (decide (kg = k)) as [->|Hne].
  - rewrite Hzero by exact Hnin. lia.
  - destruct Hin as [Hin|Hin]; [congruence|]. rewrite IH by exact Hin. lia.
Qed.

Lemma sum_over_keys ty : forall rows ks,
  NoDup ks ->
  (forall g, In g rows -> In (g_discord_id g) ks) ->
  fold_right (fun k acc => sum_amount ty (filter (fun g => same_key k g) rows) + acc)
             0 ks
  = sum_amount ty rows.
Proof.
  induction rows as [|g tl IH]; intros ks Hnd Hall.
  - clear Hnd Hall. induction ks as [|k ks IHk]; simpl; [reflexivity | exact IHk].
  - rewrite sum_amount_cons, <- (IH ks Hnd) by (intros; apply Hall; right; assumption).
    set (c := if item_type_eqb (g_item_type g) ty then g_amount g else 0).
    assert (Hone : fold_right (fun k acc =>
                      (if decide (g_discord_id g = k) then c else 0) + acc) 0 ks = c).
    { apply one_key_takes; [exact Hnd|]. apply Hall. left. reflexivity. }
    rewrite <- Hone at 1. clear Hone Hnd Hall IH.
    induction ks as [|k ks IHk]; simpl; [reflexivity|].
    rewrite filter_cons_bool.
    assert (Hk : same_key k g = if decide (g_discord_id g = k) then true else false)
      by reflexivity.
    destruct (decide (g_discord_id g = k)); rewrite Hk.
    + rewrite sum_amount_cons. fold c. lia.
    + lia.
Qed.

Lemma total_of_perm f l l' : Permutation l l' -> total_of f l = total_of f l'.
Proof.
  induction 1; unfold total_of in *; simpl; lia.
Qed.

Lemma total_of_map f (g : option string -> UserRow) ks :
  total_of f (map g ks) = fold_right (fun k acc => f (g k) + acc) 0 ks.
Proof. induction ks; simpl; [reflexivity | unfold total_of in *; simpl; lia]. Qed.

Lemma total_of_group_by ty rows :
  total_of (column ty) (group_by_user rows) = sum_amount ty rows.
Proof.
  unfold group_by_user. rewrite total_of_map.
  rewrite <- (sum_over_keys ty rows (group_keys [] rows)).
  - induction (group_keys [] rows); simpl; [reflexivity|].
    rewrite column_aggregate. f_equal. assumption.
  - apply group_keys_NoDup.
  - intros g Hin. destruct (group_keys_complete rows [] g Hin) as [[]|H]. exact H.
Qed.

Lemma filter_ext_in_bool {A} (p q : A -> bool) (l : list A) :
  (forall x, In x l -> p x = q x) ->
  filter (fun x => p x) l = filter (fun x => q x) l.
Proof.
  induction l as [|a tl IH]; intros H; [reflexivity|].
  rewrite !filter_cons_bool, (H a) by (left; reflexivity).
  rewrite IH by (intros; apply H; right; assumption). reflexivity.
Qed.

(** X10: the per-actor rows of the weekly report add up: for each item
    type, the column summed over the actors equals the sum of the amounts of
    that type over the attributed rows of the window; when every row of the
    window is attributed, the actors' eggs and milk add up to the overall
    totals of the summary. *)
Theorem per_actor_totals_add_up e since d :
  conforms e ->
  (forall ty,
     total_of (column ty) (weeklyPerUser e since d)
     = sum_amount ty (filter (fun g => (since <=? g_ts g) && is_some (g_discord_id g))
                             (gathers d)))
  /\ ((forall g, In g (gathers d) -> since <= g_ts g ->
                 is_some (g_discord_id g) = true) ->
      total_of u_eggs (weeklyPerUser e since d)
      = t_eggs (sumTotalsSince since None None d)
      /\ total_of u_milk (weeklyPerUser e since d)
         = t_milk (sumTotalsSince since None None d)).
Proof.
  intros He.
  assert (Hcol : forall ty,
            total_of (column ty) (weeklyPerUser e since d)
            = sum_amount ty (filter (fun g => (since <=? g_ts g)
                                              && is_some (g_discord_id g))
                                    (gathers d))).
  { intros ty. unfold weeklyPerUser.
    destruct (He (group_by_user
                    (filter (fun g => (since <=? g_ts g) && is_some (g_discord_id g))
                            (gathers d)))) as [Hperm _].
    rewrite <- (total_of_perm _ _ _ Hperm). apply total_of_group_by. }
  split; [exact Hcol|].
  intros Hall.
  assert (Hf : filter (fun g => (since <=? g_ts g) && is_some (g_discord_id g))
                      (gathers d)
               = filter (fun g => (since <=? g_ts g) && null_or_eq_Z None (g_ranch_id g)
                                  && null_or_eq_string None (g_discord_id g))
                        (gathers d)).
  { apply filter_ext_in_bool. intros g Hin. simpl. rewrite !andb_true_r.
    destruct (since <=? g_ts g) eqn:E; [|reflexivity].
    apply Z.leb_le in E. rewrite (Hall g Hin E). reflexivity. }
  split.
  - etransitivity; [exact (Hcol eggs) | rewrite Hf; reflexivity].
  - etransitivity; [exact (Hcol milk) | rewrite Hf; reflexivity].
Qed.

Lemma per_actor_totals_add_up_witness :
  total_of u_eggs (weeklyPerUser engine_b 0 db_tie)
  = t_eggs (sumTotalsSince 0 None None db_tie)
  /\ total_of u_milk (weeklyPerUser engine_b 0 db_tie)
     = t_milk (sumTotalsSince 0 None None db_tie).
Proof.
  apply (proj2 (per_actor_totals_add_up engine_b 0 db_tie engine_b_conforms)).
  intros g [<-|[<-|[]]] _; reflexivity.
Defined.

Lemma in_group_by_user r rows :
  In r (group_by_user rows) -> r = aggregate (u_discord_id r) rows.
Proof.
  unfold group_by_user. intros H. apply in_map_iff in H as (k & <- & _). reflexivity.
Qed.

Lemma NoDup_keys_perm_take e n rows :
  conforms e ->
  NoDup (map u_discord_id (order_by_total_desc e (group_by_user rows)))
  /\ NoDup (map u_discord_id (take n (order_by_total_desc e (group_by_user rows)))).
Proof.
  intros He. destruct (He (group_by_user rows)) as [Hperm _].
  assert (Hnd : NoDup (map u_discord_id (order_by_total_desc e (group_by_user rows)))).
  { rewrite <- (Permutation_map u_discord_id Hperm), group_by_user_keys.
    apply group_keys_NoDup. }
  split; [exact Hnd|].
  refine (sublist_NoDup _ _ Hnd _).
  change (map u_discord_id) with (fmap (M:=list) u_discord_id).
  rewrite fmap_take. apply sublist_take.
Qed.

(** X11: for a conforming engine, the leaderboard and the weekly report
    show each actor at most once, and a row carries the sums of that actor
    over the rows the query selects. *)
Theorem report_rows_are_per_actor e since ranch limit d :
  conforms e ->
  NoDup (map u_discord_id (topUsers e since ranch limit d))
  /\ (forall r, In r (topUsers e since ranch limit d) ->
        r = aggregate (u_discord_id r)
              (filter (fun g => null_or_since since (g_ts g)
                                && null_or_eq_Z ranch (g_ranch_id g)
                                && is_some (g_discord_id g)) (gathers d)))
  /\ (forall since_ts,
        NoDup (map u_discord_id (weeklyPerUser e since_ts d))
        /\ forall r, In r (weeklyPerUser e since_ts d) ->
             r = aggregate (u_discord_id r)
                   (filter (fun g => (since_ts <=? g_ts g)
                                     && is_some (g_discord_id g)) (gathers d))).
Proof.
  intros He. split; [|split].
  - unfold topUsers, top_candidates.
    destruct (limit <? 0);
      [apply (proj1 (NoDup_keys_perm_take e 0 _ He))
      | apply (proj2 (NoDup_keys_perm_take e _ _ He))].
  - intros r Hin. apply in_group_by_user.
    unfold topUsers in Hin. fold (top_candidates since ranch d).
    destruct (He (top_candidates since ranch d)) as [Hperm _].
    destruct (limit <? 0).
    + eapply Permutation_in; [symmetry; exact Hperm | exact Hin].
    + eapply Permutation_in; [symmetry; exact Hperm|].
      apply list_elem_of_In. apply list_elem_of_In in Hin.
      eapply subseteq_take. exact Hin.
  - intros since_ts. unfold weeklyPerUser. split.
    + apply (proj1 (NoDup_keys_perm_take e 0 _ He)).
    + intros r Hin. apply in_group_by_user.
      match goal with
      | H : In r (order_by_total_desc e ?l) |- _ =>
          destruct (He l) as [Hperm _]
      end.
      eapply Permutation_in; [symmetry; exact Hperm | exact Hin].
Qed.

Lemma report_rows_are_per_actor_witness :
  NoDup (map u_discord_id (topUsers engine_a None None 50 db_tie))
  /\ (forall r, In r (topUsers engine_a None None 50 db_tie) ->
        r = aggregate (u_discord_id r)
              (filter (fun g => null_or_since None (g_ts g)
                                && null_or_eq_Z None (g_ranch_id g)
                                && is_some (g_discord_id g)) (gathers db_tie)))
  /\ (forall since_ts,
        NoDup (map u_discord_id (weeklyPerUser engine_a since_ts db_tie))
        /\ forall r, In r (weeklyPerUser engine_a since_ts db_tie) ->
             r = aggregate (u_discord_id r)
                   (filter (fun g => (since_ts <=? g_ts g)
                                     && is_some (g_discord_id g)) (gathers db_tie))).
Proof.
  apply (report_rows_are_per_actor engine_a None None 50 db_tie engine_a_conforms).
Defined.

(** *** After a reset *)

Lemma window_empty_after_reset since since' rows :
  since <= since' ->
  filter (fun g => since' <=? g_ts g) (older_than since rows) = [].
Proof.
  intros Hle. unfold older_than. induction rows as [|g tl IH]; [reflexivity|].
  rewrite filter_cons_bool. destruct (g_ts g <? since) eqn:E; [|exact IH].
  rewrite filter_cons_bool.
  replace (since' <=? g_ts g) with false
    by (symmetry; apply Z.leb_gt; apply Z.ltb_lt in E; lia).
  exact IH.
Qed.

Lemma window_filter_and {A} (p q : A -> bool) (l : list A) :
  filter (fun x => p x) l = [] -> filter (fun x => p x && q x) l = [].
Proof.
  induction l as [|a tl IH]; [reflexivity|].
  rewrite !filter_cons_bool. destruct (p a); [discriminate|]. simpl. exact IH.
Qed.

(** X12: after reset_week the last seven days are empty: from then on,
    until a new event is stored, weekly_totals answers "No data in the last
    7 days", the weekly totals are zero and the weekly report has no
    actor. *)
Theorem no_data_after_reset ok env e now now' i d :
  conforms e ->
  has_manage_guild i = true ->
  now <= now' ->
  let d' := snd (onResetWeek now i d) in
  onWeeklyTotals ok env e now' d' = WeeklyNoData
  /\ weeklyPerUser e (sevenDaysAgoTs now') d' = []
  /\ sumTotalsSince (sevenDaysAgoTs now') None None d' = mkTotals 0 0.
Proof.
  intros He Hp Hle d'.
  pose proof (onResetWeek_keeps_older now i d Hp) as Hg. fold d' in Hg.
  assert (Hwin : filter (fun g => sevenDaysAgoTs now' <=? g_ts g) (gathers d') = [])
    by (rewrite Hg; apply window_empty_after_reset; unfold sevenDaysAgoTs; lia).
  assert (Hrows : weeklyPerUser e (sevenDaysAgoTs now') d' = []).
  { unfold weeklyPerUser.
    rewrite (window_filter_and (fun g => sevenDaysAgoTs now' <=? g_ts g)
               (fun g => is_some (g_discord_id g)) _ Hwin).
    destruct (He (group_by_user [])) as [Hperm _]. simpl in Hperm.
    apply Permutation_nil in Hperm. exact Hperm. }
  split; [unfold onWeeklyTotals; rewrite Hrows; reflexivity|].
  split; [exact Hrows|].
  unfold sumTotalsSince.
  rewrite (filter_bool_ext
             (fun g => (sevenDaysAgoTs now' <=? g_ts g)
                       && null_or_eq_Z None (g_ranch_id g)
                       && null_or_eq_string None (g_discord_id g))
             (fun g => sevenDaysAgoTs now' <=? g_ts g))
    by (intros g; simpl; rewrite !andb_true_r; reflexivity).
  rewrite Hwin. reflexivity.
Qed.

Lemma no_data_after_reset_witness :
  let i := mkInteraction "reset_week" None None None None None "U" true in
  let d' := snd (onResetWeek 1709560800000 i db_week) in
  onWeeklyTotals (fun _ => true) env_ok engine_a 1709560860000 d' = WeeklyNoData
  /\ weeklyPerUser engine_a (sevenDaysAgoTs 1709560860000) d' = []
  /\ sumTotalsSince (sevenDaysAgoTs 1709560860000) None None d' = mkTotals 0 0.
Proof.
  apply (no_data_after_reset (fun _ => true) env_ok engine_a 1709560800000
           1709560860000
           (mkInteraction "reset_week" None None None None None "U" true) db_week
           engine_a_conforms).
  - reflexivity.
  - lia.
Defined.

End AggregationFacts.

(** * The ledger under the listener *)

Section LedgerFacts.
Import Js Regex Parse Store Bot Commands Reference Examples.

Lemma existsb_message_id mid rows :
  existsb (fun g => String.eqb (g_message_id g) mid) rows = true
  <-> In mid (map g_message_id rows).
Proof.
  rewrite existsb_exists, in_map_iff. split.
  - intros (g & Hin & E). apply String.eqb_eq in E. eauto.
  - intros (g & E & Hin). exists g. split; [exact Hin|]. apply String.eqb_eq. exact E.
Qed.

Lemma insertGather_fresh ts ch mid did rid ty amt val sub d d' :
  insertGather ts ch mid did rid ty amt val sub d = Some d' ->
  ~ In mid (map g_message_id (gathers d))
  /\ report_subscribers d' = report_subscribers d
  /\ meta_report_schedule d' = meta_report_schedule d
  /\ meta_last_report_date d' = meta_last_report_date d.
Proof.
  unfold insertGather. destruct (existsb _ _) eqn:E; [discriminate|].
  intros H. inversion H; subst; clear H. simpl. repeat split.
  intros Hin. apply existsb_message_id in Hin. congruence.
Qed.

Lemma onMessageCreate_other_channel cfg now1 now2 message d :
  channelId message <> listenChannelId cfg ->
  snd (onMessageCreate cfg now1 now2 message d) = d.
Proof.
  intros Hne. unfold onMessageCreate.
  apply String.eqb_neq in Hne. rewrite Hne. reflexivity.
Qed.

(** X13: the listener only appends: it leaves the stored rows, the
    subscribers, the schedule and the marker as they are and adds at most
    one row, which carries the id and the channel of the message and the
    time of the second clock reading; a message from another channel changes
    nothing. *)
Theorem listener_only_appends cfg now1 now2 message d :
  let d' := snd (onMessageCreate cfg now1 now2 message d) in
  (d' = d
   \/ exists g, gathers d' = gathers d ++ [g]
                /\ g_message_id g = id message
                /\ g_channel_id g = listenChannelId cfg
                /\ g_ts g = now2
                /\ fst (onMessageCreate cfg now1 now2 message d) = Logged)
  /\ report_subscribers d' = report_subscribers d
  /\ meta_report_schedule d' = meta_report_schedule d
  /\ meta_last_report_date d' = meta_last_report_date d
  /\ (channelId message <> listenChannelId cfg -> d' = d).
Proof.
  intros d'.
  assert (Hch : channelId message <> listenChannelId cfg -> d' = d).
  { intros Hne. apply onMessageCreate_other_channel. exact Hne. }
  destruct (onMessageCreate_cases cfg now1 now2 message d)
    as [[_ Hd]|(parsed & did & Hl & _ & _ & Hins)]; fold d' in Hd || fold d' in Hins.
  - rewrite Hd. repeat split; auto.
  - pose proof (insertGather_Some _ _ _ _ _ _ _ _ _ _ _ Hins) as Hg.
    apply insertGather_fresh in Hins as (_ & Hs & Hm & Hm').
    split; [|auto].
    right. eexists. split; [exact Hg|]. simpl. repeat split; [|exact Hl].
    destruct (String.eqb_spec (channelId message) (listenChannelId cfg)) as [E|E];
      [exact E|].
    rewrite (Hch E) in Hg. exfalso.
    apply (f_equal (@length Gather)) in Hg. rewrite length_app in Hg. simpl in Hg. lia.
Qed.

(** X14: the ledger holds at most one row per message id: ids stay
    pairwise distinct under the listener, a message whose id is already
    stored changes nothing whatever its text, and so a message delivered again
    after it was logged is never stored twice. *)
Theorem one_row_per_message cfg now1 now2 message d :
  NoDup (map g_message_id (gathers d)) ->
  let d' := snd (onMessageCreate cfg now1 now2 message d) in
  NoDup (map g_message_id (gathers d'))
  /\ (In (id message) (map g_message_id (gathers d)) -> d' = d)
  /\ (fst (onMessageCreate cfg now1 now2 message d) = Logged ->
      forall cfg' t1 t2 message',
        id message' = id message ->
        snd (onMessageCreate cfg' t1 t2 message' d') = d').
Proof.
  intros Hnd d'.
  assert (Hstored : forall cfg0 t1 t2 m0 d0,
            In (id m0) (map g_message_id (gathers d0)) ->
            snd (onMessageCreate cfg0 t1 t2 m0 d0) = d0).
  { intros cfg0 t1 t2 m0 d0 Hin.
    destruct (onMessageCreate_cases cfg0 t1 t2 m0 d0)
      as [[_ Hd]|(parsed & did & _ & _ & _ & Hins)]; [exact Hd|].
    apply insertGather_fresh in Hins as (Hfresh & _). contradiction. }
  destruct (onMessageCreate_cases cfg now1 now2 message d)
    as [[Hnl Hd]|(parsed & did & Hl & _ & _ & Hins)]; fold d' in Hd || fold d' in Hins.
  - rewrite Hd. split; [exact Hnd|]. split; [auto | intros; contradiction].
  - pose proof (insertGather_Some _ _ _ _ _ _ _ _ _ _ _ Hins) as Hg.
    apply insertGather_fresh in Hins as (Hfresh & _).
    split.
    { rewrite Hg, map_app. simpl. apply NoDup_app. split; [exact Hnd|].
      split; [|apply NoDup_singleton].
      intros x Hx Hin. apply list_elem_of_In in Hin. destruct Hin as [<-|[]].
      apply Hfresh. apply list_elem_of_In. exact Hx. }
    split; [intros Hin; contradiction|].
    intros _ cfg' t1 t2 message' Hid. apply Hstored.
    rewrite Hid, Hg, map_app, in_app_iff. right. left. reflexivity.
Qed.

Lemma one_row_per_message_witness :
  let d := mkDb [row_collect 1 0 "m1"] 1 [] None None in
  let d' := snd (onMessageCreate cfg0 20000 20000 (msg "m2" ex_collect) d) in
  NoDup (map g_message_id (gathers d'))
  /\ (In "m2"%string (map g_message_id (gathers d)) -> d' = d)
  /\ (fst (onMessageCreate cfg0 20000 20000 (msg "m2" ex_collect) d) = Logged ->
      forall cfg' t1 t2 message',
        id message' = "m2"%string ->
        snd (onMessageCreate cfg' t1 t2 message' d') = d').
Proof.
  apply (one_row_per_message cfg0 20000 20000 (msg "m2" ex_collect)
           (mkDb [row_collect 1 0 "m1"] 1 [] None None)).
  simpl. apply NoDup_singleton.
Defined.

End LedgerFacts.

(** * What the extractors return *)

Section CaptureFacts.
Import Js Regex Parse Store Bot Commands Reference Examples.

(** A capture numbered [i] is a word of the class of its group. *)
Lemma captures_are_words i p r s s' :
  groups_are i (Plus (Cls p)) r ->
  matches r s s' ->
  (forall w, In (i, w) (groups s) -> word_of p w) ->
  forall w, In (i, w) (groups s') -> word_of p w.
Proof.
  intros Hr M. revert Hr.
  induction M as [s|q c tl b g Hq|r1 r2 s s1 s2 _ IH1 _ IH2|r1 r2 s s1 _ IH
                 |r1 r2 s s1 _ IH|r s|r s s1 s2 _ IH1 _ IH2|j r s s1 M IH
                 |s _|s _|s _]; intros Hr Hs; try exact Hs.
  - destruct Hr as [Ha Hb]. apply IH2; [exact Hb|]. apply IH1; assumption.
  - destruct Hr as [Ha _]. apply IH; assumption.
  - destruct Hr as [_ Hb]. apply IH; assumption.
  - apply IH2; [exact Hr|]. apply IH1; [exact Hr | exact Hs].
  - destruct Hr as [Hbody Hr]. intros w [Hin|Hin].
    + inversion Hin; subst j w. rewrite (Hbody eq_refl) in M.
      apply matches_Plus_Cls_inv in M as (w & Hlen & Hw).
      rewrite (captured_reads _ _ _ _ Hw). destruct Hw as (F & _).
      split; [destruct w; [simpl in Hlen; lia | discriminate] | exact F].
    + apply (IH Hr Hs). exact Hin.
Qed.

Lemma group_In i m w : group i m = Some w -> In (i, w) (m_groups m).
Proof.
  unfold group. destruct (find _ (m_groups m)) as [[j x]|] eqn:E; [|discriminate].
  simpl. intros H. inversion H; subst x.
  apply find_some in E as [Hin Hj]. simpl in Hj. apply Nat.eqb_eq in Hj. subst j.
  exact Hin.
Qed.

Lemma search_capture i p r t m w :
  groups_are i (Plus (Cls p)) r ->
  search r t = Some m -> group i m = Some w -> word_of p w.
Proof.
  intros Hr Hs Hg. apply search_sound in Hs as (pre & rest & s' & _ & M & G & _).
  apply group_In in Hg. rewrite G in Hg.
  eapply captures_are_words; [exact Hr | exact M | | exact Hg].
  intros x [].
Qed.

Lemma digit_val_range c : is_digit c = true -> 0 <= digit_val c <= 9.
Proof.
  unfold is_digit, in_range, digit_val. rewrite andb_true_iff, !N.leb_le. lia.
Qed.

Lemma fold_digits_nonneg w : forall acc,
  0 <= acc -> forallb is_digit w = true ->
  0 <= fold_left (fun acc c => 10 * acc + digit_val c) w acc.
Proof.
  induction w as [|c tl IH]; intros acc Hacc Hw; [exact Hacc|].
  simpl in Hw. apply andb_true_iff in Hw as [Hc Ht]. simpl.
  apply IH; [|exact Ht]. pose proof (digit_val_range c Hc). lia.
Qed.

Lemma digits_val_nonneg w : forallb is_digit w = true -> 0 <= digits_val w.
Proof. apply fold_digits_nonneg. lia. Qed.

Lemma take_while_all p : forall s, forallb p (take_while p s) = true.
Proof.
  induction s as [|c tl IH]; [reflexivity|].
  simpl. destruct (p c) eqn:E; [simpl; rewrite E; exact IH | reflexivity].
Qed.

Lemma Number_decimal_nonneg s : (0 <= or_zero (Number_decimal s))%Q.
Proof.
  unfold Number_decimal.
  pose proof (take_while_all is_digit s) as Hip.
  destruct (drop (length (take_while is_digit s)) s) as [|c fp].
  - simpl. unfold Qle. simpl. pose proof (digits_val_nonneg _ Hip). lia.
  - destruct (eqc c "." && forallb is_digit fp
              && negb (Nat.eqb (length (take_while is_digit s)) 0
                       && Nat.eqb (length fp) 0)) eqn:E;
      [|apply Qle_refl].
    apply andb_true_iff in E as [E _]. apply andb_true_iff in E as [_ Hfp].
    simpl. rewrite Qred_correct. unfold Qle. simpl.
    assert (H : 0 <= digits_val (take_while is_digit s ++ fp)).
    { apply digits_val_nonneg. rewrite forallb_app, Hip, Hfp. reflexivity. }
    lia.
Qed.

Lemma lower_of_alpha c : is_alpha c = true -> is_lower (lower c) = true.
Proof.
  destruct c as [[] [] [] [] [] [] [] []]; vm_compute; intros H;
    first [reflexivity | discriminate H].
Qed.

Lemma toLowerCase_word w :
  word_of is_alpha w -> toLowerCase w <> [] /\ forallb is_lower (toLowerCase w) = true.
Proof.
  intros [Hne Hall]. split; [destruct w; [contradiction | discriminate]|].
  unfold toLowerCase. induction w as [|c tl IH]; [reflexivity|].
  simpl in Hall. apply andb_true_iff in Hall as [Hc Ht]. simpl.
  rewrite (lower_of_alpha c Hc). simpl.
  destruct tl; [reflexivity | apply IH; [discriminate | exact Ht]].
Qed.

Lemma re_herd_group3 : groups_are 3 (Plus (Cls is_alpha)) re_herd.
Proof. cbv [re_herd groups_are]. repeat split; intros H; try discriminate H. Qed.

Lemma re_ranch_id_group1 : groups_are 1 (Plus digit) re_ranch_id.
Proof. cbv [re_ranch_id groups_are]. repeat split; intros H; try discriminate H. Qed.

Lemma re_ranch_group1 : groups_are 1 (Plus digit) re_ranch.
Proof. cbv [re_ranch groups_are]. repeat split; intros H; try discriminate H. Qed.

Lemma extractRanchId_nonneg text r : extractRanchId text = Some r -> 0 <= r.
Proof.
  unfold extractRanchId, extractRanchId_chars.
  destruct (is_empty text); [discriminate|].
  destruct (search re_ranch_id (cs text)) as [m|] eqn:E1.
  - destruct (group 1 m) as [w|] eqn:G; [|discriminate]. simpl.
    intros H. inversion H; subst.
    apply to_double_nonneg, digits_val_nonneg.
    apply (search_capture 1 is_digit _ _ _ _ re_ranch_id_group1 E1 G).
  - destruct (search re_ranch (cs text)) as [m|] eqn:E2; [|discriminate].
    destruct (group 1 m) as [w|] eqn:G; [|discriminate]. simpl.
    intros H. inversion H; subst.
    apply to_double_nonneg, digits_val_nonneg.
    apply (search_capture 1 is_digit _ _ _ _ re_ranch_group1 E2 G).
Qed.

(** The value and subtype of a candidate, by its item type. *)
Lemma item_shape text item :
  extractItemAndAmount text = Some item ->
  match i_item_type item with
  | eggs | milk => i_value item = Num 0 /\ i_subtype item = None
  | herd_buy | herd_sell =>
      exists animal, i_subtype item = Some (str animal)
                     /\ animal <> [] /\ forallb is_lower animal = true
  end.
Proof.
  unfold extractItemAndAmount. destruct (is_empty text); [discriminate|].
  destruct (search re_near (normalize text)) as [near|].
  { unfold near_item. destruct (group 1 near); [|discriminate].
    destruct (group 2 near); [|discriminate].
    intros H. inversion H; subst; simpl. destruct (eqs _ _); auto. }
  destruct (search re_herd (normalize text)) as [herd|] eqn:Eh.
  { unfold herd_item. destruct (group 1 herd); [|discriminate].
    destruct (group 2 herd); [|discriminate].
    destruct (group 3 herd) as [g3|] eqn:G3; [|discriminate].
    destruct (group 4 herd); [|discriminate].
    pose proof (search_capture 3 is_alpha _ _ _ _ re_herd_group3 Eh G3) as Hw.
    apply toLowerCase_word in Hw as [Hne Hlow].
    destruct (eqs _ _); intros H; inversion H; subst; simpl; eauto. }
  unfold fallback_item. destruct (negb _ && negb _); [discriminate|].
  destruct (last _); [|discriminate].
  intros H. inversion H; subst; simpl.
  destruct (test re_has_milk (normalize text)); auto.
Qed.

Lemma str_nonempty w : w <> [] -> is_empty (str w) = false.
Proof. destruct w; [contradiction | reflexivity]. Qed.

Lemma parsed_shape text parsed :
  parseGather text = Some parsed ->
  1 <= p_amount parsed <= 100000
  /\ (0 <= p_value parsed)%Q
  /\ match p_ranch_id parsed with Some r => 0 <= r | None => True end
  /\ match p_item_type parsed with
     | eggs | milk => p_value parsed = 0%Q /\ p_subtype parsed = None
     | herd_buy | herd_sell =>
         exists animal, p_subtype parsed = Some (str animal)
                        /\ animal <> [] /\ forallb is_lower animal = true
     end.
Proof.
  intros Hp. pose proof Hp as Hp'. unfold parseGather in Hp.
  destruct (is_empty text); [discriminate|].
  destruct (extractItemAndAmount text) as [item|] eqn:Ei; [|discriminate].
  destruct ((i_amount item =? 0) || (i_amount item <=? 0)) eqn:E1; [discriminate|].
  destruct (100000 <? i_amount item) eqn:E2; [discriminate|].
  inversion Hp; subst; clear Hp. simpl.
  apply orb_false_iff in E1 as [_ E1]. apply Z.leb_gt in E1. apply Z.ltb_ge in E2.
  split; [lia|].
  split.
  { destruct (i_value item) as [|q] eqn:Ev; [apply Qle_refl|].
    pose proof (item_shape text item Ei) as Hs. unfold extractItemAndAmount in Ei.
    destruct (is_empty text); [discriminate|].
    destruct (search re_near (normalize text)) as [near|].
    { rewrite Ev in Hs. unfold near_item in Ei.
      destruct (group 1 near), (group 2 near); try discriminate.
      inversion Ei; subst. simpl in Ev. inversion Ev; subst. apply Qle_refl. }
    destruct (search re_herd (normalize text)) as [herd|].
    { unfold herd_item in Ei.
      destruct (group 1 herd), (group 2 herd), (group 3 herd), (group 4 herd) as [g4|];
        try discriminate.
      pose proof (Number_decimal_nonneg (remove_commas g4)) as Hn.
      destruct (eqs _ _); inversion Ei; subst; simpl in Ev; rewrite Ev in Hn;
        exact Hn. }
    unfold fallback_item in Ei. destruct (negb _ && negb _); [discriminate|].
    destruct (last _); [|discriminate]. inversion Ei; subst. simpl in Ev.
    inversion Ev; subst. apply Qle_refl. }
  split.
  { destruct (extractRanchId text) as [r|] eqn:Er; [|exact I].
    apply (extractRanchId_nonneg text r Er). }
  pose proof (item_shape text item Ei) as Hs.
  destruct (i_item_type item).
  - destruct Hs as [Hv Hsub]. rewrite Hv, Hsub. auto.
  - destruct Hs as [Hv Hsub]. rewrite Hv, Hsub. auto.
  - destruct Hs as (animal & Hsub & Hne & Hlow). exists animal.
    rewrite Hsub, (str_nonempty animal Hne). auto.
  - destruct Hs as (animal & Hsub & Hne & Hlow). exists animal.
    rewrite Hsub, (str_nonempty animal Hne). auto.
Qed.

(** X15: every row the listener stores is well formed: it lies in the
    listening channel, has an actor, an amount between 1 and 100000, a value
    that is not negative and a ranch id that is not negative; an eggs or milk
    row has value 0 and no subtype, a herd row has a non-empty subtype in
    lower-case letters.  The listener, reset_week and the weekly cycle keep a
    ledger of such rows one. *)
Theorem stored_rows_are_well_formed cfg d :
  Forall (well_formed cfg) (gathers d) ->
  (forall now1 now2 message,
     Forall (well_formed cfg) (gathers (snd (onMessageCreate cfg now1 now2 message d))))
  /\ (forall now i, Forall (well_formed cfg) (gathers (snd (onResetWeek now i d))))
  /\ (forall env e now out,
        Forall (well_formed cfg)
          (gathers (db (performWeeklyReportAndReset cfg env e now (mkWorld d out))))).
Proof.
  intros Hall. split; [|split].
  - intros now1 now2 message.
    destruct (onMessageCreate_cases cfg now1 now2 message d)
      as [[_ Hd]|(parsed & did & Hl & Hp & Hid & Hins)]; [rewrite Hd; exact Hall|].
    destruct (String.eqb_spec (channelId message) (listenChannelId cfg)) as [Hch|Hch];
      [|rewrite (onMessageCreate_other_channel cfg now1 now2 message d Hch);
        exact Hall].
    pose proof (insertGather_Some _ _ _ _ _ _ _ _ _ _ _ Hins) as Hg'.
    rewrite Hg'. apply Forall_app. split; [exact Hall|].
    constructor; [|constructor].
    destruct (parsed_shape _ _ Hp) as (Ha & Hv & Hr & Hs).
    unfold well_formed. simpl.
    repeat split; try assumption; try lia.
  - intros now i. unfold onResetWeek. destruct (negb (has_manage_guild i)); [exact Hall|].
    destruct (deleteSince_all (sevenDaysAgoTs now) d) as (Hg & _).
    destruct (deleteSince (sevenDaysAgoTs now) None d) as [d1 n]. simpl in *.
    rewrite Hg. unfold older_than. apply List.Forall_forall. intros g Hin.
    apply list_elem_of_In, list_elem_of_filter in Hin as [_ Hin].
    rewrite List.Forall_forall in Hall. apply Hall, list_elem_of_In, Hin.
  - intros env e now out.
    apply List.Forall_forall. intros g Hin. apply cycle_rows_subset in Hin.
    rewrite List.Forall_forall in Hall. apply Hall. exact Hin.
Qed.

Lemma stored_rows_are_well_formed_witness :
  let d := mkDb [row_collect 1 0 "m1"] 1 [] None None in
  (forall now1 now2 message,
     Forall (well_formed cfg0)
       (gathers (snd (onMessageCreate cfg0 now1 now2 message d))))
  /\ (forall now i,
        Forall (well_formed cfg0) (gathers (snd (onResetWeek now i d))))
  /\ (forall env e now out,
        Forall (well_formed cfg0)
          (gathers (db (performWeeklyReportAndReset cfg0 env e now
                          (mkWorld d out))))).
Proof.
  apply (stored_rows_are_well_formed cfg0 (mkDb [row_collect 1 0 "m1"] 1 [] None None)).
  constructor; [|constructor].
  unfold well_formed. simpl. repeat split; try lia. apply Qle_refl.
Defined.

End CaptureFacts.

(** * The since filter *)

Section SinceFacts.
Import Js Regex Parse Store Bot Commands Reference Examples.

(** A greedy [c*] followed by something that accepts the rest: when the
    word of [p] is maximal, the continuation is run right after it. *)
Lemma exec_star_greedy p k x : forall w s rest,
  after s = w ++ rest ->
  forallb p w = true ->
  match rest with c :: _ => p c = false | [] => True end ->
  k (MState (rev w ++ before s) rest (groups s)) = Some x ->
  exec (Star (Cls p)) k s = Some x.
Proof.
  intros w s rest Ha Hw Hmax Hk. cbn [exec].
  set (loop := fix loop (fuel : nat) (s : mstate) {struct fuel} : option mstate :=
         match fuel with
         | O => k s
         | S fuel' =>
             match exec (Cls p) (fun s' =>
                                 if (length (after s') <? length (after s))%nat
                                 then loop fuel' s' else None) s with
             | Some x => Some x
             | None => k s
             end
         end).
  assert (Hloop : forall w fuel s0,
            (length w <= fuel)%nat ->
            after s0 = w ++ rest ->
            forallb p w = true ->
            k (MState (rev w ++ before s0) rest (groups s0)) = Some x ->
            loop fuel s0 = Some x).
  { clear w s Ha Hw Hk. induction w as [|c w IH]; intros fuel [b a g] Hf Ha Hw Hk;
      simpl in Ha, Hk; subst a.
    - destruct fuel; [exact Hk|]. cbn [loop]. fold loop. cbn [exec after].
      destruct rest as [|c r]; [exact Hk|]. rewrite Hmax. exact Hk.
    - destruct fuel as [|fuel]; [simpl in Hf; lia|].
      cbn [loop]. fold loop. cbn [exec after before groups].
      simpl in Hw. apply andb_true_iff in Hw as [Hc Hw]. rewrite Hc.
      replace (length (w ++ rest) <? length (c :: w ++ rest))%nat with true
        by (symmetry; apply Nat.ltb_lt; simpl; lia).
      rewrite (IH fuel (MState (c :: b) (w ++ rest) g)); [reflexivity | | | |].
      + simpl in Hf. lia.
      + reflexivity.
      + exact Hw.
      + simpl. rewrite <- app_assoc in Hk. exact Hk. }
  apply (Hloop w (S (length (after s))) s); try assumption.
  rewrite Ha, length_app. lia.
Qed.

Lemma exec_plus_greedy p k x c w s rest :
  after s = (c :: w) ++ rest ->
  forallb p (c :: w) = true ->
  match rest with c :: _ => p c = false | [] => True end ->
  k (MState (rev (c :: w) ++ before s) rest (groups s)) = Some x ->
  exec (Plus (Cls p)) k s = Some x.
Proof.
  intros Ha Hw Hmax Hk. unfold Plus.
  change (exec (Cat (Cls p) (Star (Cls p))) k s)
    with (match after s with
          | c :: tl => if p c then exec (Star (Cls p)) k
                                   (MState (c :: before s) tl (groups s))
                       else None
          | [] => None
          end).
  destruct (after s) as [|c0 tl] eqn:Ea; [discriminate|].
  inversion Ha; subst c0 tl.
  cbn [forallb] in Hw. apply andb_true_iff in Hw as [Hc Hw]. rewrite Hc.
  apply (exec_star_greedy p k x w _ rest); cbn [after before groups];
    try assumption; try reflexivity.
  cbn [rev] in Hk. rewrite <- app_assoc in Hk. exact Hk.
Qed.

Lemma unit_letter u :
  lower u = "h"%char \/ lower u = "d"%char ->
  is_digit u = false /\ is_space u = false.
Proof.
  destruct u as [[] [] [] [] [] [] [] []]; vm_compute;
    intros [H|H]; try discriminate H; split; reflexivity.
Qed.

Lemma space_not_digit c : is_space c = true -> is_digit c = false.
Proof.
  destruct c as [[] [] [] [] [] [] [] []]; vm_compute; intros H;
    first [reflexivity | discriminate H].
Qed.

Lemma lower_letter_eqc u c :
  eqc (lower u) (lower c) = true <-> lower u = lower c.
Proof.
  split; [apply eqc_eq | intros ->; apply eqc_refl].
Qed.

Lemma captured_app b w r g b' g' :
  captured (MState b (w ++ r) g) (MState b' r g') = w.
Proof.
  unfold captured. simpl. rewrite length_app.
  replace (length w + length r - length r)%nat with (length w) by lia.
  apply take_app_length.
Qed.

Lemma exec_unit_letter u b g :
  lower u = "h"%char \/ lower u = "d"%char ->
  exec (Cat (Grp 2 (Alt (ChrI "h") (ChrI "d"))) Eol) Some (MState b [u] g)
  = Some (MState (u :: b) [] ((2%nat, [u]) :: g)).
Proof.
  intros Hu.
  change (exec (Cat (Grp 2 (Alt (ChrI "h") (ChrI "d"))) Eol) Some (MState b [u] g))
    with (match (if eqc (lower u) (lower "h")
                 then Some (set_group 2 (captured (MState b [u] g)
                                                  (MState (u :: b) [] g))
                                      (MState (u :: b) [] g))
                 else None) with
          | Some x => Some x
          | None => if eqc (lower u) (lower "d")
                    then Some (set_group 2 (captured (MState b [u] g)
                                                     (MState (u :: b) [] g))
                                         (MState (u :: b) [] g))
                    else None
          end).
  destruct Hu as [Hu|Hu]; rewrite Hu; reflexivity.
Qed.

Lemma exec_since ds sp u :
  word_of is_digit ds ->
  forallb is_space sp = true ->
  lower u = "h"%char \/ lower u = "d"%char ->
  exec re_since Some (MState [] (ds ++ sp ++ [u]) [])
  = Some (MState (u :: rev sp ++ rev ds) [] [(2%nat, [u]); (1%nat, ds)]).
Proof.
  intros [Hne Hds] Hsp Hu.
  destruct (unit_letter u Hu) as [Hud Hus].
  destruct ds as [|d0 ds]; [contradiction|].
  set (s0 := MState [] ((d0 :: ds) ++ sp ++ [u]) []).
  change (exec re_since Some s0)
    with (exec (Plus digit)
            (fun s' => exec (Cat (Star space)
                               (Cat (Grp 2 (Alt (ChrI "h") (ChrI "d"))) Eol))
                         Some (set_group 1 (captured s0 s') s')) s0).
  apply (exec_plus_greedy is_digit _ _ d0 ds s0 (sp ++ [u])).
  - reflexivity.
  - exact Hds.
  - destruct sp as [|c sp]; simpl; [exact Hud|].
    simpl in Hsp. apply andb_true_iff in Hsp as [Hc _]. apply space_not_digit, Hc.
  - unfold s0. cbn [before groups]. rewrite captured_app, app_nil_r.
    unfold set_group. cbn [before after groups].
    change (exec (Cat (Star space) ?r) Some ?s)
      with (exec (Star space) (exec r Some) s).
    apply (exec_star_greedy is_space _ _ sp _ [u]).
    + reflexivity.
    + exact Hsp.
    + exact Hus.
    + cbn [before groups]. rewrite exec_unit_letter by exact Hu. reflexivity.
Qed.

Lemma search_from_here r pre_rev rest m :
  match_here r pre_rev rest = Some m -> search_from r pre_rev rest = Some m.
Proof. intros H. destruct rest; simpl; rewrite H; reflexivity. Qed.

Lemma search_since ds sp u :
  word_of is_digit ds ->
  forallb is_space sp = true ->
  lower u = "h"%char \/ lower u = "d"%char ->
  exists m, search re_since (ds ++ sp ++ [u]) = Some m
            /\ group 1 m = Some ds /\ group 2 m = Some [u].
Proof.
  intros Hds Hsp Hu. unfold search.
  assert (Hm : match_here re_since [] (ds ++ sp ++ [u])
               = Some (RMatch [] (take (length (ds ++ sp ++ [u]) - 0) (ds ++ sp ++ [u]))
                              [(2%nat, [u]); (1%nat, ds)] [])).
  { unfold match_here. rewrite (exec_since ds sp u Hds Hsp Hu). reflexivity. }
  eexists. split.
  - apply search_from_here. exact Hm.
  - split; reflexivity.
Qed.

Lemma search_since_sound t m :
  search re_since t = Some m ->
  exists ds sp u,
    t = ds ++ sp ++ [u]
    /\ word_of is_digit ds
    /\ forallb is_space sp = true
    /\ (lower u = "h"%char \/ lower u = "d"%char)
    /\ group 1 m = Some ds /\ group 2 m = Some [u].
Proof.
  intros Hs. apply search_sound in Hs as (pre_rev & rest & s' & Ht & M & G & _).
  unfold re_since in M.
  inv_cat M s1 M1 M2. inversion M1 as [| | | | | | | |s0 Hb| |]; subst; clear M1.
  simpl in Hb. subst pre_rev. cbn [rev app].
  inv_cat M2 s2 M3 M4. inv_grp M3 s3 M3'.
  apply matches_Plus_Cls_inv in M3' as (ds & Hlen & Hds).
  rewrite (captured_reads _ _ _ _ Hds) in M4.
  inv_cat M4 s4 M5 M6. apply matches_Star_Cls_inv in M5 as (sp & Hsp).
  inv_cat M6 s5 M7 M8. inv_grp M7 s6 M7'.
  assert (Hu : exists u, reads (fun _ => true) s4 [u] s6
                         /\ (lower u = "h"%char \/ lower u = "d"%char)).
  { inv_alt M7' Mu; apply matches_Cls_inv in Mu as (u & F & A & B & Gu);
      exists u; (split; [repeat split; assumption|]);
      simpl in F; rewrite andb_true_r in F; apply eqc_eq in F; auto. }
  destruct Hu as (u & Hur & Hu).
  rewrite (captured_reads _ _ _ _ Hur) in M8.
  inversion M8 as [| | | | | | | | |s0 He|]; subst; clear M8.
  destruct Hds as (Fd & Ad & _ & Gd), Hsp as (Fs & As & _ & Gs),
    Hur as (_ & Au & _ & Gu).
  simpl in *. rewrite He in Au.
  exists ds, sp, u. repeat split.
  - rewrite Ad, As, Au. reflexivity.
  - destruct ds; [simpl in Hlen; lia | discriminate].
  - exact Fd.
  - exact Fs.
  - exact Hu.
  - unfold group. rewrite G. simpl. rewrite Gu, Gs. reflexivity.
  - unfold group. rewrite G. simpl. reflexivity.
Qed.

(** A product of the exact arithmetic and the double the code computes
    for it: equal below 2^53, and both at least 2^53 otherwise. *)
Lemma double_mul_tracks x x' b :
  0 <= x -> 1 <= b ->
  (x < 2 ^ 53 /\ x' = x) \/ (2 ^ 53 <= x /\ 2 ^ 53 <= x') ->
  (x * b < 2 ^ 53 /\ double_mul x' b = x * b)
  \/ (2 ^ 53 <= x * b /\ 2 ^ 53 <= double_mul x' b).
Proof.
  intros Hx Hb H. assert (Hp : 0 < 2 ^ 53) by reflexivity.
  unfold double_mul. destruct H as [[Hs ->]|[Hl Hl']].
  - destruct (Z.lt_ge_cases (x * b) (2 ^ 53)) as [Hlt|Hge].
    + left. split; [exact Hlt|]. apply to_double_small. nia.
    + right. split; [exact Hge|]. apply to_double_large. exact Hge.
  - right. split; [nia|]. apply to_double_large. nia.
Qed.

Lemma Number_int_tracks ds :
  0 <= digits_val ds ->
  (digits_val ds < 2 ^ 53 /\ Number_int ds = digits_val ds)
  \/ (2 ^ 53 <= digits_val ds /\ 2 ^ 53 <= Number_int ds).
Proof.
  intros H. assert (Hp : 0 < 2 ^ 53) by reflexivity.
  destruct (Z.lt_ge_cases (digits_val ds) (2 ^ 53)) as [Hlt|Hge].
  - left. split; [exact Hlt|]. apply Number_int_exact. lia.
  - right. split; [exact Hge|]. apply to_double_large. exact Hge.
Qed.

(** The time the code subtracts [ms'] from, against the exact
    difference. *)
Lemma double_sub_tracks now x x' :
  0 <= now < 2 ^ 53 -> 0 <= x ->
  (x < 2 ^ 53 /\ x' = x) \/ (2 ^ 53 <= x /\ 2 ^ 53 <= x') ->
  (x < 2 ^ 53 -> double_sub now x' = now - x)
  /\ (2 ^ 53 <= x -> double_sub now x' < 0)
  /\ double_sub now x' <= now.
Proof.
  intros Hn Hx H. unfold double_sub. destruct H as [[Hs ->]|[Hl Hl']].
  - rewrite to_double_small by lia. repeat split; lia.
  - assert (Hneg : to_double (now - x') < 0) by (apply to_double_neg; lia).
    repeat split; lia.
Qed.

(** The time a since filter of the accepted format yields. *)
Lemma parseSinceToTs_format now s n unit_ms :
  0 <= now < 2 ^ 53 ->
  since_format (trim (cs s)) n unit_ms ->
  exists ts,
    parseSinceToTs now (Some s) = Some ts
    /\ (n * unit_ms < 2 ^ 53 -> ts = now - n * unit_ms)
    /\ (2 ^ 53 <= n * unit_ms -> ts < 0)
    /\ ts <= now.
Proof.
  intros Hnow (ds & sp & u & Ht & Hds & Hsp & Hn & Hu).
  assert (He : is_empty s = false).
  { destruct s; [|reflexivity]. exfalso. simpl in Ht.
    destruct ds; [destruct sp|]; discriminate. }
  assert (Hu' : lower u = "h"%char \/ lower u = "d"%char) by tauto.
  destruct (search_since ds sp u Hds Hsp Hu') as (m & Hm & G1 & G2).
  assert (H0 : 0 <= digits_val ds) by (apply digits_val_nonneg, Hds).
  pose proof (Number_int_tracks ds H0) as T0.
  unfold parseSinceToTs. rewrite He, Ht, Hm, G1, G2. cbv zeta.
  simpl toLowerCase. subst n.
  destruct Hu as [[Hu ->]|[Hu ->]]; rewrite Hu; simpl eqs; cbv iota.
  - assert (B60 : 1 <= 60) by lia. assert (B1000 : 1 <= 1000) by lia.
    pose proof (double_mul_tracks _ _ 60 H0 B60 T0) as T1.
    assert (H1 : 0 <= digits_val ds * 60) by lia.
    pose proof (double_mul_tracks _ _ 60 H1 B60 T1) as T2.
    assert (H2 : 0 <= digits_val ds * 60 * 60) by lia.
    pose proof (double_mul_tracks _ _ 1000 H2 B1000 T2) as T3.
    replace (digits_val ds * 60 * 60 * 1000) with (digits_val ds * 3600000)
      in T3 by lia.
    eexists. split; [reflexivity|].
    apply double_sub_tracks; [exact Hnow | lia | exact T3].
  - assert (B24 : 1 <= 24) by lia. assert (B60 : 1 <= 60) by lia.
    assert (B1000 : 1 <= 1000) by lia.
    pose proof (double_mul_tracks _ _ 24 H0 B24 T0) as T1.
    assert (H1 : 0 <= digits_val ds * 24) by lia.
    pose proof (double_mul_tracks _ _ 60 H1 B60 T1) as T2.
    assert (H2 : 0 <= digits_val ds * 24 * 60) by lia.
    pose proof (double_mul_tracks _ _ 60 H2 B60 T2) as T3.
    assert (H3 : 0 <= digits_val ds * 24 * 60 * 60) by lia.
    pose proof (double_mul_tracks _ _ 1000 H3 B1000 T3) as T4.
    replace (digits_val ds * 24 * 60 * 60 * 1000)
      with (digits_val ds * 86400000) in T4 by lia.
    eexists. split; [reflexivity|].
    apply double_sub_tracks; [exact Hnow | lia | exact T4].
Qed.

(** X16: a since filter is accepted exactly when, after trimming, it is a
    run of digits, optional white space and the letter h or d in either
    case.  With the clock a time below 2^53, the time it yields is now
    minus that many hours or days as long as that many milliseconds are below
    2^53, and a time before 0 otherwise (the code computes in doubles and
    rounds from there on); so it never lies in the future. *)
Theorem since_filter_format now s :
  s <> ""%string ->
  0 <= now < 2 ^ 53 ->
  (forall ts,
     parseSinceToTs now (Some s) = Some ts ->
     exists n unit_ms,
       since_format (trim (cs s)) n unit_ms
       /\ (n * unit_ms < 2 ^ 53 -> ts = now - n * unit_ms)
       /\ (2 ^ 53 <= n * unit_ms -> ts < 0)
       /\ ts <= now)
  /\ (forall n unit_ms,
        since_format (trim (cs s)) n unit_ms ->
        exists ts,
          parseSinceToTs now (Some s) = Some ts
          /\ (n * unit_ms < 2 ^ 53 -> ts = now - n * unit_ms)
          /\ (2 ^ 53 <= n * unit_ms -> ts < 0)
          /\ ts <= now)
  /\ (parseSinceToTs now (Some s) = None <->
      forall n unit_ms, ~ since_format (trim (cs s)) n unit_ms).
Proof.
  intros Hne Hnow.
  assert (He : is_empty s = false) by (destruct s; [contradiction | reflexivity]).
  assert (Hsound : forall ts,
            parseSinceToTs now (Some s) = Some ts ->
            exists n unit_ms, since_format (trim (cs s)) n unit_ms).
  { intros ts. unfold parseSinceToTs. rewrite He.
    destruct (search re_since (trim (cs s))) as [m|] eqn:Es; [|discriminate].
    apply search_since_sound in Es
      as (ds & sp & u & Ht & Hds & Hsp & Hu & G1 & G2).
    intros _. exists (digits_val ds).
    destruct Hu as [Hu|Hu].
    - exists 3600000, ds, sp, u. repeat split; try apply Hds; auto.
    - exists 86400000, ds, sp, u. repeat split; try apply Hds; auto. }
  split; [|split].
  - intros ts Hts. destruct (Hsound ts Hts) as (n & unit_ms & Hf).
    exists n, unit_ms. split; [exact Hf|].
    destruct (parseSinceToTs_format now s n unit_ms Hnow Hf) as (ts' & Hp & Hv).
    rewrite Hts in Hp. inversion Hp; subst ts'. exact Hv.
  - intros n unit_ms Hf. apply parseSinceToTs_format; assumption.
  - split.
    + intros Hnone n unit_ms Hf.
      destruct (parseSinceToTs_format now s n unit_ms Hnow Hf) as (ts & Hp & _).
      congruence.
    + intros Hno. destruct (parseSinceToTs now (Some s)) as [ts|] eqn:Ep;
        [|reflexivity].
      destruct (Hsound ts eq_refl) as (n & unit_ms & Hf).
      exfalso. exact (Hno n unit_ms Hf).
Qed.

Lemma since_filter_format_witness :
  exists ts,
    parseSinceToTs 1709560800000 (Some " 24H "%string) = Some ts
    /\ (24 * 3600000 < 2 ^ 53 -> ts = 1709560800000 - 24 * 3600000)
    /\ (2 ^ 53 <= 24 * 3600000 -> ts < 0)
    /\ ts <= 1709560800000.
Proof.
  refine (proj1 (proj2 (since_filter_format 1709560800000 " 24H " _ _))
            24 3600000 _).
  - discriminate.
  - split; [lia | reflexivity].
  - exists (cs "24"), [], "H"%char. vm_compute.
    repeat split; try discriminate; try reflexivity. left. split; reflexivity.
Defined.

(** The filter [9007199254740993h] is accepted; the code reads the
    number as 2^53 and yields a time far before 0, which is not now minus
    that many hours. *)
Lemma since_is_rounded :
  parseSinceToTs 1000000000 (Some "9007199254740993h"%string)
  = Some (- 32425917317066572955648)
  /\ 1000000000 - 9007199254740993 * 3600000 <> - 32425917317066572955648.
Proof. vm_compute. split; [reflexivity | discriminate]. Qed.

End SinceFacts.

(** * The marker from one date to the next *)

Section DateFacts.
Import Js Regex Parse Store Bot Commands Reference Examples.

Lemma string_app_inj (a a' b b' : string) :
  String.length a = String.length a' ->
  (a ++ b)%string = (a' ++ b')%string -> a = a' /\ b = b'.
Proof.
  revert a'. induction a as [|c a IH]; intros [|c' a'] Hlen H; simpl in *;
    try discriminate.
  - auto.
  - inversion H; subst. inversion Hlen as [Hl].
    destruct (IH a' Hl) as [-> ->]; auto.
Qed.

Lemma string_app_length (a b : string) :
  String.length (a ++ b) = (String.length a + String.length b)%nat.
Proof. induction a; simpl; [reflexivity | rewrite IHa; reflexivity]. Qed.

(** Months and days print as two characters that spell the number. *)
Lemma pad2_value m :
  0 <= m <= 31 ->
  String.length (pad2 m) = 2%nat /\ digits_val (cs (pad2 m)) = m.
Proof.
  intros H. destruct m as [|p|p]; try lia; [vm_compute; auto|].
  do 5 (try destruct p as [p|p|]); try (exfalso; lia); vm_compute; auto.
Qed.

Lemma pad2_inj m m' : 0 <= m <= 31 -> 0 <= m' <= 31 -> pad2 m = pad2 m' -> m = m'.
Proof.
  intros H H' E. destruct (pad2_value m H) as [_ <-].
  destruct (pad2_value m' H') as [_ <-]. rewrite E. reflexivity.
Qed.

Lemma date_str_inj p q :
  calendar_date p -> calendar_date q -> date_str p = date_str q -> same_date p q.
Proof.
  intros (Hy & Hm & Hd) (Hy' & Hm' & Hd') E. unfold date_str in E.
  destruct (pad2_value (dp_month p)) as [Lm _]; [lia|].
  destruct (pad2_value (dp_month q)) as [Lm' _]; [lia|].
  destruct (pad2_value (dp_day p)) as [Ld _]; [lia|].
  destruct (pad2_value (dp_day q)) as [Ld' _]; [lia|].
  assert (Hlen : String.length (pretty (dp_year p))
                 = String.length (pretty (dp_year q))).
  { apply (f_equal String.length) in E.
    rewrite !string_app_length, Lm, Lm', Ld, Ld' in E. simpl in E. lia. }
  apply string_app_inj in E as [Ey E]; [|exact Hlen].
  apply (string_app_inj "-" "-") in E as [_ E]; [|reflexivity].
  apply string_app_inj in E as [Em E]; [|rewrite Lm, Lm'; reflexivity].
  apply (string_app_inj "-" "-") in E as [_ Ed]; [|reflexivity].
  repeat split.
  - apply (inj pretty). exact Ey.
  - apply pad2_inj; [lia | lia | exact Em].
  - apply pad2_inj; [lia | lia | exact Ed].
Qed.

(** X17: at the configured slot, a marker written on a calendar date
    blocks the cycle exactly on that date: the tick fires on every other
    date, so the marker of one week never holds back the next. *)
Theorem marker_blocks_only_its_date cfg env e clk w prev :
  calendar_date (nowParts clk) ->
  calendar_date prev ->
  at_slot clk w ->
  getLastReportDate (db w) = Some (date_str prev) ->
  (fst (tick cfg env e clk w) = false <-> same_date (nowParts clk) prev)
  /\ (~ same_date (nowParts clk) prev ->
      fst (tick cfg env e clk w) = true
      /\ getLastReportDate (db (snd (tick cfg env e clk w)))
         = Some (date_str (nowParts clk))).
Proof.
  intros Hc Hp Hslot Hmark.
  assert (Hiff : fst (tick cfg env e clk w) = false <-> same_date (nowParts clk) prev).
  { split.
    - intros Hf. destruct (tick_cases cfg env e clk w) as [Hidle|[Ht _]];
        [|congruence].
      unfold tick in Hidle. unfold at_slot in Hslot. rewrite Hslot, Hmark in Hidle.
      destruct (opt_string_eqb _ _) eqn:E; [|discriminate].
      apply opt_string_eqb_Some in E. inversion E as [E'].
      apply date_str_inj; auto.
    - intros Hs. rewrite tick_marked; [reflexivity|].
      rewrite Hmark, (same_date_str _ _ Hs). reflexivity. }
  split; [exact Hiff|].
  intros Hn. destruct (tick_cases cfg env e clk w) as [Hidle|H]; [|exact H].
  exfalso. apply Hn, Hiff. rewrite Hidle. reflexivity.
Qed.

Lemma marker_blocks_only_its_date_witness :
  (fst (tick cfg0 env_ok engine_a monday_0900
          (mkWorld (setLastReportDate (Some "2024-02-26"%string) db_week) []))
   = false
   <-> same_date (nowParts monday_0900) (mkDateParts 2024 2 26 9 0 1))
  /\ (~ same_date (nowParts monday_0900) (mkDateParts 2024 2 26 9 0 1) ->
      fst (tick cfg0 env_ok engine_a monday_0900
             (mkWorld (setLastReportDate (Some "2024-02-26"%string) db_week) []))
      = true
      /\ getLastReportDate
           (db (snd (tick cfg0 env_ok engine_a monday_0900
                       (mkWorld (setLastReportDate (Some "2024-02-26"%string)
                                   db_week) []))))
         = Some (date_str (nowParts monday_0900))).
Proof.
  apply (marker_blocks_only_its_date cfg0 env_ok engine_a monday_0900
           (mkWorld (setLastReportDate (Some "2024-02-26"%string) db_week) [])
           (mkDateParts 2024 2 26 9 0 1)).
  - cbv. repeat split; discriminate.
  - cbv. repeat split; discriminate.
  - reflexivity.
  - reflexivity.
Defined.

End DateFacts.

(** * The registered commands and their handlers *)

Section RegistrationFacts.
Import Js Regex Parse Store Bot Commands Reference Examples.

Lemma onInteractionCreate_NoReply cfg env e now i w :
  fst (onInteractionCreate cfg env e now i w) = NoReply
  <-> ~ In (commandName i)
        ["totals"; "leaderboard"; "reset_week"; "subscribe_reports";
         "unsubscribe_reports"; "set_report_schedule"; "get_report_schedule";
         "run_weekly_report_now"]%string.
Proof.
  unfold onInteractionCreate. cbv zeta.
  destruct (String.eqb_spec (commandName i) "totals") as [E|N1];
    [rewrite E; split; [discriminate | intros H; exfalso; apply H; simpl; tauto]|].
  destruct (String.eqb_spec (commandName i) "leaderboard") as [E|N2].
  { rewrite E. split; [|intros H; exfalso; apply H; simpl; tauto].
    unfold onLeaderboard. cbv zeta. destruct (topUsers _ _ _ _ _); discriminate. }
  destruct (String.eqb_spec (commandName i) "reset_week") as [E|N3].
  { rewrite E. split; [|intros H; exfalso; apply H; simpl; tauto].
    unfold onResetWeek. destruct (negb _); [discriminate|].
    destruct (deleteSince _ _ _); discriminate. }
  destruct (String.eqb_spec (commandName i) "subscribe_reports") as [E|N4];
    [rewrite E; split; [discriminate | intros H; exfalso; apply H; simpl; tauto]|].
  destruct (String.eqb_spec (commandName i) "unsubscribe_reports") as [E|N5];
    [rewrite E; split; [discriminate | intros H; exfalso; apply H; simpl; tauto]|].
  destruct (String.eqb_spec (commandName i) "set_report_schedule") as [E|N6].
  { rewrite E. split; [|intros H; exfalso; apply H; simpl; tauto].
    unfold onSetReportSchedule. destruct (negb _); [discriminate|].
    destruct (opt_weekday i), (opt_hour i), (opt_minute i); try discriminate.
    destruct (_ || _); discriminate. }
  destruct (String.eqb_spec (commandName i) "get_report_schedule") as [E|N7];
    [rewrite E; split; [discriminate | intros H; exfalso; apply H; simpl; tauto]|].
  destruct (String.eqb_spec (commandName i) "run_weekly_report_now") as [E|N8].
  { rewrite E. split; [|intros H; exfalso; apply H; simpl; tauto].
    unfold onRunWeeklyReportNow. destruct (negb _); discriminate. }
  split; [|reflexivity]. intros _ H. simpl in H.
  repeat (destruct H as [H|H]; [congruence|]). exact H.
Qed.

Lemma interactionCreate_reply ok cfg env e now i w :
  String.eqb (commandName i) "weekly_totals" = false ->
  fst (interactionCreate ok cfg env e now true i w)
  = match fst (onInteractionCreate cfg env e now i w) with
    | NoReply => Ignored
    | r => Replied r
    end.
Proof.
  intros Hw. unfold interactionCreate. simpl negb. cbv iota. rewrite Hw.
  destruct (onInteractionCreate cfg env e now i w) as [r w']. simpl.
  destruct r; reflexivity.
Qed.

(** X18: the table registered by deploy-commands.js and the handlers of
    the listener agree: a chat input command goes unanswered exactly if its
    name is not in the table, so each of the nine registered commands has a
    handler and no handler is without a registration; and an interaction
    that carries the options the table marks as required is never answered
    with "Invalid arguments". *)
Theorem registered_commands_are_answered ok cfg env e now i w :
  (fst (interactionCreate ok cfg env e now true i w) = Ignored
   <-> ~ In (commandName i) (map c_name commands))
  /\ (registered i ->
      fst (interactionCreate ok cfg env e now true i w) <> Ignored
      /\ fst (interactionCreate ok cfg env e now true i w)
         <> Replied ReplyInvalidArguments).
Proof.
  assert (Hiff : fst (interactionCreate ok cfg env e now true i w) = Ignored
                 <-> ~ In (commandName i) (map c_name commands)).
  { destruct (String.eqb_spec (commandName i) "weekly_totals") as [E|N].
    - unfold interactionCreate. simpl negb. cbv iota.
      rewrite (proj2 (String.eqb_eq _ _) E). simpl fst.
      split; [discriminate|]. intros H. exfalso. apply H. rewrite E. simpl. tauto.
    - rewrite interactionCreate_reply by (apply String.eqb_neq; exact N).
      pose proof (onInteractionCreate_NoReply cfg env e now i w) as Hn.
      split.
      + intros H. destruct (fst (onInteractionCreate cfg env e now i w));
          try discriminate.
        pose proof (proj1 Hn eq_refl) as Hnot. intros Hin. apply Hnot.
        simpl in Hin |- *. intuition congruence.
      + intros H. rewrite (proj2 Hn); [reflexivity|].
        intros Hin. apply H. simpl in Hin |- *. intuition congruence. }
  split; [exact Hiff|].
  intros (c & Hin & Hname & Hreq). split.
  - intros Hi. apply Hiff in Hi. apply Hi. rewrite <- Hname. apply in_map. exact Hin.
  - destruct (String.eqb_spec (commandName i) "weekly_totals") as [E|N].
    { unfold interactionCreate. simpl negb. cbv iota.
      rewrite (proj2 (String.eqb_eq _ _) E). discriminate. }
    rewrite interactionCreate_reply by (apply String.eqb_neq; exact N).
    intros Hbad.
    assert (Hr : fst (onInteractionCreate cfg env e now i w) = ReplyInvalidArguments).
    { destruct (fst (onInteractionCreate cfg env e now i w)); try discriminate.
      reflexivity. }
    clear Hbad. revert Hr. unfold onInteractionCreate. cbv zeta.
    destruct (String.eqb (commandName i) "totals"); [discriminate|].
    destruct (String.eqb (commandName i) "leaderboard").
    { unfold onLeaderboard. cbv zeta. destruct (topUsers _ _ _ _ _); discriminate. }
    destruct (String.eqb (commandName i) "reset_week").
    { unfold onResetWeek. destruct (negb _); [discriminate|].
      destruct (deleteSince _ _ _); discriminate. }
    destruct (String.eqb (commandName i) "subscribe_reports"); [discriminate|].
    destruct (String.eqb (commandName i) "unsubscribe_reports"); [discriminate|].
    destruct (String.eqb_spec (commandName i) "set_report_schedule") as [E|N6].
    { assert (Hc : c = mkCommand "set_report_schedule"
                         [mkOption "weekday" IntegerOption true;
                          mkOption "hour" IntegerOption true;
                          mkOption "minute" IntegerOption true]).
      { rewrite E in Hname. simpl in Hin.
        repeat (destruct Hin as [<-|Hin]; [try discriminate Hname; try reflexivity|]).
        destruct Hin. }
      subst c.
      pose proof (Hreq (mkOption "weekday" IntegerOption true)
                    ltac:(simpl; tauto) eq_refl) as Hw.
      pose proof (Hreq (mkOption "hour" IntegerOption true)
                    ltac:(simpl; tauto) eq_refl) as Hh.
      pose proof (Hreq (mkOption "minute" IntegerOption true)
                    ltac:(simpl; tauto) eq_refl) as Hm.
      unfold option_present in Hw, Hh, Hm. simpl in Hw, Hh, Hm.
      unfold onSetReportSchedule. destruct (negb _); [discriminate|].
      destruct (opt_weekday i); [|discriminate Hw].
      destruct (opt_hour i); [|discriminate Hh].
      destruct (opt_minute i); [|discriminate Hm].
      destruct (_ || _); discriminate. }
    destruct (String.eqb (commandName i) "get_report_schedule"); [discriminate|].
    destruct (String.eqb (commandName i) "run_weekly_report_now"); [|discriminate].
    unfold onRunWeeklyReportNow. destruct (negb _); discriminate.
Qed.

End RegistrationFacts.

(** * The reply of weekly_totals *)

Section WeeklyTotalsFacts.
Import Js Regex Parse Store Bot Commands Reference Examples.

Lemma group_by_user_nil rows : group_by_user rows = [] -> rows = [].
Proof.
  destruct rows as [|g tl]; [reflexivity|]. unfold group_by_user. simpl. discriminate.
Qed.

Lemma filter_nil_iff {A} (p : A -> bool) (l : list A) :
  filter (fun x => p x) l = [] <-> forall x, In x l -> p x = false.
Proof.
  induction l as [|a tl IH]; [simpl; tauto|].
  rewrite filter_cons_bool. split.
  - intros H x [<-|Hin].
    + destruct (p a); [discriminate | reflexivity].
    + destruct (p a); [discriminate|]. apply IH; assumption.
  - intros H. rewrite (H a (or_introl eq_refl)). apply IH.
    intros x Hin. apply H. right. exact Hin.
Qed.

Lemma weeklyPerUser_length e since_ts d :
  conforms e ->
  length (weeklyPerUser e since_ts d)
  = length (group_keys []
              (filter (fun g => (since_ts <=? g_ts g) && is_some (g_discord_id g))
                      (gathers d))).
Proof.
  intros He. unfold weeklyPerUser. cbv zeta.
  destruct (He (group_by_user
                  (filter (fun g => (since_ts <=? g_ts g) && is_some (g_discord_id g))
                          (gathers d)))) as [Hperm _].
  rewrite <- (Permutation_length Hperm). unfold group_by_user.
  apply length_map.
Qed.

Lemma person_blocks_length env rows : forall rank,
  length (person_blocks env rank rows) = length rows.
Proof.
  induction rows as [|r tl IH]; intros rank; [reflexivity|].
  simpl. rewrite IH. reflexivity.
Qed.

(** X19: for a conforming engine, weekly_totals answers "No data in the
    last 7 days" exactly if no stored row of the last seven days has an
    actor; otherwise it defers the reply and posts, as follow-ups in order,
    the summary and one embed per actor with a row in that window, and
    reports the number of these actors. *)
Theorem weekly_totals_reply ok env e now d :
  conforms e ->
  let since_ts := sevenDaysAgoTs now in
  let window := filter (fun g => (since_ts <=? g_ts g) && is_some (g_discord_id g))
                       (gathers d) in
  (onWeeklyTotals ok env e now d = WeeklyNoData
   <-> forall g, In g (gathers d) -> now - 604800000 <= g_ts g ->
                 g_discord_id g = None)
  /\ (forall calls n,
        onWeeklyTotals ok env e now d = WeeklyPosted calls n ->
        calls = map CallFollowUp (batches (length (weekly_embeds env e since_ts d))
                                    (weekly_embeds env e since_ts d))
        /\ concat (map call_batch calls) = weekly_embeds env e since_ts d
        /\ n = Z.of_nat (length (group_keys [] window))
        /\ 1 <= n
        /\ length (weekly_embeds env e since_ts d) = S (Z.to_nat n)
        /\ forall g, In g window ->
             In (g_discord_id g) (map u_discord_id (weeklyPerUser e since_ts d))).
Proof.
  intros He since_ts window.
  assert (Hlen : length (weeklyPerUser e since_ts d) = length (group_keys [] window))
    by (apply weeklyPerUser_length; exact He).
  assert (Hempty : weeklyPerUser e since_ts d = [] <-> window = []).
  { split.
    - intros H. rewrite H in Hlen. simpl in Hlen.
      destruct window as [|g tl]; [reflexivity|]. simpl in Hlen. discriminate.
    - intros H. rewrite H in Hlen. simpl in Hlen.
      destruct (weeklyPerUser e since_ts d); [reflexivity | discriminate]. }
  assert (Hwin : window = [] <->
                 forall g, In g (gathers d) -> now - 604800000 <= g_ts g ->
                           g_discord_id g = None).
  { unfold window. change (now - 604800000) with since_ts.
    rewrite filter_nil_iff. split.
    - intros H g Hin Hts. specialize (H g Hin).
      apply andb_false_iff in H as [H|H].
      + apply Z.leb_gt in H. lia.
      + destruct (g_discord_id g); [discriminate | reflexivity].
    - intros H g Hin. destruct (since_ts <=? g_ts g) eqn:E; [|reflexivity].
      apply Z.leb_le in E. rewrite (H g Hin E). reflexivity. }
  split.
  - rewrite <- Hwin, <- Hempty. unfold onWeeklyTotals. cbv zeta. fold since_ts.
    destruct (weeklyPerUser e since_ts d); [tauto|].
    split; intros H; discriminate H.
  - intros calls n Hposted.
    assert (Hemb : length (weekly_embeds env e since_ts d)
                   = S (length (group_keys [] window))).
    { unfold weekly_embeds. cbv zeta. simpl length.
      rewrite length_map, person_blocks_length, <- Hlen. reflexivity. }
    assert (Hcalls : fst (sendEmbedsInBatches ok deferred_interaction
                            (weekly_embeds env e since_ts d))
                     = map CallFollowUp
                         (batches (length (weekly_embeds env e since_ts d))
                            (weekly_embeds env e since_ts d))).
    { unfold sendEmbedsInBatches. apply send_batches_deferred; reflexivity. }
    assert (Hcase : weeklyPerUser e since_ts d <> []
                    /\ calls = fst (sendEmbedsInBatches ok deferred_interaction
                                      (weekly_embeds env e since_ts d))
                    /\ n = Z.of_nat (length (weekly_embeds env e since_ts d)) - 1).
    { revert Hposted. unfold onWeeklyTotals. cbv zeta. fold since_ts.
      destruct (weeklyPerUser e since_ts d) as [|r rows]; [discriminate|].
      intros H. injection H as Hc Hn. split; [discriminate|]. split; [symmetry; exact Hc | symmetry; exact Hn]. }
    destruct Hcase as (Hne & -> & ->).
    assert (Hpos : (1 <= length (group_keys [] window))%nat).
    { rewrite <- Hlen. destruct (weeklyPerUser e since_ts d); [congruence|]. simpl. lia. }
    split; [exact Hcalls|].
    split.
    { rewrite Hcalls.
      assert (Hm : forall bs, map call_batch (map CallFollowUp bs) = bs)
        by (induction bs as [|b bs IHb]; [reflexivity|];
            cbn [map call_batch]; rewrite IHb; reflexivity).
      rewrite Hm. apply batches_concat. lia. }
    split; [rewrite Hemb; lia|].
    split; [rewrite Hemb; lia|].
    split; [rewrite Hemb; f_equal; lia|].
    intros g Hin.
    destruct (He (group_by_user window)) as [Hperm _].
    assert (Hk : In (g_discord_id g) (map u_discord_id (group_by_user window))).
    { rewrite group_by_user_keys.
      destruct (group_keys_complete window [] g Hin) as [[]|Hk]. exact Hk. }
    apply (Permutation_in _ (Permutation_map u_discord_id Hperm)) in Hk. exact Hk.
Qed.

Lemma weekly_totals_reply_witness :
  (onWeeklyTotals (fun _ => true) env_ok engine_a 1709560800000 db_week = WeeklyNoData
   <-> forall g, In g (gathers db_week) -> 1709560800000 - 604800000 <= g_ts g ->
                 g_discord_id g = None).
Proof.
  apply (proj1 (weekly_totals_reply (fun _ => true) env_ok engine_a 1709560800000
                  db_week engine_a_conforms)).
Defined.

End WeeklyTotalsFacts.

(** * Totals and leaderboard over a window *)

Section WindowFacts.
Import Js Regex Parse Store Bot Commands Reference Examples.

(** On a ledger of times from 0 on, the time the code computes for a
    since filter selects the rows the exact time selects. *)
Lemma since_window now n unit_ms ts (rows : list Gather) :
  0 <= now < 2 ^ 53 ->
  (n * unit_ms < 2 ^ 53 -> ts = now - n * unit_ms) ->
  (2 ^ 53 <= n * unit_ms -> ts < 0) ->
  forall g, In g rows -> 0 <= g_ts g ->
            (ts <=? g_ts g) = (now - n * unit_ms <=? g_ts g).
Proof.
  intros Hnow Hs Hl g _ Hg.
  destruct (Z.lt_ge_cases (n * unit_ms) (2 ^ 53)) as [Hlt|Hge].
  - rewrite (Hs Hlt). reflexivity.
  - specialize (Hl Hge).
    rewrite (proj2 (Z.leb_le ts (g_ts g))) by lia.
    rewrite (proj2 (Z.leb_le (now - n * unit_ms) (g_ts g))) by lia.
    reflexivity.
Qed.

(** X20: with a since filter of the accepted format and a clock below
    2^53, totals reports the eggs and the milk of exactly the stored rows
    from the time on that the filter yields, under the label "last" followed
    by the filter as typed (when that time is not 0), and leaderboard answers
    from the actors' query with the same lower bound, labelled with the
    filter as typed.  On a ledger of times from 0 on that bound selects the
    rows that are not older than that many hours or days: the rows with a
    time of at least now minus n units. *)
Theorem totals_over_a_window env e now i s n unit_ms d :
  opt_since i = Some s ->
  since_format (trim (cs s)) n unit_ms ->
  0 <= now < 2 ^ 53 ->
  exists ts,
    parseSinceToTs now (Some s) = Some ts
    /\ (ts <> 0 ->
        onTotals now i d
        = ReplyTotals ("last " ++ s)
            (sum_amount eggs (filter (fun g => ts <=? g_ts g) (gathers d)))
            (sum_amount milk (filter (fun g => ts <=? g_ts g) (gathers d))))
    /\ onLeaderboard env e now i d
       = match topUsers e (Some ts) None (effective_limit (opt_limit i)) d with
         | [] => ReplyNoData
         | rows => ReplyLeaderboard s (person_blocks env 1 rows)
         end
    /\ (now - n * unit_ms <> 0 ->
        Forall (fun g => 0 <= g_ts g) (gathers d) ->
        let window := filter (fun g => now - n * unit_ms <=? g_ts g) (gathers d) in
        onTotals now i d
        = ReplyTotals ("last " ++ s) (sum_amount eggs window) (sum_amount milk window)
        /\ (forall g, In g window <->
                      In g (gathers d) /\ now - n * unit_ms <= g_ts g)
        /\ onLeaderboard env e now i d
           = match topUsers e (Some (now - n * unit_ms)) None
                     (effective_limit (opt_limit i)) d with
             | [] => ReplyNoData
             | rows => ReplyLeaderboard s (person_blocks env 1 rows)
             end).
Proof.
  intros Hs Hf Hnow.
  destruct (parseSinceToTs_format now s n unit_ms Hnow Hf)
    as (ts & Hp & Hsmall & Hlarge & _).
  assert (He : is_empty s = false).
  { destruct s; [|reflexivity]. vm_compute in Hp. discriminate. }
  assert (Htot : ts <> 0 ->
            onTotals now i d
            = ReplyTotals ("last " ++ s)
                (sum_amount eggs (filter (fun g => ts <=? g_ts g) (gathers d)))
                (sum_amount milk (filter (fun g => ts <=? g_ts g) (gathers d)))).
  { intros Hz. unfold onTotals. cbv zeta. rewrite Hs, Hp.
    apply Z.eqb_neq in Hz. rewrite Hz. unfold since_or. rewrite He.
    unfold sumTotals. cbv zeta. cbn [t_eggs t_milk].
    rewrite (filter_bool_ext
               (fun g => null_or_eq_Z None (g_ranch_id g)
                         && null_or_since (Some ts) (g_ts g))
               (fun g => ts <=? g_ts g))
      by (intros g; reflexivity).
    reflexivity. }
  assert (Hlead : onLeaderboard env e now i d
                  = match topUsers e (Some ts) None
                            (effective_limit (opt_limit i)) d with
                    | [] => ReplyNoData
                    | rows => ReplyLeaderboard s (person_blocks env 1 rows)
                    end).
  { unfold onLeaderboard. cbv zeta. rewrite Hs, Hp. unfold since_or. rewrite He.
    destruct (topUsers e (Some ts) None (effective_limit (opt_limit i)) d);
      reflexivity. }
  exists ts. split; [exact Hp|]. split; [exact Htot|]. split; [exact Hlead|].
  intros Hnz Hts window.
  assert (Hz : ts <> 0).
  { destruct (Z.lt_ge_cases (n * unit_ms) (2 ^ 53)) as [Hlt|Hge].
    - rewrite (Hsmall Hlt). exact Hnz.
    - specialize (Hlarge Hge). lia. }
  assert (Hw : forall g, In g (gathers d) ->
                         (ts <=? g_ts g) = (now - n * unit_ms <=? g_ts g)).
  { intros g Hin. apply (since_window now n unit_ms ts (gathers d)); try assumption.
    rewrite List.Forall_forall in Hts. apply Hts. exact Hin. }
  split; [|split].
  - rewrite (Htot Hz). unfold window.
    rewrite (filter_ext_in_bool (fun g => ts <=? g_ts g)
               (fun g => now - n * unit_ms <=? g_ts g) (gathers d) Hw).
    reflexivity.
  - intros g. unfold window.
    rewrite <- !list_elem_of_In, list_elem_of_filter. split.
    + intros [Hle Hin]. apply Is_true_true, Z.leb_le in Hle. auto.
    + intros [Hin Hle]. split; [apply Is_true_true, Z.leb_le; exact Hle | exact Hin].
  - rewrite Hlead.
    assert (Ht : topUsers e (Some ts) None (effective_limit (opt_limit i)) d
                 = topUsers e (Some (now - n * unit_ms)) None
                     (effective_limit (opt_limit i)) d).
    { unfold topUsers, top_candidates. cbv zeta.
      rewrite (filter_ext_in_bool
                 (fun g => null_or_since (Some ts) (g_ts g)
                           && null_or_eq_Z None (g_ranch_id g)
                           && is_some (g_discord_id g))
                 (fun g => null_or_since (Some (now - n * unit_ms)) (g_ts g)
                           && null_or_eq_Z None (g_ranch_id g)
                           && is_some (g_discord_id g)))
        by (intros g Hin; simpl; rewrite (Hw g Hin); reflexivity).
      reflexivity. }
    rewrite Ht. reflexivity.
Qed.

Lemma totals_over_a_window_witness :
  onTotals 1709560800000
    (mkInteraction "totals" (Some " 24h"%string) None None None None "U" false) db_week
  = ReplyTotals "last  24h"
      (sum_amount eggs (filter (fun g => 1709560800000 - 24 * 3600000 <=? g_ts g)
                               (gathers db_week)))
      (sum_amount milk (filter (fun g => 1709560800000 - 24 * 3600000 <=? g_ts g)
                               (gathers db_week))).
Proof.
  destruct (totals_over_a_window env_ok engine_a 1709560800000
              (mkInteraction "totals" (Some " 24h"%string) None None None None
                 "U" false)
              " 24h" 24 3600000 db_week eq_refl) as (ts & _ & _ & _ & H).
  - exists (cs "24"), [], "h"%char. vm_compute.
    repeat split; try discriminate; try reflexivity. left. split; reflexivity.
  - split; [lia | reflexivity].
  - assert (Hnz : 1709560800000 - 24 * 3600000 <> 0) by discriminate.
    assert (Hts : Forall (fun g => 0 <= g_ts g) (gathers db_week))
      by (repeat constructor; discriminate).
    exact (proj1 (H Hnz Hts)).
Defined.

End WindowFacts.

(** * A scheduled day *)

Section ScheduledDayFacts.
Import Js Regex Parse Store Bot Commands Reference Examples.

Lemma tick_off_slot cfg env e clk w :
  isReportTime (nowParts clk) (weekday (getScheduleMeta (db w)))
    (hour (getScheduleMeta (db w))) (minute (getScheduleMeta (db w))) = false ->
  tick cfg env e clk w = (false, w).
Proof. intros H. unfold tick. cbv zeta. rewrite H. reflexivity. Qed.

(** X21: ticks that all fall on one calendar date, with the marker not
    yet at that date and at least one of them in the slot of the stored
    schedule, run the weekly cycle exactly once, at the first tick in the
    slot: the run ends in the world that this one run of the cycle leaves,
    with the marker at that date. *)
Theorem scheduled_day_fires_exactly_once cfg env e today clks w :
  Forall (fun clk => same_date (nowParts clk) today) clks ->
  Exists (fun clk => at_slot clk w) clks ->
  getLastReportDate (db w) <> Some (date_str today) ->
  exists pre clk post,
    clks = pre ++ clk :: post
    /\ Forall (fun c => ~ at_slot c w) pre
    /\ at_slot clk w
    /\ run_ticks cfg env e clks w = (1%nat, cycle_and_mark cfg env e clk w)
    /\ getLastReportDate (db (cycle_and_mark cfg env e clk w))
       = Some (date_str today).
Proof.
  induction clks as [|clk tl IH]; intros Hall Hex Hmark;
    [inversion Hex|].
  inversion Hall as [|? ? Hd Htl]; subst. cbn [run_ticks].
  destruct (isReportTime (nowParts clk) (weekday (getScheduleMeta (db w)))
              (hour (getScheduleMeta (db w))) (minute (getScheduleMeta (db w))))
    eqn:Eslot.
  - assert (Hm : getLastReportDate (db w) <> Some (date_str (nowParts clk)))
      by (rewrite (same_date_str _ _ Hd); exact Hmark).
    assert (Hset : getLastReportDate (db (cycle_and_mark cfg env e clk w))
                   = Some (date_str today)).
    { unfold cycle_and_mark. cbv zeta. cbn [db].
      rewrite <- (same_date_str _ _ Hd).
      apply getLastReportDate_set, date_str_nonempty. }
    exists [], clk, tl.
    rewrite (tick_fires cfg env e clk w Eslot Hm).
    fold (cycle_and_mark cfg env e clk w).
    rewrite (run_ticks_marked cfg env e today tl _ Htl Hset).
    repeat split; [constructor | exact Eslot | exact Hset].
  - rewrite (tick_off_slot cfg env e clk w Eslot).
    assert (Hex' : Exists (fun clk => at_slot clk w) tl).
    { inversion Hex as [? ? Hhere|? ? Hlater]; subst; [|exact Hlater].
      unfold at_slot in Hhere. congruence. }
    destruct (IH Htl Hex' Hmark) as (pre & c & post & -> & Hpre & Hs & Hr & Hset).
    exists (clk :: pre), c, post. rewrite Hr.
    repeat split; try assumption.
    constructor; [|exact Hpre]. unfold at_slot. congruence.
Qed.

Lemma scheduled_day_fires_exactly_once_witness :
  exists pre clk post,
    [monday_0900; monday_0900_again; monday_0901] = pre ++ clk :: post
    /\ Forall (fun c => ~ at_slot c (mkWorld db_week [])) pre
    /\ at_slot clk (mkWorld db_week [])
    /\ run_ticks cfg_webhook env_ok engine_a
         [monday_0900; monday_0900_again; monday_0901] (mkWorld db_week [])
       = (1%nat, cycle_and_mark cfg_webhook env_ok engine_a clk (mkWorld db_week []))
    /\ getLastReportDate
         (db (cycle_and_mark cfg_webhook env_ok engine_a clk (mkWorld db_week [])))
       = Some (date_str (mkDateParts 2024 3 4 0 0 1)).
Proof.
  apply (scheduled_day_fires_exactly_once cfg_webhook env_ok engine_a
           (mkDateParts 2024 3 4 0 0 1)
           [monday_0900; monday_0900_again; monday_0901] (mkWorld db_week [])).
  - repeat constructor.
  - apply Exists_cons_hd. reflexivity.
  - discriminate.
Defined.

(** On that Monday the one run of the cycle posts the report to the
    webhook and prunes the row of the week. *)
Lemma scheduled_day_example :
  let r := run_ticks cfg_webhook env_ok engine_a
             [monday_0900; monday_0900_again; monday_0901] (mkWorld db_week []) in
  fst r = 1%nat
  /\ snd r = cycle_and_mark cfg_webhook env_ok engine_a monday_0900
               (mkWorld db_week [])
  /\ gathers (db (snd r)) = []
  /\ length (outbox (snd r)) = 1%nat.
Proof. vm_compute. repeat split; reflexivity. Qed.

End ScheduledDayFacts.
